(** * ClockTree: date constraints and the two message passes

    A shallow embedding of [treetime/clock_tree.py].

    - Python floats are IEEE binary64 numbers: [PrimFloat.float].
    - Tree nodes are shared mutable objects: a node is a [NodeId], its
      attributes live in a store [NodeId -> Node], and the topology
      ([node.clades], [node.up]) is a rose tree of identifiers that the
      engine only reads.
    - An attribute that was never assigned ([Missing]) is told apart from an
      attribute that holds Python's None ([Has None]): reading the first
      raises AttributeError, the second is an ordinary value.
    - The modules clock_tree.py imports (distribution, node_interpolator,
      branch_len_interpolator, utils, treeanc) are interfaces: type classes
      whose operations are total functions.  The theorems on the engine are
      proved for all their instances.
    - An exception ends the operation that raised it; the attributes
      assigned before it are not kept track of. *)

From Stdlib Require Import PrimFloat List Bool Arith Permutation.
From Stdlib Require String.
Import ListNotations.

(** ** Python values, attributes and exceptions *)

Definition NodeId := nat.

Inductive attr (A : Type) : Type :=
| Missing : attr A
| Has : A -> attr A.
Arguments Missing {A}.
Arguments Has {A} _.

Inductive exn : Type :=
| AttributeError
| NameError
| ValueError
| OverflowError.

Inductive res (A : Type) : Type :=
| Ok : A -> res A
| Raise : exn -> res A.
Arguments Ok {A} _.
Arguments Raise {A} _.

Definition bind {A B : Type} (c : res A) (k : A -> res B) : res B :=
  match c with
  | Ok a => k a
  | Raise e => Raise e
  end.

Declare Scope py_scope.
Delimit Scope py_scope with py.
Notation "x <- c ;; k" := (bind c (fun x => k))
  (at level 61, c at next level, right associativity) : py_scope.
Open Scope py_scope.

(** [obj.name] on an object: AttributeError when the attribute is not there. *)
Definition getattr {A : Type} (a : attr A) : res A :=
  match a with
  | Has x => Ok x
  | Missing => Raise AttributeError
  end.

(** [hasattr(obj, name)]. *)
Definition hasattr {A : Type} (a : attr A) : bool :=
  match a with
  | Has _ => true
  | Missing => false
  end.

(** The body of a [for] statement run over a list, first exception wins. *)
Fixpoint for_each {S A : Type} (body : S -> A -> res S) (l : list A) (s : S)
  : res S :=
  match l with
  | [] => Ok s
  | a :: l' => s' <- body s a ;; for_each body l' s'
  end.

(** ** Topology: Bio.Phylo clades and their traversals *)

#[local] Unset Elimination Schemes.
Inductive clade : Type :=
| Clade : NodeId -> list clade -> clade.
#[local] Set Elimination Schemes.

Definition clade_id (t : clade) : NodeId :=
  match t with Clade n _ => n end.

(** What a loop body sees of the node it visits: the node itself, [node.up]
    and [node.clades]. *)
Record visit : Type := Visit {
  v_node : NodeId;
  v_up : option NodeId;
  v_clades : list NodeId
}.

Definition is_terminal (v : visit) : bool :=
  match v_clades v with [] => true | _ :: _ => false end.

Fixpoint preorder_from (up : option NodeId) (t : clade) : list visit :=
  match t with
  | Clade n cs =>
      Visit n up (map clade_id cs) :: flat_map (preorder_from (Some n)) cs
  end.

Fixpoint postorder_from (up : option NodeId) (t : clade) : list visit :=
  match t with
  | Clade n cs =>
      flat_map (postorder_from (Some n)) cs ++ [Visit n up (map clade_id cs)]
  end.

Inductive order : Type := Preorder | Postorder.

(** [tree.find_clades(order=...)]; the default order is preorder. *)
Definition find_clades (o : order) (t : clade) : list visit :=
  match o with
  | Preorder => preorder_from None t
  | Postorder => postorder_from None t
  end.

Definition ids (l : list visit) : list NodeId := map v_node l.

(** Every node object occurs once in the tree. *)
Definition wf (t : clade) : Prop := NoDup (ids (find_clades Preorder t)).

(** ** Output: calls of [self.logger] and [print]

    The messages, by the place that emits them: line 55, line 62, line 41
    (with the slope and R2 it formats), lines 76-77, lines 137, 138, 176 and
    209, lines 254-256 (the node is later than today but not marked bad: an
    error in the likelihood optimization) and lines 258-259 (a node marked bad
    optimized later than the present day). *)

Inductive text : Type :=
| InitDateConstraints
| InitializingInterpolators
| SettingConversion (slope r_val : float)
| BadBranchExcluded
| MLOptimization
| PropagatingLeavesRoot
| PropagatingRootLeaves
| SettingDates
| LaterThanTodayError
| LaterThanTodayBad.

Inductive event : Type :=
| Logged (msg : text) (level : nat) (warn : bool)
| Printed (msg : text).

(** ** The imported distribution objects *)

Class Library : Type := {
  (** Distribution, NodeInterpolator and BranchLenInterpolator objects *)
  Dist : Type;
  is_delta : Dist -> bool;
  peak_pos : Dist -> float;
  (** [NodeInterpolator.delta_function(x, weight=w)] *)
  delta_function : float -> float -> Dist;
  (** [Distribution.shifted_x(dist, delta)]; the first argument is passed as
      the attribute holds it, None included *)
  shifted_x : option Dist -> float -> Dist;
  (** [dist.x_rescale(a)] rescales the object in place; the function returns
      the object after the call.  The one object it is called on (line 234)
      is fresh from [shifted_x], so nothing else sees the mutation *)
  x_rescale : Dist -> float -> Dist;
  (** [NodeInterpolator.convolve(a, b, inverse_time=flag)]; flag [None] when
      the keyword is not passed *)
  convolve : Dist -> option Dist -> option bool -> Dist;
  (** [NodeInterpolator.multiply(seq)] *)
  multiply : list (option Dist) -> Dist;
  (** utils.DateConversion objects *)
  DateConversion : Type;
  slope : DateConversion -> float;
  intercept : DateConversion -> float;
  r_val : DateConversion -> float;
  get_date : DateConversion -> float -> float;
  (** TreeAnc attributes the engine only passes on *)
  Sequence : Type;
  GTR : Type
}.

Section Engine.

Context {L : Library}.

(** A dict keyed by clade objects: keys are unique and iteration follows
    insertion.  (Interpreters older than Python 3.7 iterate in an unspecified
    order; the lists of messages below are then the same up to their order.) *)
Definition dict : Type := list (NodeId * Dist).

(** [d[k] = x] *)
Fixpoint dict_set (d : dict) (k : NodeId) (x : Dist) : dict :=
  match d with
  | [] => [(k, x)]
  | (k', y) :: d' =>
      if Nat.eqb k' k then (k, x) :: d' else (k', y) :: dict_set d' k x
  end.

Definition values (d : dict) : list Dist := map snd d.

(** ** Node attributes *)

Record Node : Type := mkNode {
  numdate_given : attr (option float);
  bad_branch : attr bool;
  sequence : attr Sequence;
  abs_t : attr (option float);
  branch_length_interpolator : attr (option Dist);
  msg_to_parent : attr (option Dist);
  msgs_from_leaves : attr dict;
  msg_from_parent : attr (option Dist);
  marginal_lh : attr (option Dist);
  joint_lh : attr (option Dist);
  time_before_present : attr float;
  branch_length : option float;
  clock_length : attr (option float);
  numdate : attr float;
  date : attr String.string
}.

Definition set_numdate_given x (n : Node) : Node :=
  mkNode x (bad_branch n) (sequence n) (abs_t n)
    (branch_length_interpolator n) (msg_to_parent n) (msgs_from_leaves n)
    (msg_from_parent n) (marginal_lh n) (joint_lh n) (time_before_present n)
    (branch_length n) (clock_length n) (numdate n) (date n).

Definition set_abs_t x (n : Node) : Node :=
  mkNode (numdate_given n) (bad_branch n) (sequence n) x
    (branch_length_interpolator n) (msg_to_parent n) (msgs_from_leaves n)
    (msg_from_parent n) (marginal_lh n) (joint_lh n) (time_before_present n)
    (branch_length n) (clock_length n) (numdate n) (date n).

Definition set_branch_length_interpolator x (n : Node) : Node :=
  mkNode (numdate_given n) (bad_branch n) (sequence n) (abs_t n)
    x (msg_to_parent n) (msgs_from_leaves n)
    (msg_from_parent n) (marginal_lh n) (joint_lh n) (time_before_present n)
    (branch_length n) (clock_length n) (numdate n) (date n).

Definition set_msg_to_parent x (n : Node) : Node :=
  mkNode (numdate_given n) (bad_branch n) (sequence n) (abs_t n)
    (branch_length_interpolator n) x (msgs_from_leaves n)
    (msg_from_parent n) (marginal_lh n) (joint_lh n) (time_before_present n)
    (branch_length n) (clock_length n) (numdate n) (date n).

Definition set_msgs_from_leaves x (n : Node) : Node :=
  mkNode (numdate_given n) (bad_branch n) (sequence n) (abs_t n)
    (branch_length_interpolator n) (msg_to_parent n) x
    (msg_from_parent n) (marginal_lh n) (joint_lh n) (time_before_present n)
    (branch_length n) (clock_length n) (numdate n) (date n).

Definition set_msg_from_parent x (n : Node) : Node :=
  mkNode (numdate_given n) (bad_branch n) (sequence n) (abs_t n)
    (branch_length_interpolator n) (msg_to_parent n) (msgs_from_leaves n)
    x (marginal_lh n) (joint_lh n) (time_before_present n)
    (branch_length n) (clock_length n) (numdate n) (date n).

Definition set_marginal_lh x (n : Node) : Node :=
  mkNode (numdate_given n) (bad_branch n) (sequence n) (abs_t n)
    (branch_length_interpolator n) (msg_to_parent n) (msgs_from_leaves n)
    (msg_from_parent n) x (joint_lh n) (time_before_present n)
    (branch_length n) (clock_length n) (numdate n) (date n).

Definition set_joint_lh x (n : Node) : Node :=
  mkNode (numdate_given n) (bad_branch n) (sequence n) (abs_t n)
    (branch_length_interpolator n) (msg_to_parent n) (msgs_from_leaves n)
    (msg_from_parent n) (marginal_lh n) x (time_before_present n)
    (branch_length n) (clock_length n) (numdate n) (date n).

Definition set_time_before_present x (n : Node) : Node :=
  mkNode (numdate_given n) (bad_branch n) (sequence n) (abs_t n)
    (branch_length_interpolator n) (msg_to_parent n) (msgs_from_leaves n)
    (msg_from_parent n) (marginal_lh n) (joint_lh n) x
    (branch_length n) (clock_length n) (numdate n) (date n).

Definition set_branch_length x (n : Node) : Node :=
  mkNode (numdate_given n) (bad_branch n) (sequence n) (abs_t n)
    (branch_length_interpolator n) (msg_to_parent n) (msgs_from_leaves n)
    (msg_from_parent n) (marginal_lh n) (joint_lh n) (time_before_present n)
    x (clock_length n) (numdate n) (date n).

Definition set_clock_length x (n : Node) : Node :=
  mkNode (numdate_given n) (bad_branch n) (sequence n) (abs_t n)
    (branch_length_interpolator n) (msg_to_parent n) (msgs_from_leaves n)
    (msg_from_parent n) (marginal_lh n) (joint_lh n) (time_before_present n)
    (branch_length n) x (numdate n) (date n).

Definition set_numdate x (n : Node) : Node :=
  mkNode (numdate_given n) (bad_branch n) (sequence n) (abs_t n)
    (branch_length_interpolator n) (msg_to_parent n) (msgs_from_leaves n)
    (msg_from_parent n) (marginal_lh n) (joint_lh n) (time_before_present n)
    (branch_length n) (clock_length n) x (date n).

Definition set_date x (n : Node) : Node :=
  mkNode (numdate_given n) (bad_branch n) (sequence n) (abs_t n)
    (branch_length_interpolator n) (msg_to_parent n) (msgs_from_leaves n)
    (msg_from_parent n) (marginal_lh n) (joint_lh n) (time_before_present n)
    (branch_length n) (clock_length n) (numdate n) x.

Definition store : Type := NodeId -> Node.

(** Assignment to attributes of node [n]. *)
Definition update (s : store) (n : NodeId) (f : Node -> Node) : store :=
  fun m => if Nat.eqb m n then f (s m) else s m.

(** ** The ClockTree object *)

Record ClockTree : Type := mkClockTree {
  tree : clade;
  nodes : store;
  gtr : GTR;
  one_mutation : float;
  _date2dist : option DateConversion;
  max_diam : float;
  out : list event
}.

Definition with_nodes (self : ClockTree) (s : store) : ClockTree :=
  mkClockTree (tree self) s (gtr self) (one_mutation self) (_date2dist self)
    (max_diam self) (out self).

Definition on_node (self : ClockTree) (n : NodeId) (f : Node -> Node)
  : ClockTree :=
  with_nodes self (update (nodes self) n f).

Definition emit (self : ClockTree) (e : event) : ClockTree :=
  mkClockTree (tree self) (nodes self) (gtr self) (one_mutation self)
    (_date2dist self) (max_diam self) (out self ++ [e]).

(** [self.logger(msg, level, warn=...)]: the call is recorded; what reaches
    the terminal depends on the verbosity, which the engine never reads. *)
Definition logger (self : ClockTree) (msg : text) (level : nat) (warn : bool)
  : ClockTree :=
  emit self (Logged msg level warn).

Definition print (self : ClockTree) (msg : text) : ClockTree :=
  emit self (Printed msg).

(** ** The imported services

    TreeAnc methods, the BranchLenInterpolator constructor, the calibration
    fit, today's date and the calendar rendering of a decimal year. *)

Class Services : Type := {
  Kwargs : Type;
  (** [self.optimize_seq_and_branch_len] with its keyword arguments *)
  optimize_seq_and_branch_len : Kwargs -> ClockTree -> ClockTree;
  (** [BranchLenInterpolator(node, gtr, one_mutation=...)]; the constructor
      sees the node inside the tree it belongs to *)
  BranchLenInterpolator : clade -> store -> NodeId -> GTR -> float -> Dist;
  (** [utils.DateConversion.from_tree(tree, slope)] *)
  from_tree : clade -> store -> option float -> DateConversion;
  (** [utils.numeric_date()]: today as a decimal year, one value per run *)
  numeric_date : float;
  (** lines 264-272 of convert_dates once [int(numdate)] has succeeded: the
      calendar string of a finite decimal year *)
  calendar_string : float -> String.string
}.

Context {V : Services}.

(** *** date2dist: the property setter (lines 35-42) *)

Definition set_date2dist (self : ClockTree) (val : option DateConversion)
  : ClockTree :=
  match val with
  | None =>
      mkClockTree (tree self) (nodes self) (gtr self) (one_mutation self)
        None (max_diam self) (out self)
  | Some dc =>
      let self := logger self (SettingConversion (slope dc) (r_val dc)) 2 false in
      mkClockTree (tree self) (nodes self) (gtr self) (one_mutation self)
        (Some dc) (max_diam self) (out self)
  end.

Definition set_max_diam (self : ClockTree) (x : float) : ClockTree :=
  mkClockTree (tree self) (nodes self) (gtr self) (one_mutation self)
    (_date2dist self) x (out self).

(** *** init_date_constraints (lines 44-91) *)

(** Lines 57-58. *)
Definition init_sequences (ancestral_inference : bool) (kwarks : Kwargs)
    (self : ClockTree) : ClockTree :=
  if ancestral_inference
     || negb (hasattr (sequence (nodes self (clade_id (tree self)))))
  then optimize_seq_and_branch_len kwarks self
  else self.

(** [self.date2dist.name]: the getter returns the stored object, and an
    attribute of None is an AttributeError. *)
Definition date2dist (self : ClockTree) : res DateConversion :=
  match _date2dist self with
  | Some dc => Ok dc
  | None => Raise AttributeError
  end.

(** Lines 63-67, one node. *)
Definition init_interpolator (self : ClockTree) (v : visit) : res ClockTree :=
  match v_up v with
  | Some _ =>
      Ok (on_node self (v_node v)
            (set_branch_length_interpolator
               (Has (Some (BranchLenInterpolator (tree self) (nodes self)
                             (v_node v) (gtr self) (one_mutation self))))))
  | None =>
      Ok (on_node self (v_node v) (set_branch_length_interpolator (Has None)))
  end.

(** Lines 62-69. *)
Definition init_conversion (slope_arg : option float) (self : ClockTree)
  : res ClockTree :=
  let self := print self InitializingInterpolators in
  self <- for_each init_interpolator (find_clades Preorder (tree self)) self ;;
  let self :=
    set_date2dist self (Some (from_tree (tree self) (nodes self) slope_arg)) in
  dc <- date2dist self ;;
  Ok (set_max_diam self (intercept dc)).

(** Lines 72-91, one node. *)
Definition init_constraint (self : ClockTree) (v : visit) : res ClockTree :=
  let n := v_node v in
  match numdate_given (nodes self n) with
  | Has (Some given) =>
      match bad_branch (nodes self n) with
      | Has true =>
          let self := print self BadBranchExcluded in
          let self := on_node self n (set_numdate_given (Has None)) in
          let self := on_node self n (set_abs_t (Has None)) in
          Ok (on_node self n (set_msg_to_parent (Has None)))
      | _ =>
          dc <- date2dist self ;;
          let t := ((numeric_date - given) * abs (slope dc))%float in
          let self := on_node self n (set_abs_t (Has (Some t))) in
          Ok (on_node self n
                (set_msg_to_parent (Has (Some (delta_function t 1%float)))))
      end
  | _ =>
      let self := on_node self n (set_numdate_given (Has None)) in
      let self := on_node self n (set_abs_t (Has None)) in
      Ok (on_node self n (set_msg_to_parent (Has None)))
  end.

Definition init_date_constraints (ancestral_inference : bool)
    (slope_arg : option float) (kwarks : Kwargs) (self : ClockTree)
  : res ClockTree :=
  let self := logger self InitDateConstraints 2 false in
  let self := init_sequences ancestral_inference kwarks self in
  self <- init_conversion slope_arg self ;;
  for_each init_constraint (find_clades Preorder (tree self)) self.

(** *** _ml_t_leaves_root (lines 104-153) *)

(** Lines 126-135.  The caller has checked that the message is not None. *)
Definition _send_message (s : store) (node : NodeId) : res Dist :=
  m <- getattr (msg_to_parent (s node)) ;;
  match m with
  | None => Raise AttributeError
  | Some msg =>
      if is_delta msg
      then
        b <- getattr (branch_length_interpolator (s node)) ;;
        Ok (shifted_x b (peak_pos msg))
      else
        b <- getattr (branch_length_interpolator (s node)) ;;
        Ok (convolve msg b None)
  end.

(** The dict comprehension of lines 147-148. *)
Fixpoint collect_messages (s : store) (cs : list NodeId) (d : dict)
  : res dict :=
  match cs with
  | [] => Ok d
  | c :: cs' =>
      m <- getattr (msg_to_parent (s c)) ;;
      match m with
      | None => collect_messages s cs' d
      | Some _ =>
          r <- _send_message s c ;;
          collect_messages s cs' (dict_set d c r)
      end
  end.

(** Lines 140-153, one node. *)
Definition leaves_root_node (self : ClockTree) (v : visit) : res ClockTree :=
  let n := v_node v in
  if is_terminal v
  then Ok (on_node self n (set_msgs_from_leaves (Has [])))
  else
    d <- collect_messages (nodes self) (v_clades v) [] ;;
    let self := on_node self n (set_msgs_from_leaves (Has d)) in
    d' <- getattr (msgs_from_leaves (nodes self n)) ;;
    if length d' <? 1
    then Ok self
    else
      d'' <- getattr (msgs_from_leaves (nodes self n)) ;;
      Ok (on_node self n
            (set_msg_to_parent (Has (Some (multiply (map Some (values d''))))))).

Definition _ml_t_leaves_root (self : ClockTree) : res ClockTree :=
  let self := logger self MLOptimization 1 false in
  let self := logger self PropagatingLeavesRoot 2 false in
  for_each leaves_root_node (find_clades Postorder (tree self)) self.

(** *** _ml_t_root_leaves (lines 156-195) *)

(** Lines 185-187: the messages of the parent's dict, the node's own left
    out. *)
Definition complementary (d : dict) (node : NodeId) : list (option Dist) :=
  map (fun kv => Some (snd kv))
      (filter (fun kv => negb (Nat.eqb (fst kv) node)) d).

(** Lines 179-195, one node. *)
Definition root_leaves_node (self : ClockTree) (v : visit) : res ClockTree :=
  let n := v_node v in
  match v_up v with
  | None => Ok (on_node self n (set_msg_from_parent (Has None)))
  | Some parent =>
      d <- getattr (msgs_from_leaves (nodes self parent)) ;;
      let complementary_msgs := complementary d n in
      pm <- getattr (msg_from_parent (nodes self parent)) ;;
      let complementary_msgs :=
        match pm with
        | Some m => complementary_msgs ++ [Some m]
        | None => complementary_msgs
        end in
      let msg_parent_to_node := multiply complementary_msgs in
      b <- getattr (branch_length_interpolator (nodes self n)) ;;
      let r := convolve msg_parent_to_node b (Some false) in
      Ok (on_node self n (set_msg_from_parent (Has (Some r))))
  end.

Definition _ml_t_root_leaves (self : ClockTree) : res ClockTree :=
  let self := logger self PropagatingRootLeaves 2 false in
  for_each root_leaves_node (find_clades Preorder (tree self)) self.

(** *** _set_final_dates (lines 198-243) *)

(** Lines 210-214: [dist.is_delta] on None is an AttributeError. *)
Definition collapse_func (dist : option Dist) : res float :=
  match dist with
  | None => Raise AttributeError
  | Some d => if is_delta d then Ok (peak_pos d) else Ok (peak_pos d)
  end.

(** Lines 217-243, one node. *)
Definition final_dates_node (self : ClockTree) (v : visit) : res ClockTree :=
  let n := v_node v in
  self <-
    match v_up v with
    | None =>
        m <- getattr (msg_to_parent (nodes self n)) ;;
        Ok (on_node self n (set_marginal_lh (Has m)))
    | Some _ =>
        mf <- getattr (msg_from_parent (nodes self n)) ;;
        mt <- getattr (msg_to_parent (nodes self n)) ;;
        Ok (on_node self n (set_marginal_lh (Has (Some (multiply [mf; mt])))))
    end ;;
  self <-
    match v_up v with
    | None =>
        m <- getattr (msg_to_parent (nodes self n)) ;;
        let self := on_node self n (set_joint_lh (Has m)) in
        j <- getattr (joint_lh (nodes self n)) ;;
        t <- collapse_func j ;;
        let self := on_node self n (set_time_before_present (Has t)) in
        Ok (on_node self n (set_branch_length (Some (one_mutation self))))
    | Some up =>
        b <- getattr (branch_length_interpolator (nodes self n)) ;;
        tp <- getattr (time_before_present (nodes self up)) ;;
        let r := shifted_x b (- tp)%float in
        let r := x_rescale r (-1)%float in
        mt <- getattr (msg_to_parent (nodes self n)) ;;
        let self :=
          match mt with
          | Some m =>
              on_node self n (set_joint_lh (Has (Some (multiply [Some m; Some r]))))
          | None => on_node self n (set_joint_lh (Has (Some r)))
          end in
        j <- getattr (joint_lh (nodes self n)) ;;
        t <- collapse_func j ;;
        let self := on_node self n (set_time_before_present (Has t)) in
        tp' <- getattr (time_before_present (nodes self up)) ;;
        tn <- getattr (time_before_present (nodes self n)) ;;
        Ok (on_node self n (set_branch_length (Some (tp' - tn)%float)))
    end ;;
  Ok (on_node self n (set_clock_length (Has (branch_length (nodes self n))))).

Definition _set_final_dates (self : ClockTree) : res ClockTree :=
  let self := logger self SettingDates 2 false in
  for_each final_dates_node (find_clades Preorder (tree self)) self.

(** *** convert_dates (lines 247-272) *)

(** [int(x)] on a float: ValueError on NaN, OverflowError on an infinity. *)
Definition int_check (x : float) : res unit :=
  if is_nan x then Raise ValueError
  else if is_infinity x then Raise OverflowError
  else Ok tt.

(** Lines 250-272, one node. *)
Definition convert_node (now : float) (self : ClockTree) (v : visit)
  : res ClockTree :=
  let n := v_node v in
  dc <- date2dist self ;;
  t <- getattr (time_before_present (nodes self n)) ;;
  let years_bp := get_date dc t in
  let self :=
    if (years_bp <? 0)%float
    then
      if negb (hasattr (bad_branch (nodes self n)))
         || match bad_branch (nodes self n) with
            | Has false => true
            | _ => false
            end
      then logger self LaterThanTodayError 4 true
      else logger self LaterThanTodayBad 4 true
    else self in
  let self := on_node self n (set_numdate (Has (now - years_bp)%float)) in
  nd <- getattr (numdate (nodes self n)) ;;
  _ <- int_check nd ;;
  Ok (on_node self n (set_date (Has (calendar_string nd)))).

Definition convert_dates (self : ClockTree) : res ClockTree :=
  let now := numeric_date in
  for_each (convert_node now) (find_clades Preorder (tree self)) self.

(** *** make_time_tree (lines 93-101)

    ClockTree objects live in a heap; the module's global name [myTree] is
    bound to one of them, or to nothing when the module is imported rather
    than run as a script (line 292 sits under the main guard). *)

Definition EngineRef := nat.
Definition heap : Type := EngineRef -> ClockTree.

(** Looking up the global name. *)
Definition lookup_global (myTree : option EngineRef) : res EngineRef :=
  match myTree with
  | Some r => Ok r
  | None => Raise NameError
  end.

(** A method call on the object a reference points to. *)
Definition call (h : heap) (r : EngineRef)
    (method : ClockTree -> res ClockTree) : res heap :=
  o <- method (h r) ;;
  Ok (fun r' => if Nat.eqb r' r then o else h r').

Definition make_time_tree (myTree : option EngineRef) (self : EngineRef)
    (h : heap) : res heap :=
  g <- lookup_global myTree ;;
  h <- call h g _ml_t_leaves_root ;;
  g <- lookup_global myTree ;;
  h <- call h g _ml_t_root_leaves ;;
  g <- lookup_global myTree ;;
  h <- call h g _set_final_dates ;;
  g <- lookup_global myTree ;;
  call h g convert_dates.

End Engine.

(** * Specification vocabulary

    The rules the claims are stated with, in the words of the specification,
    and the parts of a node each operation leaves alone. *)

Section Specification.

Context {L : Library} {V : Services}.

(** [scan R done l]: every element of [l] satisfies [R] against the elements
    before it, [done] included. *)
Fixpoint scan (R : list visit -> visit -> Prop) (done l : list visit) : Prop :=
  match l with
  | [] => True
  | v :: l' => R done v /\ scan R (done ++ [v]) l'
  end.

Definition parent_known (done : list visit) (v : visit) : Prop :=
  forall p, v_up v = Some p -> In p (ids done).

Definition children_known (done : list visit) (v : visit) : Prop :=
  forall c, In c (v_clades v) -> In c (ids done).

(** The interpolator attribute as the operations receive it. *)
Definition the_interpolator (nd : Node) : option Dist :=
  match branch_length_interpolator nd with
  | Has b => b
  | Missing => None
  end.

(** What child [c] sends to its parent: nothing when its message is None. *)
Definition child_message (s : store) (c : NodeId) : dict :=
  match msg_to_parent (s c) with
  | Has (Some m) =>
      [(c, if is_delta m
           then shifted_x (the_interpolator (s c)) (peak_pos m)
           else convolve m (the_interpolator (s c)) None)]
  | _ => []
  end.

Definition child_messages (s : store) (cs : list NodeId) : dict :=
  flat_map (child_message s) cs.

(** The upward pass at an internal node [v], [before] and [after] the pass. *)
Definition upward_rule (before after : store) (v : visit) : Prop :=
  let msgs := child_messages after (v_clades v) in
  msgs_from_leaves (after (v_node v)) = Has msgs /\
  (msgs = [] ->
   msg_to_parent (after (v_node v)) = msg_to_parent (before (v_node v))) /\
  (msgs <> [] ->
   msg_to_parent (after (v_node v)) =
   Has (Some (multiply (map Some (values msgs))))).

Definition upward_leaf_rule (before after : store) (v : visit) : Prop :=
  msgs_from_leaves (after (v_node v)) = Has [] /\
  msg_to_parent (after (v_node v)) = msg_to_parent (before (v_node v)).

(** Children carry the attributes the upward pass reads. *)
Definition children_ready (t : clade) (s : store) : Prop :=
  forall v c, In v (find_clades Preorder t) -> In c (v_clades v) ->
    hasattr (msg_to_parent (s c)) = true /\
    hasattr (branch_length_interpolator (s c)) = true.

Definition upward_post (before after : store) (v : visit) : Prop :=
  if is_terminal v
  then upward_leaf_rule before after v
  else upward_rule before after v.

(** The messages multiplied for node [node]: the parent's stored messages
    but the node's own, then the parent's own incoming message if any. *)
Definition complementary_messages (d : dict) (node : NodeId) (pm : option Dist)
  : list (option Dist) :=
  complementary d node ++ match pm with Some m => [Some m] | None => [] end.

(** The downward pass at [v], convolving with [inverse_time=flag]. *)
Definition downward_rule (flag : bool) (s : store) (v : visit) : Prop :=
  match v_up v with
  | None => msg_from_parent (s (v_node v)) = Has None
  | Some p =>
      exists d pm,
        msgs_from_leaves (s p) = Has d /\
        msg_from_parent (s p) = Has pm /\
        msg_from_parent (s (v_node v)) =
        Has (Some (convolve (multiply (complementary_messages d (v_node v) pm))
                            (the_interpolator (s (v_node v))) (Some flag)))
  end.

(** Parents carry their dict and nodes their interpolator. *)
Definition parents_ready (t : clade) (s : store) : Prop :=
  forall v p, In v (find_clades Preorder t) -> v_up v = Some p ->
    hasattr (msgs_from_leaves (s p)) = true /\
    hasattr (branch_length_interpolator (s (v_node v))) = true.

(** A node with the attribute the downward pass assigns taken away. *)
Definition forget_downward (nd : Node) : Node := set_msg_from_parent Missing nd.

(** An attribute that may hold None, as the operations receive it. *)
Definition the_value {A : Type} (a : attr (option A)) : option A :=
  match a with
  | Has x => x
  | Missing => None
  end.

(** The interpolator shifted by minus the parent's time, x-axis reversed. *)
Definition transformed_interpolator (nd : Node) (tp : float) : Dist :=
  x_rescale (shifted_x (the_interpolator nd) (- tp)%float) (-1)%float.

Definition joint_posterior (nd : Node) (tp : float) : Dist :=
  match msg_to_parent nd with
  | Has (Some m) => multiply [Some m; Some (transformed_interpolator nd tp)]
  | _ => transformed_interpolator nd tp
  end.

(** Finalization at [v]. *)
Definition final_rule (om : float) (before after : store) (v : visit) : Prop :=
  let n := v_node v in
  match v_up v with
  | None =>
      exists m,
        msg_to_parent (before n) = Has (Some m) /\
        marginal_lh (after n) = Has (Some m) /\
        joint_lh (after n) = Has (Some m) /\
        time_before_present (after n) = Has (peak_pos m) /\
        branch_length (after n) = Some om /\
        clock_length (after n) = Has (Some om)
  | Some p =>
      exists tp,
        let j := joint_posterior (before n) tp in
        time_before_present (after p) = Has tp /\
        marginal_lh (after n) =
          Has (Some (multiply [the_value (msg_from_parent (before n));
                               the_value (msg_to_parent (before n))])) /\
        joint_lh (after n) = Has (Some j) /\
        time_before_present (after n) = Has (peak_pos j) /\
        branch_length (after n) = Some (tp - peak_pos j)%float /\
        clock_length (after n) = Has (Some (tp - peak_pos j)%float)
  end.

(** The root has a message and the other nodes the attributes read. *)
Definition final_ready (t : clade) (s : store) : Prop :=
  forall v, In v (find_clades Preorder t) ->
    match v_up v with
    | None => exists m, msg_to_parent (s (v_node v)) = Has (Some m)
    | Some _ =>
        hasattr (msg_from_parent (s (v_node v))) = true /\
        hasattr (msg_to_parent (s (v_node v))) = true /\
        hasattr (branch_length_interpolator (s (v_node v))) = true
    end.

(** A node with the attributes finalization assigns taken away. *)
Definition forget_final (nd : Node) : Node :=
  set_marginal_lh Missing
    (set_joint_lh Missing
       (set_time_before_present Missing
          (set_branch_length None (set_clock_length Missing nd)))).

(** The node is marked as a bad branch: the attribute is there and true. *)
Definition marked_bad (nd : Node) : bool :=
  match bad_branch nd with
  | Has true => true
  | _ => false
  end.

(** What convert_dates logs at [v]. *)
Definition date_events (dc : DateConversion) (s : store) (v : visit)
  : list event :=
  match time_before_present (s (v_node v)) with
  | Has t =>
      if (get_date dc t <? 0)%float
      then [Logged (if marked_bad (s (v_node v))
                    then LaterThanTodayBad else LaterThanTodayError) 4 true]
      else []
  | Missing => []
  end.

(** Calendar conversion at [v]. *)
Definition convert_rule (dc : DateConversion) (before after : store) (v : visit)
  : Prop :=
  exists t,
    time_before_present (before (v_node v)) = Has t /\
    numdate (after (v_node v)) = Has (numeric_date - get_date dc t)%float /\
    date (after (v_node v)) =
      Has (calendar_string (numeric_date - get_date dc t)%float).

(** Every node has its time and the decimal year it maps to is finite. *)
Definition convert_ready (dc : DateConversion) (t : clade) (s : store) : Prop :=
  forall v, In v (find_clades Preorder t) ->
    exists x,
      time_before_present (s (v_node v)) = Has x /\
      is_nan (numeric_date - get_date dc x)%float = false /\
      is_infinity (numeric_date - get_date dc x)%float = false.

Definition forget_convert (nd : Node) : Node :=
  set_numdate Missing (set_date Missing nd).

(** The sampling date that constrains a node: given, and not a bad branch. *)
Definition constrained (nd : Node) : option float :=
  match numdate_given nd with
  | Has (Some given) => if marked_bad nd then None else Some given
  | _ => None
  end.

(** A dated node marked bad is demoted. *)
Definition demoted (nd : Node) : bool :=
  match numdate_given nd with
  | Has (Some _) => marked_bad nd
  | _ => false
  end.

Definition demotions (s : store) (v : visit) : list event :=
  if demoted (s (v_node v)) then [Printed BadBranchExcluded] else [].

(** Date constraints at [v] under calibration [dc]. *)
Definition constraint_rule (dc : DateConversion) (before after : store)
    (v : visit) : Prop :=
  let n := v_node v in
  match constrained (before n) with
  | Some given =>
      let t := ((numeric_date - given) * abs (slope dc))%float in
      numdate_given (after n) = Has (Some given) /\
      abs_t (after n) = Has (Some t) /\
      msg_to_parent (after n) = Has (Some (delta_function t 1%float))
  | None =>
      numdate_given (after n) = Has None /\
      abs_t (after n) = Has None /\
      msg_to_parent (after n) = Has None
  end.

Definition forget_interpolator (nd : Node) : Node :=
  set_branch_length_interpolator Missing nd.

Definition forget_constraints (nd : Node) : Node :=
  set_numdate_given Missing (set_abs_t Missing (set_msg_to_parent Missing nd)).

Definition forget_init (nd : Node) : Node :=
  forget_interpolator (forget_constraints nd).

(** The engine as the loops of init_date_constraints find it. *)
Definition init_entry (ancestral_inference : bool) (kwarks : Kwargs)
    (self : ClockTree) : ClockTree :=
  init_sequences ancestral_inference kwarks (logger self InitDateConstraints 2 false).

(** [clock_length] holds what [branch_length] holds. *)
Definition lengths_agree (nd : Node) : Prop :=
  clock_length nd = Has (branch_length nd).

(** From [s] to [s'] no node was given two different lengths: both
    attributes are as they were, or they now agree. *)
Definition lengths_consistent (s s' : store) : Prop :=
  forall n,
    (branch_length (s' n) = branch_length (s n) /\
     clock_length (s' n) = clock_length (s n)) \/
    lengths_agree (s' n).

(** Events logged with the warn flag. *)
Definition warnings (l : list event) : list event :=
  filter (fun e => match e with Logged _ _ true => true | _ => false end) l.

(** C1 as stated, for the flag [flag]: after the downward pass every node of
    the tree obeys [downward_rule flag]. *)
Definition downward_messages (flag : bool) (t : clade) (s : store) : Prop :=
  forall v, In v (find_clades Preorder t) -> downward_rule flag s v.

(** C6 as stated: a negative branch length on a node that is not a bad
    branch comes with a logged warning. *)
Definition negative_branch_reported (self : ClockTree) : Prop :=
  forall v p bl,
    In v (find_clades Preorder (tree self)) -> v_up v = Some p ->
    branch_length (nodes self (v_node v)) = Some bl ->
    (bl <? 0)%float = true ->
    marked_bad (nodes self (v_node v)) = false ->
    warnings (out self) <> [].

(** C7 as stated: a date in the future is logged and clamped to today. *)
Definition future_dates_clamped (dc : DateConversion) (before after : ClockTree)
  : Prop :=
  forall v t,
    In v (find_clades Preorder (tree before)) ->
    time_before_present (nodes before (v_node v)) = Has t ->
    (get_date dc t <? 0)%float = true ->
    marked_bad (nodes before (v_node v)) = false ->
    In (Logged LaterThanTodayError 4 true) (out after) /\
    numdate (nodes after (v_node v)) = Has numeric_date.

End Specification.

(** * Further vocabulary

    What the operations leave alone, and the words of the properties that go
    beyond the claims. *)

Section Further.

Context {L : Library} {V : Services}.

(** The attributes of the object itself, its nodes and its output apart. *)
Definition same_object (s s' : ClockTree) : Prop :=
  tree s' = tree s /\ gtr s' = gtr s /\ one_mutation s' = one_mutation s /\
  _date2dist s' = _date2dist s /\ max_diam s' = max_diam s.

(** From [s] to [s'] the object is the same, the nodes agree once [forget]
    has taken some attributes away, and the nodes outside the tree are
    untouched. *)
Definition touches (forget : Node -> Node) (s s' : ClockTree) : Prop :=
  same_object s s' /\
  (forall n, forget (nodes s' n) = forget (nodes s n)) /\
  (forall n, ~ In n (ids (find_clades Preorder (tree s))) ->
             nodes s' n = nodes s n).

(** A node with the attributes the upward pass assigns taken away. *)
Definition forget_upward (nd : Node) : Node :=
  set_msgs_from_leaves Missing (set_msg_to_parent Missing nd).

(** The node has a message for its parent. *)
Definition has_message (nd : Node) : bool :=
  match msg_to_parent nd with
  | Has (Some _) => true
  | _ => false
  end.

(** Some node of the tree has a message. *)
Definition some_message (t : clade) (s : store) : Prop :=
  exists v, In v (find_clades Preorder t) /\ has_message (s (v_node v)) = true.

(** Some node of the subtree [t] has a message. *)
Fixpoint message_below (s : store) (t : clade) : bool :=
  match t with
  | Clade n cs => has_message (s n) || existsb (message_below s) cs
  end.

(** Every node of the tree has the two attributes init_date_constraints
    assigns to all of them. *)
Definition nodes_ready (t : clade) (s : store) : Prop :=
  forall v, In v (find_clades Preorder t) ->
    hasattr (msg_to_parent (s (v_node v))) = true /\
    hasattr (branch_length_interpolator (s (v_node v))) = true.

(** The children of a node but [n]. *)
Definition siblings (n : NodeId) (cs : list NodeId) : list NodeId :=
  filter (fun c => negb (Nat.eqb c n)) cs.

(** The decimal year of a node [t] units before the present. *)
Definition year (dc : DateConversion) (t : float) : float :=
  (numeric_date - get_date dc t)%float.

(** What stops convert_dates at a node, if anything: the time is not there
    (AttributeError), or the year is not a number (ValueError) or infinite
    (OverflowError) when [int] is called on it. *)
Definition conversion_failure (dc : DateConversion) (nd : Node) : option exn :=
  match time_before_present nd with
  | Missing => Some AttributeError
  | Has t =>
      if is_nan (year dc t) then Some ValueError
      else if is_infinity (year dc t) then Some OverflowError
      else None
  end.

(** The nodes of the tree whose date comes out after today. *)
Definition future_nodes (dc : DateConversion) (t : clade) (s : store)
  : list visit :=
  filter (fun v => match time_before_present (s (v_node v)) with
                   | Has x => (get_date dc x <? 0)%float
                   | Missing => false
                   end)
         (find_clades Preorder t).

(** The nodes as the constructor of an interpolator finds them once the
    nodes of [done] have been visited: those of [entry], the nodes of [done]
    with the interpolator they end with in [after]. *)
Definition seen_before (entry : ClockTree) (after : store) (done : list visit)
  : store :=
  fun n =>
    if existsb (Nat.eqb n) (ids done)
    then set_branch_length_interpolator
           (branch_length_interpolator (after n)) (nodes entry n)
    else nodes entry n.

(** The interpolator init_date_constraints gives node [v], visited after the
    nodes of [done]: None at the root, elsewhere what the constructor returns
    for the node, the engine's gtr and its one_mutation.  The constructor is
    handed a store [seen] that holds, node by node, what [seen_before]
    says. *)
Definition interpolator_rule (entry : ClockTree) (after : store)
    (done : list visit) (v : visit) : Prop :=
  match v_up v with
  | None => branch_length_interpolator (after (v_node v)) = Has None
  | Some _ =>
      exists seen : store,
        (forall n, seen n = seen_before entry after done n) /\
        branch_length_interpolator (after (v_node v)) =
        Has (Some (BranchLenInterpolator (tree entry) seen (v_node v)
                     (gtr entry) (one_mutation entry)))
  end.

(** The three date attributes of a node agree under calibration [dc]: a
    sampling date with its time and the delta there, or None three times. *)
Definition dates_agree (dc : DateConversion) (nd : Node) : Prop :=
  match numdate_given nd with
  | Has (Some given) =>
      let t := ((numeric_date - given) * abs (slope dc))%float in
      abs_t nd = Has (Some t) /\
      msg_to_parent nd = Has (Some (delta_function t 1%float))
  | Has None => abs_t nd = Has None /\ msg_to_parent nd = Has None
  | Missing => False
  end.

(** ** The constructor (lines 15-28)

    [super().__init__] belongs to TreeAnc: the engine as it leaves it is
    given.  [dates] is used as a map from node names to sampling dates,
    through [in] and a lookup; a clade's name is a string or None.  Raising a
    string is a TypeError. *)

Definition Name : Type := option String.string.

Definition Dates : Type := Name -> option (option float).

Inductive init_exn : Type := TypeError.

Inductive outcome (A : Type) : Type :=
| Returns (a : A)
| Raises (e : init_exn).
Arguments Returns {A} a.
Arguments Raises {A} e.

(** The object with the two attributes only the constructor assigns. *)
Record ClockTreeObject : Type := mkClockTreeObject {
  fields : ClockTree;
  date_dict : Dates;
  debug : bool
}.

(** Lines 25-28, one node. *)
Definition init_node (dates : Dates) (name : NodeId -> Name)
    (self : ClockTree) (v : visit) : ClockTree :=
  match dates (name (v_node v)) with
  | Some d => on_node self (v_node v) (set_numdate_given (Has d))
  | None => on_node self (v_node v) (set_numdate_given (Has None))
  end.

Definition __init__ (dates : option Dates) (name : NodeId -> Name)
    (self : ClockTree) : outcome ClockTreeObject :=
  match dates with
  | None => Raises TypeError
  | Some d =>
      let self := set_date2dist self None in
      let self := set_max_diam self 0%float in
      let self :=
        fold_left (init_node d name) (find_clades Preorder (tree self)) self in
      Returns (mkClockTreeObject self d false)
  end.

(** The entry of [dates] for a name, None when there is none. *)
Definition date_of (dates : Dates) (n : Name) : option float :=
  match dates n with
  | Some d => d
  | None => None
  end.

(** A node with its sampling date taken away. *)
Definition forget_given (nd : Node) : Node := set_numdate_given Missing nd.

(** ** The operations of clock_tree.py, one run from [s] to [s']

    make_time_tree is seen at every object [r] of its heap. *)

Definition any_operation (s s' : ClockTree) : Prop :=
  (exists dates name o, __init__ dates name s = Returns o /\ s' = fields o) \/
  (exists ancestral_inference slope_arg kwarks,
     init_date_constraints ancestral_inference slope_arg kwarks s = Ok s') \/
  _ml_t_leaves_root s = Ok s' \/
  _ml_t_root_leaves s = Ok s' \/
  _set_final_dates s = Ok s' \/
  convert_dates s = Ok s' \/
  (exists myTree self h h' r,
     make_time_tree myTree self h = Ok h' /\ s = h r /\ s' = h' r).

(** The same with TreeAnc's optimize_seq_and_branch_len left out:
    init_date_constraints is taken from the state that call (line 58) hands
    to the statements after it. *)
Definition own_operation (s s' : ClockTree) : Prop :=
  (exists dates name o, __init__ dates name s = Returns o /\ s' = fields o) \/
  (exists ancestral_inference slope_arg kwarks s0,
     s = init_entry ancestral_inference kwarks s0 /\
     init_date_constraints ancestral_inference slope_arg kwarks s0 = Ok s') \/
  _ml_t_leaves_root s = Ok s' \/
  _ml_t_root_leaves s = Ok s' \/
  _set_final_dates s = Ok s' \/
  convert_dates s = Ok s' \/
  (exists myTree self h h' r,
     make_time_tree myTree self h = Ok h' /\ s = h r /\ s' = h' r).

(** C10 as stated, second half: no operation gives a node two different
    lengths. *)
Definition lengths_never_differ : Prop :=
  forall s s', any_operation s s' -> lengths_consistent (nodes s) (nodes s').

End Further.

Arguments Returns {A} a.
Arguments Raises {A} e.

(** * A reference interpretation

    Modelled from the spec: distributions as the expressions that built
    them, with the peak position of section 4.1: a delta sits where it was
    made, [shifted_x] adds to the position, [x_rescale] multiplies it, a
    convolution adds the two positions (subtracts the kernel's under
    inverse_time), and a product with a delta operand is a delta at its
    position.  Two choices where the specification is silent: every
    branch-length interpolator peaks at 1, and a product without a delta
    operand peaks where its first operand does.  [get_date] is section 4.3's
    (intercept - t) / |slope|. *)

Module Reference.

(** The calls that build a distribution. *)
#[local] Unset Elimination Schemes.
Inductive term : Type :=
| Delta (x weight : float)
| BranchLen (node : NodeId)
| Shifted (d : option term) (dx : float)
| Rescaled (d : term) (a : float)
| Convolved (a : term) (b : option term) (inverse_time : option bool)
| Product (l : list (option term)).
#[local] Set Elimination Schemes.

(** [is_delta]: a point mass, or what shifting, rescaling, convolving or
    multiplying point masses gives. *)
Fixpoint point (d : term) : bool :=
  match d with
  | Delta _ _ => true
  | BranchLen _ => false
  | Shifted (Some d) _ => point d
  | Shifted None _ => false
  | Rescaled d _ => point d
  | Convolved a (Some b) _ => point a && point b
  | Convolved _ None _ => false
  | Product l =>
      (fix any (l : list (option term)) : bool :=
         match l with
         | [] => false
         | Some d :: l' => point d || any l'
         | None :: l' => any l'
         end) l
  end.

(** [peak_pos]. *)
Fixpoint peak (d : term) : float :=
  match d with
  | Delta x _ => x
  | BranchLen _ => 1
  | Shifted (Some d) dx => peak d + dx
  | Shifted None dx => dx
  | Rescaled d a => a * peak d
  | Convolved a b inv =>
      let pb := match b with Some b => peak b | None => 0 end in
      match inv with
      | Some true => peak a - pb
      | _ => peak a + pb
      end
  | Product l =>
      let first_point :=
        (fix go (l : list (option term)) : option float :=
           match l with
           | [] => None
           | Some d :: l' => if point d then Some (peak d) else go l'
           | None :: l' => go l'
           end) l in
      match first_point with
      | Some x => x
      | None => match l with Some d :: _ => peak d | _ => 0 end
      end
  end%float.

Record Conversion : Type := mkConversion {
  c_slope : float;
  c_intercept : float;
  c_r_val : float
}.

#[export] Instance library : Library := {|
  Dist := term;
  is_delta := point;
  peak_pos := peak;
  delta_function := Delta;
  shifted_x := Shifted;
  x_rescale := Rescaled;
  convolve := Convolved;
  multiply := Product;
  DateConversion := Conversion;
  slope := c_slope;
  intercept := c_intercept;
  r_val := c_r_val;
  get_date := fun dc t => ((c_intercept dc - t) / abs (c_slope dc))%float;
  Sequence := unit;
  GTR := unit
|}.

(** The services, for a calibration [fit] and today's date 2020.0. *)
Definition services (fit : Conversion) : Services := {|
  Kwargs := unit;
  optimize_seq_and_branch_len := fun _ self => self;
  BranchLenInterpolator := fun _ _ n _ _ => BranchLen n;
  from_tree := fun _ _ _ => fit;
  numeric_date := 2020%float;
  calendar_string := fun _ => String.EmptyString
|}.

(** The same services with an optimize_seq_and_branch_len that does to one
    branch what its name says: node 1 gets the branch length 9.  treeanc is
    not under src/; of the method only the call on line 58 is. *)
Definition reoptimizing (fit : Conversion) : Services := {|
  Kwargs := unit;
  optimize_seq_and_branch_len :=
    fun _ self => on_node self 1 (set_branch_length (Some 9%float));
  BranchLenInterpolator := fun _ _ n _ _ => BranchLen n;
  from_tree := fun _ _ _ => fit;
  numeric_date := 2020%float;
  calendar_string := fun _ => String.EmptyString
|}.

(** The same services with a constructor that looks at the nodes it is
    handed: its result is numbered 100 plus the number of nodes of the tree
    that have an interpolator attribute when it is called. *)
Definition counting (fit : Conversion) : Services := {|
  Kwargs := unit;
  optimize_seq_and_branch_len := fun _ self => self;
  BranchLenInterpolator :=
    fun t s _ _ _ =>
      BranchLen
        (100 + length (filter (fun v => hasattr (branch_length_interpolator
                                                   (s (v_node v))))
                              (find_clades Preorder t)));
  from_tree := fun _ _ _ => fit;
  numeric_date := 2020%float;
  calendar_string := fun _ => String.EmptyString
|}.

(** A node as the constructor of ClockTree leaves it, without a date. *)
Definition blank : Node :=
  mkNode (Has None) Missing Missing Missing Missing Missing Missing Missing
    Missing Missing Missing None Missing Missing Missing.

(** Node 0 is the root; 1 and 3 are dated leaves, 4 an undated leaf, 5 a
    dated leaf marked bad, 2 the parent of 3 and 4. *)
Definition topology : clade :=
  Clade 0 [Clade 1 []; Clade 2 [Clade 3 []; Clade 4 []]; Clade 5 []].

Definition sampled : store :=
  fun n =>
    match n with
    | 1 => set_numdate_given (Has (Some 2017%float)) blank
    | 3 => set_numdate_given (Has (Some 2015%float)) blank
    | 5 => mkNode (Has (Some 2016%float)) (Has true) Missing Missing Missing
             Missing Missing Missing Missing Missing Missing None Missing
             Missing Missing
    | _ => blank
    end.

Definition engine : ClockTree :=
  mkClockTree topology sampled tt 0.0009765625%float None 0%float [].

(** Two calibrations: under [fit] every node is dated before today, under
    [late] the nodes more than 4.5 units back come out after today. *)
Definition fit : Conversion := mkConversion 1 10 1.
Definition late : Conversion := mkConversion 1 4.5 1.

Definition force (r : res ClockTree) (otherwise : ClockTree) : ClockTree :=
  match r with
  | Ok e => e
  | Raise _ => otherwise
  end.

(** The attribute holds a number below [bound]. *)
Definition before (bound : float) (a : attr float) : bool :=
  match a with
  | Has x => (x <? bound)%float
  | Missing => false
  end.

Definition succeeded {A : Type} (r : res A) : bool :=
  match r with
  | Ok _ => true
  | Raise _ => false
  end.

(** The engine after each step of the pipeline. *)
Definition dated (c : Conversion) : ClockTree :=
  force (init_date_constraints (V := services c) false None tt engine) engine.

Definition upward (c : Conversion) : ClockTree :=
  force (_ml_t_leaves_root (dated c)) (dated c).

Definition downward (c : Conversion) : ClockTree :=
  force (_ml_t_root_leaves (upward c)) (upward c).

Definition finalised (c : Conversion) : ClockTree :=
  force (_set_final_dates (downward c)) (downward c).

Definition converted (c : Conversion) : ClockTree :=
  force (convert_dates (V := services c) (finalised c)) (finalised c).

(** A second engine: a root with one leaf sampled in 2019. *)
Definition pair : ClockTree :=
  mkClockTree (Clade 0 [Clade 1 []])
    (fun n => match n with
              | 1 => set_numdate_given (Has (Some 2019%float)) blank
              | _ => blank
              end)
    tt 0.0009765625%float None 0%float [].

(** A heap where the global name points to object 0 and object 1 is the
    engine make_time_tree is called on. *)
Definition objects : heap :=
  fun r =>
    match r with
    | 0 => dated fit
    | _ => force (init_date_constraints (V := services fit) false None tt pair) pair
    end.

(** The reference tree without any sampling date, after
    init_date_constraints. *)
Definition undated : ClockTree :=
  force (init_date_constraints (V := services fit) false None tt
           (mkClockTree topology (fun _ => blank) tt 0.0009765625%float None
              0%float []))
        engine.

(** An engine with the calibration [fit] whose root lies one unit back and
    whose other nodes lie infinitely far back. *)
Definition unbounded : ClockTree :=
  mkClockTree topology
    (fun n => match n with
              | 0 => set_time_before_present (Has 1%float) blank
              | _ => set_time_before_present (Has infinity) blank
              end)
    tt 0.0009765625%float (Some fit) 0%float [].

(** The engine as TreeAnc's constructor leaves it: the root has a sequence,
    node 5 is marked bad, no node has a date attribute yet. *)
Definition unborn : Node :=
  mkNode Missing Missing Missing Missing Missing Missing Missing Missing
    Missing Missing Missing None Missing Missing Missing.

Definition aligned : ClockTree :=
  mkClockTree topology
    (fun n => match n with
              | 0 => mkNode Missing Missing (Has tt) Missing Missing Missing
                       Missing Missing Missing Missing Missing None Missing
                       Missing Missing
              | 5 => mkNode Missing (Has true) Missing Missing Missing Missing
                       Missing Missing Missing Missing Missing None Missing
                       Missing Missing
              | _ => unborn
              end)
    tt 0.0009765625%float None 0%float [].

Import String.StringSyntax.
Local Open Scope string_scope.

(** The leaves are named; the internal nodes have no name. *)
Definition names : NodeId -> Name :=
  fun n => match n with
           | 1 => Some "A/1"
           | 3 => Some "A/3"
           | 4 => Some "A/4"
           | 5 => Some "A/5"
           | _ => None
           end.

(** The dates of the metadata: none for the leaf A/4. *)
Definition sampling : Dates :=
  fun name =>
    match name with
    | Some s =>
        if String.eqb s "A/1" then Some (Some 2017%float)
        else if String.eqb s "A/3" then Some (Some 2015%float)
        else if String.eqb s "A/5" then Some (Some 2016%float)
        else None
    | None => None
    end.

End Reference.

(** * Loops and traversals *)

Section Loops.

Variables (S A : Type) (body : S -> A -> res S).

(** The invariant rule of a [for] loop: [I done s] relates the elements
    already visited to the state they left behind. *)
Lemma for_each_invariant (I : list A -> S -> Prop) (all : list A) :
  (forall done a rest s,
      all = done ++ a :: rest -> I done s ->
      exists s', body s a = Ok s' /\ I (done ++ [a]) s') ->
  forall s, I [] s -> exists s', for_each body all s = Ok s' /\ I all s'.
Proof.
  intros step.
  assert (G : forall l done s, all = done ++ l -> I done s ->
                exists s', for_each body l s = Ok s' /\ I all s').
  { induction l as [|a l IH]; intros done s E H.
    - rewrite app_nil_r in E; subst done. exists s; split; [reflexivity|exact H].
    - destruct (step done a l s E H) as [s1 [B H1]].
      destruct (IH (done ++ [a]) s1) as [s' [F H']].
      + rewrite <- app_assoc; exact E.
      + exact H1.
      + exists s'; split; [simpl; rewrite B; exact F | exact H']. }
  intros s H; exact (G all [] s eq_refl H).
Qed.

(** A loop whose body keeps a preorder [R] keeps it as a whole. *)
Lemma for_each_preserves (R : S -> S -> Prop) :
  (forall s, R s s) ->
  (forall s1 s2 s3, R s1 s2 -> R s2 s3 -> R s1 s3) ->
  (forall s a s', body s a = Ok s' -> R s s') ->
  forall l s s', for_each body l s = Ok s' -> R s s'.
Proof.
  intros Rrefl Rtrans step; induction l as [|a l IH]; intros s s' H; simpl in H.
  - injection H as <-; apply Rrefl.
  - destruct (body s a) as [s1|e] eqn:B; simpl in H; [|discriminate].
    eapply Rtrans; [eapply step; exact B | eapply IH; exact H].
Qed.

End Loops.

Section Traversals.

Lemma clade_ind (P : clade -> Prop) :
  (forall n cs, Forall P cs -> P (Clade n cs)) -> forall t, P t.
Proof.
  intros H; fix rec 1; intros [n cs]; apply H.
  induction cs as [|c cs IH]; constructor; [apply rec | exact IH].
Qed.

Lemma scan_app R done l1 l2 :
  scan R done (l1 ++ l2) <-> scan R done l1 /\ scan R (done ++ l1) l2.
Proof.
  revert done; induction l1 as [|v l1 IH]; intros done; simpl.
  - rewrite app_nil_r; tauto.
  - rewrite IH, <- app_assoc; simpl; tauto.
Qed.

Lemma scan_split R l : forall done l1 v l2,
  scan R done l -> l = l1 ++ v :: l2 -> R (done ++ l1) v.
Proof.
  intros done l1 v l2 H ->. apply scan_app in H as [_ H]. exact (proj1 H).
Qed.

Lemma ids_app l1 l2 : ids (l1 ++ l2) = ids l1 ++ ids l2.
Proof. apply map_app. Qed.

Lemma in_ids v l : In v l -> In (v_node v) (ids l).
Proof. apply in_map. Qed.

Lemma scan_flat_map R (f : clade -> list visit) cs :
  Forall (fun c => forall done, In c cs -> scan R done (f c)) cs ->
  forall done, scan R done (flat_map f cs).
Proof.
  intros H done.
  assert (G : forall l, incl l cs -> forall done, scan R done (flat_map f l)).
  { induction l as [|c l IH]; intros I d; simpl; [exact Logic.I|].
    apply scan_app; split.
    - rewrite Forall_forall in H. apply H; apply I; left; reflexivity.
    - apply IH. intros x Hx; apply I; right; exact Hx. }
  apply G; apply incl_refl.
Qed.

Lemma preorder_parent_known t : forall up done,
  (forall p, up = Some p -> In p (ids done)) ->
  scan parent_known done (preorder_from up t).
Proof.
  induction t as [n cs IH] using clade_ind; intros up done Hup; simpl.
  split; [intros p Hp; apply Hup; exact Hp|].
  assert (G : forall l, incl l cs -> forall d, In n (ids d) ->
                scan parent_known d (flat_map (preorder_from (Some n)) l)).
  { induction l as [|c l IHl]; intros I d Hn; simpl; [exact Logic.I|].
    apply scan_app; split.
    - rewrite Forall_forall in IH. apply IH; [apply I; left; reflexivity|].
      intros p [= <-]; exact Hn.
    - apply IHl; [intros x Hx; apply I; right; exact Hx|].
      rewrite ids_app; apply in_or_app; left; exact Hn. }
  apply G; [apply incl_refl|].
  rewrite ids_app; apply in_or_app; right; left; reflexivity.
Qed.

Lemma postorder_last up t : In (clade_id t) (ids (postorder_from up t)).
Proof.
  destruct t as [n cs]; simpl. rewrite ids_app; apply in_or_app; right; left; reflexivity.
Qed.

Lemma postorder_children_known t : forall up done,
  scan children_known done (postorder_from up t).
Proof.
  induction t as [n cs IH] using clade_ind; intros up done; simpl.
  apply scan_app; split.
  - apply scan_flat_map. rewrite Forall_forall in *. intros c Hc d _. apply IH; exact Hc.
  - simpl; split; [|exact Logic.I]. intros c Hc; simpl in Hc.
    apply in_map_iff in Hc as [t [<- Ht]].
    rewrite ids_app; apply in_or_app; right.
    unfold ids; apply in_map_iff.
    pose proof (postorder_last (Some n) t) as Hl.
    unfold ids in Hl; apply in_map_iff in Hl as [w [Ew Hw]].
    exists w; split; [exact Ew|]. apply in_flat_map; exists t; split; assumption.
Qed.

Lemma flat_map_perm (f g : clade -> list visit) cs :
  Forall (fun c => Permutation (f c) (g c)) cs ->
  Permutation (flat_map f cs) (flat_map g cs).
Proof.
  induction 1 as [|c cs H _ IH]; simpl; [constructor|].
  apply Permutation_app; assumption.
Qed.

Lemma postorder_preorder t : forall up,
  Permutation (postorder_from up t) (preorder_from up t).
Proof.
  induction t as [n cs IH] using clade_ind; intros up; simpl.
  eapply perm_trans; [apply Permutation_sym, Permutation_cons_append|].
  constructor. apply flat_map_perm.
  rewrite Forall_forall in *; intros c Hc; apply IH; exact Hc.
Qed.

Lemma in_postorder t v :
  In v (find_clades Postorder t) <-> In v (find_clades Preorder t).
Proof.
  split; apply Permutation_in; [|apply Permutation_sym]; apply postorder_preorder.
Qed.

Lemma wf_postorder t : wf t -> NoDup (ids (find_clades Postorder t)).
Proof.
  intros H. eapply Permutation_NoDup; [|exact H].
  apply Permutation_map, Permutation_sym, postorder_preorder.
Qed.

End Traversals.

Section Stores.

Context {L : Library}.

Lemma update_same (s : store) n f : update s n f n = f (s n).
Proof. unfold update; rewrite Nat.eqb_refl; reflexivity. Qed.

Lemma update_other (s : store) n m f : m <> n -> update s n f m = s m.
Proof.
  intros H; unfold update.
  destruct (Nat.eqb_spec m n); [contradiction|reflexivity].
Qed.

End Stores.

Ltac upd :=
  repeat (simpl; rewrite ?update_same);
  rewrite ?update_other by (assumption || (apply not_eq_sym; assumption));
  simpl.

Section UpwardPass.

Context {L : Library}.

Lemma nodes_on_node_same (self : ClockTree) n f :
  nodes (on_node self n f) n = f (nodes self n).
Proof. simpl; unfold update; rewrite Nat.eqb_refl; reflexivity. Qed.

Lemma nodes_on_node_other (self : ClockTree) n m f :
  m <> n -> nodes (on_node self n f) m = nodes self m.
Proof.
  intros H; simpl; unfold update.
  destruct (Nat.eqb_spec m n); [contradiction|reflexivity].
Qed.

Lemma dict_set_fresh (d : dict) k x :
  ~ In k (map fst d) -> dict_set d k x = d ++ [(k, x)].
Proof.
  induction d as [|[k' y] d IH]; simpl; intros H; [reflexivity|].
  destruct (Nat.eqb_spec k' k) as [->|_]; [exfalso; apply H; left; reflexivity|].
  rewrite IH; [reflexivity|]. intros I; apply H; right; exact I.
Qed.

Lemma send_message_spec s c m :
  msg_to_parent (s c) = Has (Some m) ->
  hasattr (branch_length_interpolator (s c)) = true ->
  exists r, _send_message s c = Ok r /\ child_message s c = [(c, r)].
Proof.
  intros Hm Hb. unfold _send_message, child_message, the_interpolator.
  rewrite Hm; simpl.
  destruct (branch_length_interpolator (s c)) as [|b]; [discriminate|].
  destruct (is_delta m); simpl; eexists; split; reflexivity.
Qed.

Lemma collect_messages_spec s : forall cs d,
  (forall c, In c cs ->
     hasattr (msg_to_parent (s c)) = true /\
     hasattr (branch_length_interpolator (s c)) = true) ->
  NoDup cs ->
  (forall c, In c cs -> ~ In c (map fst d)) ->
  collect_messages s cs d = Ok (d ++ child_messages s cs).
Proof.
  induction cs as [|c cs IH]; intros d Hp Hn Hd; simpl.
  - rewrite app_nil_r; reflexivity.
  - destruct (Hp c (or_introl eq_refl)) as [Hm Hb].
    inversion Hn as [|? ? Hc Hn']; subst.
    assert (Hp' : forall c', In c' cs ->
              hasattr (msg_to_parent (s c')) = true /\
              hasattr (branch_length_interpolator (s c')) = true)
      by (intros c' I; apply Hp; right; exact I).
    destruct (msg_to_parent (s c)) as [|[m|]] eqn:Em; [discriminate| |]; simpl.
    + destruct (send_message_spec s c m Em Hb) as [r [Er Ec]].
      rewrite Er, Ec; simpl.
      rewrite dict_set_fresh by (apply Hd; left; reflexivity).
      rewrite IH; [rewrite <- app_assoc; reflexivity|exact Hp'|exact Hn'|].
      intros c' I K. rewrite map_app in K; apply in_app_or in K as [K|K].
      * exact (Hd c' (or_intror I) K).
      * simpl in K; destruct K as [K|[]]; subst c'; contradiction.
    + unfold child_message at 1; rewrite Em; simpl.
      apply IH; [exact Hp'|exact Hn'|]. intros c' I; apply Hd; right; exact I.
Qed.

Lemma child_messages_ext s s' cs :
  (forall c, In c cs -> s' c = s c) ->
  child_messages s' cs = child_messages s cs.
Proof.
  intros H; unfold child_messages.
  induction cs as [|c cs IH]; simpl; [reflexivity|].
  rewrite IH by (intros c' I; apply H; right; exact I).
  unfold child_message. rewrite (H c (or_introl eq_refl)); reflexivity.
Qed.

End UpwardPass.

Section TreeShape.

Lemma NoDup_app_parts (A : Type) (l1 l2 : list A) :
  NoDup (l1 ++ l2) ->
  NoDup l1 /\ NoDup l2 /\ (forall x, In x l1 -> ~ In x l2).
Proof.
  induction l1 as [|a l1 IH]; simpl; intros H.
  - repeat split; [constructor | exact H | intros x []].
  - inversion H as [|? ? Ha H']; subst. destruct (IH H') as [N1 [N2 D]].
    repeat split; [|exact N2|].
    + constructor; [|exact N1]. intros I; apply Ha; apply in_or_app; left; exact I.
    + intros x [<-|I] K; [apply Ha; apply in_or_app; right; exact K|exact (D x I K)].
Qed.

Lemma preorder_first up t : In (clade_id t) (ids (preorder_from up t)).
Proof. destruct t as [n cs]; simpl; left; reflexivity. Qed.

Lemma heads_nodup up cs :
  NoDup (ids (flat_map (preorder_from up) cs)) -> NoDup (map clade_id cs).
Proof.
  induction cs as [|c cs IH]; simpl; intros H; [constructor|].
  rewrite ids_app in H. apply NoDup_app_parts in H as [_ [N2 D]].
  constructor; [|apply IH; exact N2].
  intros I. apply in_map_iff in I as [c' [E I]].
  apply (D (clade_id c)); [apply preorder_first|].
  unfold ids; rewrite flat_map_concat_map, concat_map, map_map.
  apply in_concat. exists (ids (preorder_from up c')); split.
  - apply in_map_iff; exists c'; split; [reflexivity|exact I].
  - rewrite <- E; apply preorder_first.
Qed.

Lemma part_nodup up cs c :
  NoDup (ids (flat_map (preorder_from up) cs)) -> In c cs ->
  NoDup (ids (preorder_from up c)).
Proof.
  induction cs as [|c' cs IH]; simpl; intros H I; [contradiction|].
  rewrite ids_app in H. apply NoDup_app_parts in H as [N1 [N2 _]].
  destruct I as [->|I]; [exact N1|apply IH; assumption].
Qed.

Lemma clades_nodup t : forall up,
  NoDup (ids (preorder_from up t)) ->
  forall v, In v (preorder_from up t) -> NoDup (v_clades v).
Proof.
  induction t as [n cs IH] using clade_ind; intros up H v I; simpl in *.
  inversion H as [|? ? _ H']; subst.
  destruct I as [<-|I]; simpl.
  - eapply heads_nodup; exact H'.
  - apply in_flat_map in I as [c [Hc I]].
    rewrite Forall_forall in IH.
    eapply IH; [exact Hc| |exact I]. eapply part_nodup; eassumption.
Qed.

Lemma wf_clades t v : wf t -> In v (find_clades Preorder t) -> NoDup (v_clades v).
Proof. intros H I; eapply clades_nodup; eassumption. Qed.

Lemma children_before t done a rest :
  find_clades Postorder t = done ++ a :: rest ->
  forall c, In c (v_clades a) -> In c (ids done).
Proof.
  intros E. exact (scan_split _ _ [] done a rest (postorder_children_known t None []) E).
Qed.

Lemma parent_before t done a rest p :
  find_clades Preorder t = done ++ a :: rest ->
  v_up a = Some p -> In p (ids done).
Proof.
  intros E.
  assert (S : scan parent_known [] (preorder_from None t))
    by (apply preorder_parent_known; intros q [=]).
  exact (scan_split _ _ [] done a rest S E p).
Qed.

Lemma split_fresh (all done : list visit) a rest :
  NoDup (ids all) -> all = done ++ a :: rest ->
  ~ In (v_node a) (ids done) /\ ~ In (v_node a) (ids rest).
Proof.
  intros N ->. rewrite ids_app in N. simpl in N.
  apply NoDup_app_parts in N as [_ [N D]]. inversion N; subst.
  split; [|assumption]. intros I; apply (D _ I); left; reflexivity.
Qed.

Lemma earlier_split (all done : list visit) a rest v :
  all = done ++ a :: rest -> In v done ->
  exists d1 d2, all = d1 ++ v :: d2 /\ incl (ids d1) (ids done).
Proof.
  intros -> I. apply in_split in I as [d1 [d2 ->]].
  exists d1, (d2 ++ a :: rest); split.
  - rewrite <- app_assoc; reflexivity.
  - rewrite ids_app; apply incl_appl, incl_refl.
Qed.

End TreeShape.

Section UpwardPassProof.

Context {L : Library}.

Lemma upward_post_ext before before' after after' v :
  before' (v_node v) = before (v_node v) ->
  after' (v_node v) = after (v_node v) ->
  (forall c, In c (v_clades v) -> after' c = after c) ->
  upward_post before after v -> upward_post before' after' v.
Proof.
  intros Hb Ha Hc. unfold upward_post, upward_leaf_rule, upward_rule.
  rewrite Hb, Ha, (child_messages_ext after after' (v_clades v) Hc).
  tauto.
Qed.

Lemma leaves_root_node_spec (self : ClockTree) (a : visit) :
  NoDup (v_clades a) ->
  ~ In (v_node a) (v_clades a) ->
  (forall c, In c (v_clades a) ->
     hasattr (msg_to_parent (nodes self c)) = true /\
     hasattr (branch_length_interpolator (nodes self c)) = true) ->
  exists self', leaves_root_node self a = Ok self' /\
    tree self' = tree self /\
    (forall m, m <> v_node a -> nodes self' m = nodes self m) /\
    branch_length_interpolator (nodes self' (v_node a)) =
      branch_length_interpolator (nodes self (v_node a)) /\
    (hasattr (msg_to_parent (nodes self (v_node a))) = true ->
     hasattr (msg_to_parent (nodes self' (v_node a))) = true) /\
    upward_post (nodes self) (nodes self') a.
Proof.
  intros Nd Hself Hp. unfold leaves_root_node, upward_post.
  destruct (is_terminal a) eqn:T.
  - eexists; split; [reflexivity|].
    split; [reflexivity|]. split; [intros m Hm; apply nodes_on_node_other; exact Hm|].
    unfold upward_leaf_rule. upd. repeat split; auto.
  - rewrite collect_messages_spec; [|exact Hp|exact Nd|intros c _ []].
    simpl app. cbv beta iota delta [bind].
    set (d := child_messages (nodes self) (v_clades a)).
    set (self1 := on_node self (v_node a) (set_msgs_from_leaves (Has d))).
    assert (E1 : msgs_from_leaves (nodes self1 (v_node a)) = Has d)
      by (unfold self1; rewrite nodes_on_node_same; reflexivity).
    rewrite E1; simpl getattr; cbv beta iota.
    assert (Hd : forall s', (forall m, m <> v_node a -> nodes s' m = nodes self m) ->
                 child_messages (nodes s') (v_clades a) = d).
    { intros s' F. apply child_messages_ext. intros c I. apply F.
      intros ->; contradiction. }
    destruct d as [|kv d'] eqn:Ed.
    + simpl. exists self1. split; [reflexivity|]. split; [reflexivity|].
      assert (F1 : forall m, m <> v_node a -> nodes self1 m = nodes self m)
        by (intros m Hm; unfold self1; apply nodes_on_node_other; exact Hm).
      split; [exact F1|].
      split; [unfold self1; upd; reflexivity|].
      split; [unfold self1; upd; auto|].
      unfold upward_rule. rewrite (Hd self1 F1), E1.
      split; [reflexivity|].
      split; [intros _; unfold self1; upd; reflexivity|intros C; contradiction].
    + simpl.
      set (self2 := on_node self1 (v_node a) _).
      exists self2. split; [reflexivity|]. split; [reflexivity|].
      assert (F2 : forall m, m <> v_node a -> nodes self2 m = nodes self m)
        by (intros m Hm; unfold self2, self1; upd; reflexivity).
      split; [exact F2|].
      split; [unfold self2, self1; upd; reflexivity|].
      split; [intros _; unfold self2; upd; reflexivity|].
      unfold upward_rule. rewrite (Hd self2 F2).
      split; [unfold self2, self1; upd; reflexivity|].
      split; [intros C; discriminate|intros _; unfold self2; upd; reflexivity].
Qed.

Lemma upward_pass_spec (self : ClockTree) :
  wf (tree self) ->
  children_ready (tree self) (nodes self) ->
  exists self', _ml_t_leaves_root self = Ok self' /\
    tree self' = tree self /\
    forall v, In v (find_clades Postorder (tree self)) ->
      upward_post (nodes self) (nodes self') v.
Proof.
  intros W R. unfold _ml_t_leaves_root.
  set (self0 := logger (logger self MLOptimization 1 false) PropagatingLeavesRoot 2 false).
  change (tree self0) with (tree self).
  pose (I := fun (done : list visit) (s : ClockTree) =>
    tree s = tree self /\
    (forall n, ~ In n (ids done) -> nodes s n = nodes self n) /\
    (forall n, branch_length_interpolator (nodes s n)
               = branch_length_interpolator (nodes self n)) /\
    (forall n, hasattr (msg_to_parent (nodes self n)) = true ->
               hasattr (msg_to_parent (nodes s n)) = true) /\
    (forall v, In v done -> upward_post (nodes self) (nodes s) v)).
  assert (Step : forall done a rest s,
             find_clades Postorder (tree self) = done ++ a :: rest ->
             I done s ->
             exists s', leaves_root_node s a = Ok s' /\ I (done ++ [a]) s').
  { intros done a rest s E (Ht & Hf & Hb & Hm & Hp).
    pose proof (wf_postorder _ W) as N.
    destruct (split_fresh _ _ _ _ N E) as [Fa _].
    pose proof (children_before _ _ _ _ E) as Cb.
    assert (Ia : In a (find_clades Preorder (tree self))).
    { apply in_postorder. rewrite E. apply in_or_app; right; left; reflexivity. }
    assert (Ca : ~ In (v_node a) (v_clades a)).
    { intros C; apply Fa, Cb, C. }
    destruct (leaves_root_node_spec s a) as [s' (B & Ht' & Hf' & Hb' & Hm' & Hp')].
    + eapply wf_clades; eassumption.
    + exact Ca.
    + intros c Ic. destruct (R a c Ia Ic) as [R1 R2]. split.
      * apply Hm; exact R1.
      * rewrite Hb; exact R2.
    + exists s'; split; [exact B|]. unfold I.
      split; [congruence|].
      split.
      { intros n Hn. rewrite ids_app in Hn.
        rewrite Hf'; [apply Hf|].
        - intros K; apply Hn; apply in_or_app; left; exact K.
        - intros ->; apply Hn; apply in_or_app; right; left; reflexivity. }
      split.
      { intros n. destruct (Nat.eq_dec n (v_node a)) as [->|D].
        - rewrite Hb'; apply Hb.
        - rewrite Hf' by exact D; apply Hb. }
      split.
      { intros n Hn. destruct (Nat.eq_dec n (v_node a)) as [->|D].
        - apply Hm', Hm, Hn.
        - rewrite Hf' by exact D; apply Hm, Hn. }
      intros v Iv. apply in_app_or in Iv as [Iv|[<-|[]]].
      * destruct (earlier_split _ _ _ _ v E Iv) as [d1 [d2 [E2 Inc]]].
        pose proof (children_before _ _ _ _ E2) as Cv.
        apply (upward_post_ext (nodes self) (nodes self) (nodes s) (nodes s'));
          [reflexivity| | |].
        -- apply Hf'. intros K; apply Fa; rewrite <- K; apply in_ids; exact Iv.
        -- intros c Ic. apply Hf'. intros K; apply Fa; rewrite <- K.
           apply Inc, Cv, Ic.
        -- apply Hp; exact Iv.
      * apply (upward_post_ext (nodes s) (nodes self) (nodes s') (nodes s'));
          [symmetry; apply Hf; exact Fa|reflexivity|reflexivity|exact Hp']. }
  destruct (for_each_invariant _ _ _ I _ Step self0) as [self' [E [Ht [_ [_ [_ P]]]]]].
  - unfold I; simpl. repeat split; auto. intros v [].
  - exists self'; repeat split; assumption.
Qed.

End UpwardPassProof.

Section DownwardPassProof.

Context {L : Library}.

Lemma downward_rule_ext flag s s' v :
  s' (v_node v) = s (v_node v) ->
  (forall p, v_up v = Some p -> s' p = s p) ->
  downward_rule flag s v -> downward_rule flag s' v.
Proof.
  intros Hv Hp. unfold downward_rule. rewrite Hv.
  destruct (v_up v) as [p|]; [|tauto].
  rewrite (Hp p eq_refl); tauto.
Qed.

Lemma root_leaves_node_spec (self : ClockTree) (a : visit) :
  (forall p, v_up a = Some p ->
     p <> v_node a /\
     hasattr (msgs_from_leaves (nodes self p)) = true /\
     hasattr (msg_from_parent (nodes self p)) = true /\
     hasattr (branch_length_interpolator (nodes self (v_node a))) = true) ->
  exists self', root_leaves_node self a = Ok self' /\
    tree self' = tree self /\ out self' = out self /\
    (forall m, m <> v_node a -> nodes self' m = nodes self m) /\
    forget_downward (nodes self' (v_node a)) = forget_downward (nodes self (v_node a)) /\
    downward_rule false (nodes self') a.
Proof.
  intros H. unfold root_leaves_node, downward_rule.
  destruct (v_up a) as [p|].
  - destruct (H p eq_refl) as (Np & Hd & Hm & Hb).
    destruct (msgs_from_leaves (nodes self p)) as [|d] eqn:Ed; [discriminate|].
    destruct (msg_from_parent (nodes self p)) as [|pm] eqn:Em; [discriminate|].
    destruct (branch_length_interpolator (nodes self (v_node a))) as [|b] eqn:Eb;
      [discriminate|].
    simpl. eexists; split; [reflexivity|].
    split; [reflexivity|]. split; [reflexivity|].
    split; [intros m Dm; upd; reflexivity|].
    split; [upd; reflexivity|].
    exists d, pm. upd. rewrite Ed, Em.
    split; [reflexivity|]. split; [reflexivity|].
    unfold the_interpolator, complementary_messages. upd; rewrite Eb.
    destruct pm; rewrite ?app_nil_r; reflexivity.
  - eexists; split; [reflexivity|].
    split; [reflexivity|]. split; [reflexivity|].
    split; [intros m Dm; upd; reflexivity|].
    split; upd; reflexivity.
Qed.

Lemma downward_rule_has flag s v :
  downward_rule flag s v -> hasattr (msg_from_parent (s (v_node v))) = true.
Proof.
  unfold downward_rule. destruct (v_up v).
  - intros (d & pm & _ & _ & ->); reflexivity.
  - intros ->; reflexivity.
Qed.

Lemma downward_pass_spec (self : ClockTree) :
  wf (tree self) ->
  parents_ready (tree self) (nodes self) ->
  exists self', _ml_t_root_leaves self = Ok self' /\
    tree self' = tree self /\
    out self' = out self ++ [Logged PropagatingRootLeaves 2 false] /\
    (forall n, forget_downward (nodes self' n) = forget_downward (nodes self n)) /\
    forall v, In v (find_clades Preorder (tree self)) ->
      downward_rule false (nodes self') v.
Proof.
  intros W R. unfold _ml_t_root_leaves.
  set (self0 := logger self PropagatingRootLeaves 2 false).
  change (tree self0) with (tree self).
  pose (I := fun (done : list visit) (s : ClockTree) =>
    tree s = tree self /\ out s = out self0 /\
    (forall n, forget_downward (nodes s n) = forget_downward (nodes self n)) /\
    (forall v, In v done -> downward_rule false (nodes s) v)).
  assert (Step : forall done a rest s,
             find_clades Preorder (tree self) = done ++ a :: rest ->
             I done s ->
             exists s', root_leaves_node s a = Ok s' /\ I (done ++ [a]) s').
  { intros done a rest s E (Ht & Ho & Hf & Hp).
    destruct (split_fresh _ _ _ _ W E) as [Fa _].
    assert (Ia : In a (find_clades Preorder (tree self))).
    { rewrite E. apply in_or_app; right; left; reflexivity. }
    destruct (root_leaves_node_spec s a) as [s' (B & Ht' & Ho' & Hf' & Hg' & Hp')].
    { intros p Ep. pose proof (parent_before _ _ _ _ p E Ep) as Ip.
      destruct (R a p Ia Ep) as [R1 R2].
      split; [intros ->; contradiction|].
      split; [|split].
      - pose proof (f_equal msgs_from_leaves (Hf p)) as K; simpl in K.
        rewrite K; exact R1.
      - unfold ids in Ip; apply in_map_iff in Ip as [w [<- Iw]].
        eapply downward_rule_has, Hp, Iw.
      - pose proof (f_equal branch_length_interpolator (Hf (v_node a))) as K;
          simpl in K.
        rewrite K; exact R2. }
    exists s'; split; [exact B|]. unfold I.
    split; [congruence|]. split; [congruence|].
    split.
    { intros n. destruct (Nat.eq_dec n (v_node a)) as [->|D].
      - rewrite Hg'; apply Hf.
      - rewrite Hf' by exact D; apply Hf. }
    intros v Iv. apply in_app_or in Iv as [Iv|[<-|[]]]; [|exact Hp'].
    destruct (earlier_split _ _ _ _ v E Iv) as [d1 [d2 [E2 Inc]]].
    apply (downward_rule_ext false (nodes s)).
    - apply Hf'. intros K; apply Fa; rewrite <- K; apply in_ids; exact Iv.
    - intros p Ep. apply Hf'. intros K; apply Fa; rewrite <- K.
      apply Inc. exact (parent_before _ _ _ _ p E2 Ep).
    - apply Hp; exact Iv. }
  destruct (for_each_invariant _ _ _ I _ Step self0) as [self' [E [Ht [Ho [Hf P]]]]].
  - unfold I; simpl. repeat split; auto. intros v [].
  - exists self'; repeat split; assumption.
Qed.

End DownwardPassProof.

Section FinalDatesProof.

Context {L : Library}.

Lemma final_rule_ext om before before' after after' v :
  before' (v_node v) = before (v_node v) ->
  after' (v_node v) = after (v_node v) ->
  (forall p, v_up v = Some p -> after' p = after p) ->
  final_rule om before after v -> final_rule om before' after' v.
Proof.
  intros Hb Ha Hp. unfold final_rule. rewrite Hb, Ha.
  destruct (v_up v) as [p|]; [|tauto].
  rewrite (Hp p eq_refl); tauto.
Qed.

Lemma final_rule_has om before after v :
  final_rule om before after v ->
  hasattr (time_before_present (after (v_node v))) = true.
Proof.
  unfold final_rule. destruct (v_up v).
  - intros (tp & _ & _ & _ & -> & _); reflexivity.
  - intros (m & _ & _ & _ & -> & _); reflexivity.
Qed.

Lemma final_dates_node_spec (self : ClockTree) (a : visit) :
  match v_up a with
  | None => exists m, msg_to_parent (nodes self (v_node a)) = Has (Some m)
  | Some p =>
      p <> v_node a /\
      hasattr (time_before_present (nodes self p)) = true /\
      hasattr (msg_from_parent (nodes self (v_node a))) = true /\
      hasattr (msg_to_parent (nodes self (v_node a))) = true /\
      hasattr (branch_length_interpolator (nodes self (v_node a))) = true
  end ->
  exists self', final_dates_node self a = Ok self' /\
    tree self' = tree self /\ out self' = out self /\
    one_mutation self' = one_mutation self /\
    (forall m, m <> v_node a -> nodes self' m = nodes self m) /\
    forget_final (nodes self' (v_node a)) = forget_final (nodes self (v_node a)) /\
    final_rule (one_mutation self) (nodes self) (nodes self') a.
Proof.
  unfold final_dates_node, final_rule.
  destruct (v_up a) as [p|].
  - intros (Np & Ht & Hf & Hm & Hb).
    destruct (time_before_present (nodes self p)) as [|tp] eqn:Et; [discriminate|].
    destruct (msg_from_parent (nodes self (v_node a))) as [|mf] eqn:Ef; [discriminate|].
    destruct (msg_to_parent (nodes self (v_node a))) as [|mt] eqn:Em; [discriminate|].
    destruct (branch_length_interpolator (nodes self (v_node a))) as [|b] eqn:Eb;
      [discriminate|].
    assert (J : joint_posterior (nodes self (v_node a)) tp =
                match mt with
                | Some m => multiply [Some m; Some (x_rescale (shifted_x b (- tp)) (-1))]
                | None => x_rescale (shifted_x b (- tp)) (-1)
                end).
    { unfold joint_posterior, transformed_interpolator, the_interpolator.
      rewrite Em, Eb. destruct mt; reflexivity. }
    destruct mt as [m|].
    + repeat (progress (upd; rewrite ?Et, ?Em, ?Eb, ?Ef; simpl)).
      destruct (is_delta (multiply _));
        repeat (progress (upd; rewrite ?Et, ?Em, ?Eb, ?Ef; simpl));
        (eexists; split; [reflexivity|]);
        (split; [reflexivity|]); (split; [reflexivity|]); (split; [reflexivity|]);
        (split; [intros k Dk; upd; reflexivity|]);
        (split; [upd; reflexivity|]);
        exists tp; upd; rewrite Et, J; repeat split; reflexivity.
    + repeat (progress (upd; rewrite ?Et, ?Em, ?Eb, ?Ef; simpl)).
      destruct (is_delta (x_rescale _ _));
        repeat (progress (upd; rewrite ?Et, ?Em, ?Eb, ?Ef; simpl));
        (eexists; split; [reflexivity|]);
        (split; [reflexivity|]); (split; [reflexivity|]); (split; [reflexivity|]);
        (split; [intros k Dk; upd; reflexivity|]);
        (split; [upd; reflexivity|]);
        exists tp; upd; rewrite Et, J; repeat split; reflexivity.
  - intros [m Em].
    repeat (progress (upd; rewrite ?Em; simpl)).
    destruct (is_delta m);
      repeat (progress (upd; rewrite ?Em; simpl));
      (eexists; split; [reflexivity|]);
      (split; [reflexivity|]); (split; [reflexivity|]); (split; [reflexivity|]);
      (split; [intros k Dk; upd; reflexivity|]);
      (split; [upd; reflexivity|]);
      exists m; upd; repeat split; reflexivity.
Qed.

Lemma final_dates_spec (self : ClockTree) :
  wf (tree self) ->
  final_ready (tree self) (nodes self) ->
  exists self', _set_final_dates self = Ok self' /\
    tree self' = tree self /\
    out self' = out self ++ [Logged SettingDates 2 false] /\
    (forall n, forget_final (nodes self' n) = forget_final (nodes self n)) /\
    forall v, In v (find_clades Preorder (tree self)) ->
      final_rule (one_mutation self) (nodes self) (nodes self') v.
Proof.
  intros W R. unfold _set_final_dates.
  set (self0 := logger self SettingDates 2 false).
  change (tree self0) with (tree self).
  pose (I := fun (done : list visit) (s : ClockTree) =>
    tree s = tree self /\ out s = out self0 /\
    one_mutation s = one_mutation self /\
    (forall n, ~ In n (ids done) -> nodes s n = nodes self n) /\
    (forall n, forget_final (nodes s n) = forget_final (nodes self n)) /\
    (forall v, In v done -> final_rule (one_mutation self) (nodes self) (nodes s) v)).
  assert (Step : forall done a rest s,
             find_clades Preorder (tree self) = done ++ a :: rest ->
             I done s ->
             exists s', final_dates_node s a = Ok s' /\ I (done ++ [a]) s').
  { intros done a rest s E (Ht & Ho & Hom & Hu & Hf & Hp).
    destruct (split_fresh _ _ _ _ W E) as [Fa _].
    assert (Ia : In a (find_clades Preorder (tree self))).
    { rewrite E. apply in_or_app; right; left; reflexivity. }
    destruct (final_dates_node_spec s a) as [s' (B & Ht' & Ho' & Hom' & Hf' & Hg' & Hp')].
    { pose proof (R a Ia) as Ra. rewrite (Hu _ Fa).
      destruct (v_up a) as [p|] eqn:Ep; [|exact Ra].
      pose proof (parent_before _ _ _ _ p E Ep) as Ip.
      split; [intros ->; contradiction|].
      split; [|exact Ra].
      unfold ids in Ip; apply in_map_iff in Ip as [w [<- Iw]].
      eapply final_rule_has, Hp, Iw. }
    exists s'; split; [exact B|]. unfold I.
    split; [congruence|]. split; [congruence|]. split; [congruence|].
    split.
    { intros n Hn. rewrite ids_app in Hn.
      rewrite Hf'; [apply Hu|].
      - intros K; apply Hn; apply in_or_app; left; exact K.
      - intros ->; apply Hn; apply in_or_app; right; left; reflexivity. }
    split.
    { intros n. destruct (Nat.eq_dec n (v_node a)) as [->|D].
      - rewrite Hg'; apply Hf.
      - rewrite Hf' by exact D; apply Hf. }
    intros v Iv. apply in_app_or in Iv as [Iv|[<-|[]]].
    - destruct (earlier_split _ _ _ _ v E Iv) as [d1 [d2 [E2 Inc]]].
      apply (final_rule_ext _ (nodes self) (nodes self) (nodes s) (nodes s'));
        [reflexivity| | |].
      + apply Hf'. intros K; apply Fa; rewrite <- K; apply in_ids; exact Iv.
      + intros p Ep. apply Hf'. intros K; apply Fa; rewrite <- K.
        apply Inc. exact (parent_before _ _ _ _ p E2 Ep).
      + apply Hp; exact Iv.
    - rewrite <- Hom.
      apply (final_rule_ext _ (nodes s) (nodes self) (nodes s') (nodes s'));
        [symmetry; apply Hu; exact Fa|reflexivity|reflexivity|exact Hp']. }
  destruct (for_each_invariant _ _ _ I _ Step self0)
    as [self' [E [Ht [Ho [_ [_ [Hf P]]]]]]].
  - unfold I; simpl. repeat split; auto. intros v [].
  - exists self'; repeat split; assumption.
Qed.

End FinalDatesProof.

Section ConvertDatesProof.

Context {L : Library} {V : Services}.

Lemma convert_node_spec (self : ClockTree) (dc : DateConversion) (a : visit) x :
  _date2dist self = Some dc ->
  time_before_present (nodes self (v_node a)) = Has x ->
  is_nan (numeric_date - get_date dc x)%float = false ->
  is_infinity (numeric_date - get_date dc x)%float = false ->
  exists self', convert_node numeric_date self a = Ok self' /\
    tree self' = tree self /\ _date2dist self' = Some dc /\
    out self' = out self ++ date_events dc (nodes self) a /\
    (forall m, m <> v_node a -> nodes self' m = nodes self m) /\
    forget_convert (nodes self' (v_node a)) = forget_convert (nodes self (v_node a)) /\
    convert_rule dc (nodes self) (nodes self') a.
Proof.
  intros Ed Et Hn Hi. unfold convert_node, date2dist, date_events, convert_rule, int_check.
  rewrite Ed, Et. simpl.
  assert (B : negb (hasattr (bad_branch (nodes self (v_node a))))
              || match bad_branch (nodes self (v_node a)) with
                 | Has false => true
                 | _ => false
                 end = negb (marked_bad (nodes self (v_node a)))).
  { unfold marked_bad. destruct (bad_branch (nodes self (v_node a))) as [|[|]]; reflexivity. }
  rewrite B.
  destruct (get_date dc x <? 0)%float; destruct (marked_bad (nodes self (v_node a)));
    upd; rewrite Hn, Hi; simpl;
    (eexists; split; [reflexivity|]);
    (split; [reflexivity|]); (split; [exact Ed|]);
    (split; [simpl; rewrite ?app_nil_r; reflexivity|]);
    (split; [intros k Dk; upd; reflexivity|]);
    (split; [upd; reflexivity|]);
    exists x; upd; repeat split; reflexivity.
Qed.

Lemma date_events_ext dc s s' v :
  forget_convert (s' (v_node v)) = forget_convert (s (v_node v)) ->
  date_events dc s' v = date_events dc s v.
Proof.
  intros H. unfold date_events, marked_bad.
  pose proof (f_equal time_before_present H) as H1; simpl in H1.
  pose proof (f_equal bad_branch H) as H2; simpl in H2.
  rewrite H1, H2; reflexivity.
Qed.

Lemma convert_dates_spec (self : ClockTree) (dc : DateConversion) :
  wf (tree self) ->
  _date2dist self = Some dc ->
  convert_ready dc (tree self) (nodes self) ->
  exists self', convert_dates self = Ok self' /\
    tree self' = tree self /\
    out self' =
      out self ++ flat_map (date_events dc (nodes self)) (find_clades Preorder (tree self)) /\
    (forall n, forget_convert (nodes self' n) = forget_convert (nodes self n)) /\
    forall v, In v (find_clades Preorder (tree self)) ->
      convert_rule dc (nodes self) (nodes self') v.
Proof.
  intros W Ed R. unfold convert_dates.
  pose (I := fun (done : list visit) (s : ClockTree) =>
    tree s = tree self /\ _date2dist s = Some dc /\
    out s = out self ++ flat_map (date_events dc (nodes self)) done /\
    (forall n, ~ In n (ids done) -> nodes s n = nodes self n) /\
    (forall n, forget_convert (nodes s n) = forget_convert (nodes self n)) /\
    (forall v, In v done -> convert_rule dc (nodes self) (nodes s) v)).
  assert (Step : forall done a rest s,
             find_clades Preorder (tree self) = done ++ a :: rest ->
             I done s ->
             exists s', convert_node numeric_date s a = Ok s' /\ I (done ++ [a]) s').
  { intros done a rest s E (Ht & Hd & Ho & Hu & Hf & Hp).
    destruct (split_fresh _ _ _ _ W E) as [Fa _].
    assert (Ia : In a (find_clades Preorder (tree self))).
    { rewrite E. apply in_or_app; right; left; reflexivity. }
    destruct (R a Ia) as (x & Ex & Hn & Hi).
    destruct (convert_node_spec s dc a x) as [s' (B & Ht' & Hd' & Ho' & Hf' & Hg' & Hp')];
      [exact Hd|rewrite (Hu _ Fa); exact Ex|exact Hn|exact Hi|].
    exists s'; split; [exact B|]. unfold I.
    split; [congruence|]. split; [congruence|].
    split.
    { rewrite Ho', Ho, flat_map_app, <- app_assoc. simpl. rewrite app_nil_r.
      rewrite (date_events_ext dc (nodes self) (nodes s) a (Hf _)). reflexivity. }
    split.
    { intros n Hn'. rewrite ids_app in Hn'.
      rewrite Hf'; [apply Hu|].
      - intros K; apply Hn'; apply in_or_app; left; exact K.
      - intros ->; apply Hn'; apply in_or_app; right; left; reflexivity. }
    split.
    { intros n. destruct (Nat.eq_dec n (v_node a)) as [->|D].
      - rewrite Hg'; apply Hf.
      - rewrite Hf' by exact D; apply Hf. }
    intros v Iv. apply in_app_or in Iv as [Iv|[<-|[]]].
    - destruct (Hp v Iv) as (t & E1 & E2 & E3).
      assert (Dv : v_node v <> v_node a).
      { intros K; apply Fa; rewrite <- K; apply in_ids; exact Iv. }
      exists t. rewrite (Hf' _ Dv). repeat split; assumption.
    - destruct Hp' as (t & E1 & E2 & E3). exists t.
      rewrite <- (Hu _ Fa). repeat split; assumption. }
  destruct (for_each_invariant _ _ _ I _ Step self)
    as [self' [E [Ht [_ [Ho [_ [Hf P]]]]]]].
  - unfold I; simpl. rewrite app_nil_r. repeat split; auto. intros v [].
  - exists self'; repeat split; assumption.
Qed.

End ConvertDatesProof.

Section InitProof.

Context {L : Library} {V : Services}.

Lemma init_interpolators_spec (self : ClockTree) :
  exists self',
    for_each init_interpolator (find_clades Preorder (tree self)) self = Ok self' /\
    tree self' = tree self /\ out self' = out self /\
    (forall n, forget_interpolator (nodes self' n) = forget_interpolator (nodes self n)) /\
    forall v, In v (find_clades Preorder (tree self)) ->
      hasattr (branch_length_interpolator (nodes self' (v_node v))) = true.
Proof.
  pose (I := fun (done : list visit) (s : ClockTree) =>
    tree s = tree self /\ out s = out self /\
    (forall n, forget_interpolator (nodes s n) = forget_interpolator (nodes self n)) /\
    (forall v, In v done ->
       hasattr (branch_length_interpolator (nodes s (v_node v))) = true)).
  assert (Step : forall done a rest s,
             find_clades Preorder (tree self) = done ++ a :: rest ->
             I done s ->
             exists s', init_interpolator s a = Ok s' /\ I (done ++ [a]) s').
  { intros done a rest s _ (Ht & Ho & Hf & Hp).
    assert (G : forall x, I (done ++ [a])
                  (on_node s (v_node a) (set_branch_length_interpolator (Has x)))).
    { intros x. unfold I. split; [exact Ht|]. split; [exact Ho|]. split.
      - intros n. rewrite <- Hf. simpl; unfold update.
        destruct (Nat.eqb n (v_node a)); reflexivity.
      - intros v Iv. simpl; unfold update.
        destruct (Nat.eqb (v_node v) (v_node a)) eqn:K; [reflexivity|].
        apply in_app_or in Iv as [Iv|[<-|[]]]; [apply Hp; exact Iv|].
        rewrite Nat.eqb_refl in K; discriminate. }
    unfold init_interpolator.
    destruct (v_up a); eexists; (split; [reflexivity|apply G]). }
  destruct (for_each_invariant _ _ _ I _ Step self) as [self' [E [Ht [Ho [Hf P]]]]].
  - unfold I; repeat split; auto; intros v [].
  - exists self'; repeat split; assumption.
Qed.

Lemma init_constraint_spec (self : ClockTree) (dc : DateConversion) (a : visit) :
  _date2dist self = Some dc ->
  exists self', init_constraint self a = Ok self' /\
    tree self' = tree self /\ _date2dist self' = Some dc /\
    max_diam self' = max_diam self /\
    out self' = out self ++ demotions (nodes self) a /\
    (forall m, m <> v_node a -> nodes self' m = nodes self m) /\
    forget_constraints (nodes self' (v_node a)) =
      forget_constraints (nodes self (v_node a)) /\
    constraint_rule dc (nodes self) (nodes self') a.
Proof.
  intros Ed. unfold init_constraint, constraint_rule, constrained, demotions,
    demoted, marked_bad, date2dist.
  rewrite Ed.
  destruct (numdate_given (nodes self (v_node a))) as [|[given|]] eqn:Eg;
    [| destruct (bad_branch (nodes self (v_node a))) as [|[|]] eqn:Eb |];
    simpl;
    (eexists; split; [reflexivity|]);
    (split; [reflexivity|]); (split; [exact Ed|]); (split; [reflexivity|]);
    (split; [simpl; rewrite ?app_nil_r; reflexivity|]);
    (split; [intros k Dk; upd; reflexivity|]);
    (split; [upd; reflexivity|]);
    upd; rewrite ?Eg; repeat split; reflexivity.
Qed.

Lemma constraint_rule_ext dc before before' after after' v :
  forget_interpolator (before' (v_node v)) = forget_interpolator (before (v_node v)) ->
  after' (v_node v) = after (v_node v) ->
  constraint_rule dc before after v -> constraint_rule dc before' after' v.
Proof.
  intros Hb Ha. unfold constraint_rule, constrained, marked_bad. rewrite Ha.
  pose proof (f_equal numdate_given Hb) as H1; simpl in H1.
  pose proof (f_equal bad_branch Hb) as H2; simpl in H2.
  rewrite H1, H2. tauto.
Qed.

Lemma demotions_ext s s' v :
  forget_interpolator (s' (v_node v)) = forget_interpolator (s (v_node v)) ->
  demotions s' v = demotions s v.
Proof.
  intros Hb. unfold demotions, demoted, marked_bad.
  pose proof (f_equal numdate_given Hb) as H1; simpl in H1.
  pose proof (f_equal bad_branch Hb) as H2; simpl in H2.
  rewrite H1, H2. reflexivity.
Qed.

Lemma init_constraints_spec (self : ClockTree) (dc : DateConversion) :
  wf (tree self) ->
  _date2dist self = Some dc ->
  exists self',
    for_each init_constraint (find_clades Preorder (tree self)) self = Ok self' /\
    tree self' = tree self /\ _date2dist self' = Some dc /\
    max_diam self' = max_diam self /\
    out self' =
      out self ++ flat_map (demotions (nodes self)) (find_clades Preorder (tree self)) /\
    (forall n, forget_constraints (nodes self' n) = forget_constraints (nodes self n)) /\
    forall v, In v (find_clades Preorder (tree self)) ->
      constraint_rule dc (nodes self) (nodes self') v.
Proof.
  intros W Ed.
  pose (I := fun (done : list visit) (s : ClockTree) =>
    tree s = tree self /\ _date2dist s = Some dc /\ max_diam s = max_diam self /\
    out s = out self ++ flat_map (demotions (nodes self)) done /\
    (forall n, ~ In n (ids done) -> nodes s n = nodes self n) /\
    (forall n, forget_constraints (nodes s n) = forget_constraints (nodes self n)) /\
    (forall v, In v done -> constraint_rule dc (nodes self) (nodes s) v)).
  assert (Step : forall done a rest s,
             find_clades Preorder (tree self) = done ++ a :: rest ->
             I done s ->
             exists s', init_constraint s a = Ok s' /\ I (done ++ [a]) s').
  { intros done a rest s E (Ht & Hd & Hx & Ho & Hu & Hf & Hp).
    destruct (split_fresh _ _ _ _ W E) as [Fa _].
    destruct (init_constraint_spec s dc a Hd)
      as [s' (B & Ht' & Hd' & Hx' & Ho' & Hf' & Hg' & Hp')].
    exists s'; split; [exact B|]. unfold I.
    split; [congruence|]. split; [exact Hd'|]. split; [congruence|].
    split.
    { rewrite Ho', Ho, flat_map_app, <- app_assoc. simpl. rewrite app_nil_r.
      unfold demotions. rewrite (Hu _ Fa). reflexivity. }
    split.
    { intros n Hn'. rewrite ids_app in Hn'.
      rewrite Hf'; [apply Hu|].
      - intros K; apply Hn'; apply in_or_app; left; exact K.
      - intros ->; apply Hn'; apply in_or_app; right; left; reflexivity. }
    split.
    { intros n. destruct (Nat.eq_dec n (v_node a)) as [->|D].
      - rewrite Hg'; apply Hf.
      - rewrite Hf' by exact D; apply Hf. }
    intros v Iv. apply in_app_or in Iv as [Iv|[<-|[]]].
    - assert (Dv : v_node v <> v_node a).
      { intros K; apply Fa; rewrite <- K; apply in_ids; exact Iv. }
      apply (constraint_rule_ext dc (nodes self) (nodes self) (nodes s) (nodes s'));
        [reflexivity|apply Hf'; exact Dv|apply Hp; exact Iv].
    - apply (constraint_rule_ext dc (nodes s) (nodes self) (nodes s') (nodes s'));
        [rewrite (Hu _ Fa); reflexivity|reflexivity|exact Hp']. }
  destruct (for_each_invariant _ _ _ I _ Step self)
    as [self' [E [Ht [Hd [Hx [Ho [_ [Hf P]]]]]]]].
  - unfold I; simpl. rewrite app_nil_r. repeat split; auto. intros v [].
  - exists self'; repeat split; assumption.
Qed.

Lemma forget_init_commutes (nd : Node) :
  forget_interpolator (forget_constraints nd) =
  forget_constraints (forget_interpolator nd).
Proof. destruct nd; reflexivity. Qed.

Lemma init_date_constraints_spec ancestral_inference slope_arg kwarks
    (self : ClockTree) :
  let entry := init_entry ancestral_inference kwarks self in
  wf (tree entry) ->
  exists self' dc printed,
    init_date_constraints ancestral_inference slope_arg kwarks self = Ok self' /\
    tree self' = tree entry /\
    _date2dist self' = Some dc /\
    max_diam self' = intercept dc /\
    out self' =
      printed ++ flat_map (demotions (nodes entry)) (find_clades Preorder (tree entry)) /\
    (forall n, forget_init (nodes self' n) = forget_init (nodes entry n)) /\
    forall v, In v (find_clades Preorder (tree entry)) ->
      hasattr (branch_length_interpolator (nodes self' (v_node v))) = true /\
      constraint_rule dc (nodes entry) (nodes self') v.
Proof.
  intros entry W. unfold init_date_constraints.
  fold (init_entry ancestral_inference kwarks self). fold entry.
  unfold init_conversion.
  set (self1 := print entry InitializingInterpolators).
  destruct (init_interpolators_spec self1) as [s2 (E2 & Ht2 & Ho2 & Hf2 & Hb2)].
  change (tree self1) with (tree entry) in *. rewrite E2. simpl bind.
  set (dc := from_tree (tree s2) (nodes s2) slope_arg).
  unfold date2dist. simpl.
  set (self4 := set_max_diam _ _).
  assert (Ht4 : tree self4 = tree entry) by (simpl; exact Ht2).
  assert (W4 : wf (tree self4)) by (rewrite Ht4; exact W).
  destruct (init_constraints_spec self4 dc W4 eq_refl)
    as [self' (E & Ht & Hd & Hx & Ho & Hf & P)].
  change (preorder_from None (tree s2)) with (find_clades Preorder (tree self4)).
  rewrite E. rewrite Ht4 in *.
  exists self', dc, (out self4).
  split; [reflexivity|]. split; [exact Ht|]. split; [exact Hd|].
  split; [exact Hx|].
  split.
  { rewrite Ho. f_equal. apply flat_map_ext. intros v.
    apply demotions_ext. apply (Hf2 (v_node v)). }
  split.
  { intros n. unfold forget_init.
    pose proof (Hf n) as K1. pose proof (Hf2 n) as K2.
    change (nodes self4 n) with (nodes s2 n) in K1.
    change (nodes self1 n) with (nodes entry n) in K2.
    rewrite K1, forget_init_commutes, K2, <- forget_init_commutes. reflexivity. }
  intros v Iv. split.
  - pose proof (f_equal branch_length_interpolator (Hf (v_node v))) as K; simpl in K.
    rewrite K. apply Hb2; exact Iv.
  - apply (constraint_rule_ext dc (nodes self4) (nodes entry) (nodes self') (nodes self'));
      [symmetry; apply (Hf2 (v_node v))|reflexivity|apply P; exact Iv].
Qed.

End InitProof.

(** * The two length attributes *)

Ltac step_cases H :=
  unfold bind, getattr, collapse_func, date2dist, int_check in H;
  repeat match type of H with
         | context [match ?x with _ => _ end] => destruct x eqn:?; simpl in H
         | context [if ?x then _ else _] => destruct x eqn:?; simpl in H
         end;
  try discriminate H;
  injection H as H; subst.

Section Lengths.

Context {L : Library} {V : Services}.

Lemma lengths_consistent_refl s : lengths_consistent s s.
Proof. intros n; left; split; reflexivity. Qed.

Lemma lengths_consistent_trans s1 s2 s3 :
  lengths_consistent s1 s2 -> lengths_consistent s2 s3 -> lengths_consistent s1 s3.
Proof.
  intros H1 H2 n. destruct (H2 n) as [[E1 E2]|A]; [|right; exact A].
  destruct (H1 n) as [[F1 F2]|A].
  - left; split; congruence.
  - right; unfold lengths_agree in *; congruence.
Qed.

Lemma for_each_lengths (body : ClockTree -> visit -> res ClockTree) :
  (forall s a s', body s a = Ok s' -> lengths_consistent (nodes s) (nodes s')) ->
  forall l s s', for_each body l s = Ok s' -> lengths_consistent (nodes s) (nodes s').
Proof.
  intros H.
  apply (for_each_preserves _ _ body
           (fun s s' => lengths_consistent (nodes s) (nodes s'))).
  - intros s; apply lengths_consistent_refl.
  - intros s1 s2 s3; apply lengths_consistent_trans.
  - exact H.
Qed.

Ltac lengths_step :=
  let n := fresh "n" in
  intros n; simpl; unfold update, lengths_agree;
  repeat match goal with
         | |- context [Nat.eqb n ?a] => destruct (Nat.eqb n a)
         end;
  simpl; auto.

Lemma leaves_root_node_lengths s a s' :
  leaves_root_node s a = Ok s' -> lengths_consistent (nodes s) (nodes s').
Proof.
  unfold leaves_root_node. intros H.
  destruct (is_terminal a); [injection H as <-; lengths_step|].
  destruct (collect_messages (nodes s) (v_clades a) []) as [d|]; [|discriminate].
  simpl in H. rewrite update_same in H. simpl in H.
  destruct (length d <? 1); simpl in H; injection H as <-; lengths_step.
Qed.

Lemma root_leaves_node_lengths s a s' :
  root_leaves_node s a = Ok s' -> lengths_consistent (nodes s) (nodes s').
Proof.
  unfold root_leaves_node. intros H. step_cases H; lengths_step.
Qed.

Lemma convert_node_lengths now s a s' :
  convert_node now s a = Ok s' -> lengths_consistent (nodes s) (nodes s').
Proof.
  unfold convert_node. intros H.
  unfold bind, getattr, date2dist in H.
  destruct (_date2dist s); [|discriminate].
  destruct (time_before_present (nodes s (v_node a))); [discriminate|].
  simpl in H. rewrite update_same in H. simpl in H.
  unfold int_check in H.
  destruct (is_nan _); [discriminate|].
  destruct (is_infinity _); [discriminate|].
  injection H as <-.
  destruct (_ <? _)%float; [destruct (_ || _)|]; lengths_step.
Qed.

Lemma init_interpolator_lengths s a s' :
  init_interpolator s a = Ok s' -> lengths_consistent (nodes s) (nodes s').
Proof.
  unfold init_interpolator. intros H. step_cases H; lengths_step.
Qed.

Lemma init_constraint_lengths s a s' :
  init_constraint s a = Ok s' -> lengths_consistent (nodes s) (nodes s').
Proof.
  unfold init_constraint. intros H. step_cases H; lengths_step.
Qed.

Lemma final_dates_node_lengths s a s' :
  final_dates_node s a = Ok s' -> lengths_consistent (nodes s) (nodes s').
Proof.
  unfold final_dates_node. cbv zeta. intros H.
  match type of H with
  | bind ?X _ = _ => destruct X as [s2|] eqn:E2; [|discriminate]
  end.
  simpl in H.
  match type of H with
  | bind ?X _ = _ => destruct X as [s3|] eqn:E3; [|discriminate]
  end.
  simpl in H. injection H as <-.
  assert (F2 : forall k, k <> v_node a -> nodes s2 k = nodes s k).
  { step_cases E2; intros k Dk; upd; reflexivity. }
  assert (F3 : forall k, k <> v_node a -> nodes s3 k = nodes s2 k).
  { step_cases E3; intros k Dk; upd; reflexivity. }
  intros k. destruct (Nat.eq_dec k (v_node a)) as [->|Dk].
  - right. unfold lengths_agree. upd. reflexivity.
  - left. upd. rewrite F3, F2 by exact Dk. split; reflexivity.
Qed.

Lemma ml_t_leaves_root_lengths s s' :
  _ml_t_leaves_root s = Ok s' -> lengths_consistent (nodes s) (nodes s').
Proof.
  unfold _ml_t_leaves_root. intros H.
  apply (for_each_lengths _ leaves_root_node_lengths) in H. exact H.
Qed.

Lemma ml_t_root_leaves_lengths s s' :
  _ml_t_root_leaves s = Ok s' -> lengths_consistent (nodes s) (nodes s').
Proof.
  unfold _ml_t_root_leaves. intros H.
  apply (for_each_lengths _ root_leaves_node_lengths) in H. exact H.
Qed.

Lemma set_final_dates_lengths s s' :
  _set_final_dates s = Ok s' -> lengths_consistent (nodes s) (nodes s').
Proof.
  unfold _set_final_dates. intros H.
  apply (for_each_lengths _ final_dates_node_lengths) in H. exact H.
Qed.

Lemma convert_dates_lengths s s' :
  convert_dates s = Ok s' -> lengths_consistent (nodes s) (nodes s').
Proof.
  unfold convert_dates. intros H.
  apply (for_each_lengths _ (convert_node_lengths numeric_date)) in H. exact H.
Qed.

Lemma init_date_constraints_lengths ancestral_inference slope_arg kwarks s s' :
  init_date_constraints ancestral_inference slope_arg kwarks s = Ok s' ->
  lengths_consistent (nodes (init_entry ancestral_inference kwarks s)) (nodes s').
Proof.
  unfold init_date_constraints, init_conversion.
  fold (init_entry ancestral_inference kwarks s).
  set (entry := init_entry ancestral_inference kwarks s). cbv zeta. intros H.
  destruct (for_each init_interpolator _ _) as [s2|] eqn:E2; [|discriminate].
  apply (for_each_lengths _ init_interpolator_lengths) in E2.
  simpl in H.
  apply (for_each_lengths _ init_constraint_lengths) in H.
  eapply lengths_consistent_trans; [exact E2|exact H].
Qed.

End Lengths.

(** * The claims *)

Section Claims.

Context {L : Library} {V : Services}.

(** make_time_tree with the global name bound to [g]: every object but [g]
    comes back as it was. *)
Lemma make_time_tree_frame g self (h h' : heap) :
  make_time_tree (Some g) self h = Ok h' ->
  forall r, r <> g -> h' r = h r.
Proof.
  intros E r D. unfold make_time_tree, call, lookup_global in E.
  simpl in E.
  destruct (_ml_t_leaves_root (h g)) as [o1|]; [|discriminate]. simpl in E.
  rewrite Nat.eqb_refl in E.
  destruct (_ml_t_root_leaves o1) as [o2|]; [|discriminate]. simpl in E.
  rewrite Nat.eqb_refl in E.
  destruct (_set_final_dates o2) as [o3|]; [|discriminate]. simpl in E.
  rewrite Nat.eqb_refl in E.
  destruct (convert_dates o3) as [o4|]; [|discriminate]. simpl in E.
  injection E as <-.
  destruct (Nat.eqb_spec r g); [contradiction|reflexivity].
Qed.

(** C1, amended: the downward pass returns, the root gets None, and every
    other node n with parent p gets the convolution of the product of p's
    stored messages but n's own (and p's incoming message, if any) with n's
    interpolator, the inverse_time flag being False. *)
Theorem downward_pass_inverse_time_false (self : ClockTree) :
  wf (tree self) ->
  parents_ready (tree self) (nodes self) ->
  exists self', _ml_t_root_leaves self = Ok self' /\
    downward_messages false (tree self) (nodes self').
Proof.
  intros W R. destruct (downward_pass_spec self W R) as [self' (E & _ & _ & _ & P)].
  exists self'; split; [exact E|exact P].
Qed.

(** C3: the upward pass returns, and at every internal node the dict holds,
    keyed by child, the message of each child whose msg_to_parent is not
    None (the shifted interpolator for a delta, the convolution otherwise);
    msg_to_parent is left as it was when the dict is empty and is the
    product of the dict's values otherwise. *)
Theorem upward_pass_internal_nodes (self : ClockTree) :
  wf (tree self) ->
  children_ready (tree self) (nodes self) ->
  exists self', _ml_t_leaves_root self = Ok self' /\
    forall v, In v (find_clades Postorder (tree self)) ->
      is_terminal v = false ->
      upward_rule (nodes self) (nodes self') v.
Proof.
  intros W R. destruct (upward_pass_spec self W R) as [self' (E & _ & P)].
  exists self'; split; [exact E|].
  intros v Iv T. specialize (P v Iv). unfold upward_post in P.
  rewrite T in P; exact P.
Qed.

(** C4: finalization returns, and for every node n with parent p the joint
    posterior is n's interpolator shifted by minus p's time and rescaled by
    -1, multiplied with n's msg_to_parent when that is not None; n's time is
    the peak position of it. *)
Theorem final_dates_joint_posterior (self : ClockTree) :
  wf (tree self) ->
  final_ready (tree self) (nodes self) ->
  exists self', _set_final_dates self = Ok self' /\
    forall v p, In v (find_clades Preorder (tree self)) -> v_up v = Some p ->
      exists tp,
        time_before_present (nodes self' p) = Has tp /\
        joint_lh (nodes self' (v_node v)) =
          Has (Some (joint_posterior (nodes self (v_node v)) tp)) /\
        time_before_present (nodes self' (v_node v)) =
          Has (peak_pos (joint_posterior (nodes self (v_node v)) tp)).
Proof.
  intros W R. destruct (final_dates_spec self W R) as [self' (E & _ & _ & _ & P)].
  exists self'; split; [exact E|].
  intros v p Iv Ep. specialize (P v Iv). unfold final_rule in P. rewrite Ep in P.
  destruct P as (tp & H1 & _ & H3 & H4 & _). exists tp; repeat split; assumption.
Qed.

(** C5: init_date_constraints returns with a calibration dc, and every node
    whose numdate_given is set and which is not marked bad has
    abs_t = (today - numdate_given) * |slope dc| and the delta at abs_t of
    weight 1 as msg_to_parent; every other node has both set to None. *)
Theorem init_date_constraints_seeds_dated_nodes ancestral_inference slope_arg
    kwarks (self : ClockTree) :
  let entry := init_entry ancestral_inference kwarks self in
  wf (tree entry) ->
  exists self' dc,
    init_date_constraints ancestral_inference slope_arg kwarks self = Ok self' /\
    _date2dist self' = Some dc /\
    forall v, In v (find_clades Preorder (tree entry)) ->
      match constrained (nodes entry (v_node v)) with
      | Some given =>
          let t := ((numeric_date - given) * abs (slope dc))%float in
          abs_t (nodes self' (v_node v)) = Has (Some t) /\
          msg_to_parent (nodes self' (v_node v)) =
            Has (Some (delta_function t 1%float))
      | None =>
          abs_t (nodes self' (v_node v)) = Has None /\
          msg_to_parent (nodes self' (v_node v)) = Has None
      end.
Proof.
  intros entry W.
  destruct (init_date_constraints_spec ancestral_inference slope_arg kwarks self W)
    as (self' & dc & printed & E & _ & Hd & _ & _ & _ & P).
  exists self', dc. split; [exact E|]. split; [exact Hd|].
  intros v Iv. destruct (P v Iv) as [_ C]. unfold constraint_rule in C.
  fold entry in C.
  destruct (constrained (nodes entry (v_node v))); cbv zeta; tauto.
Qed.

(** C6, amended: finalization returns, sets the branch_length of every node
    n with parent p to p's time minus n's time, and logs its progress line
    and nothing else, whatever the sign of that difference. *)
Theorem final_dates_branch_length (self : ClockTree) :
  wf (tree self) ->
  final_ready (tree self) (nodes self) ->
  exists self', _set_final_dates self = Ok self' /\
    out self' = out self ++ [Logged SettingDates 2 false] /\
    forall v p, In v (find_clades Preorder (tree self)) -> v_up v = Some p ->
      exists tp tn,
        time_before_present (nodes self' p) = Has tp /\
        time_before_present (nodes self' (v_node v)) = Has tn /\
        branch_length (nodes self' (v_node v)) = Some (tp - tn)%float.
Proof.
  intros W R. destruct (final_dates_spec self W R) as [self' (E & _ & Ho & _ & P)].
  exists self'; split; [exact E|]. split; [exact Ho|].
  intros v p Iv Ep. specialize (P v Iv). unfold final_rule in P. rewrite Ep in P.
  destruct P as (tp & H1 & _ & _ & H4 & H5 & _).
  exists tp, (peak_pos (joint_posterior (nodes self (v_node v)) tp)).
  repeat split; assumption.
Qed.

(** C7, amended: calendar conversion returns; a node whose years before
    present are negative and which is not marked bad gets the error entry
    (level 4, warn flag) in the log, and its numdate is today minus those
    years, as for every other node: no clamping. *)
Theorem convert_dates_future_date (self : ClockTree) (dc : DateConversion) :
  wf (tree self) ->
  _date2dist self = Some dc ->
  convert_ready dc (tree self) (nodes self) ->
  exists self', convert_dates self = Ok self' /\
    forall v t, In v (find_clades Preorder (tree self)) ->
      time_before_present (nodes self (v_node v)) = Has t ->
      numdate (nodes self' (v_node v)) = Has (numeric_date - get_date dc t)%float /\
      ((get_date dc t <? 0)%float = true ->
       marked_bad (nodes self (v_node v)) = false ->
       In (Logged LaterThanTodayError 4 true) (out self')).
Proof.
  intros W Ed R.
  destruct (convert_dates_spec self dc W Ed R) as [self' (E & _ & Ho & _ & P)].
  exists self'; split; [exact E|].
  intros v t Iv Et. split.
  - destruct (P v Iv) as (t' & E1 & E2 & _). congruence.
  - intros Hneg Hbad. rewrite Ho. apply in_or_app; right.
    apply in_flat_map. exists v; split; [exact Iv|].
    unfold date_events. rewrite Et, Hneg, Hbad. left; reflexivity.
Qed.

(** C8: init_date_constraints returns, and every node that has a
    numdate_given and is marked bad ends with numdate_given, abs_t and
    msg_to_parent set to None, the warning being printed. *)
Theorem init_date_constraints_demotes_bad_branches ancestral_inference slope_arg
    kwarks (self : ClockTree) :
  let entry := init_entry ancestral_inference kwarks self in
  wf (tree entry) ->
  exists self',
    init_date_constraints ancestral_inference slope_arg kwarks self = Ok self' /\
    forall v given, In v (find_clades Preorder (tree entry)) ->
      numdate_given (nodes entry (v_node v)) = Has (Some given) ->
      bad_branch (nodes entry (v_node v)) = Has true ->
      numdate_given (nodes self' (v_node v)) = Has None /\
      abs_t (nodes self' (v_node v)) = Has None /\
      msg_to_parent (nodes self' (v_node v)) = Has None /\
      In (Printed BadBranchExcluded) (out self').
Proof.
  intros entry W.
  destruct (init_date_constraints_spec ancestral_inference slope_arg kwarks self W)
    as (self' & dc & printed & E & _ & _ & _ & Ho & _ & P).
  exists self'. split; [exact E|].
  intros v given Iv Eg Eb. destruct (P v Iv) as [_ C].
  unfold constraint_rule, constrained, marked_bad in C. fold entry in C.
  rewrite Eg, Eb in C. destruct C as (C1 & C2 & C3).
  repeat split; try assumption.
  rewrite Ho. apply in_or_app; right. apply in_flat_map.
  exists v; split; [exact Iv|].
  unfold demotions, demoted, marked_bad. fold entry. rewrite Eg, Eb.
  left; reflexivity.
Qed.

(** C9: finalization returns, and a node n with a parent whose msg_to_parent
    is None gets as marginal_lh the product of the pair (msg_from_parent,
    None), while its joint_lh is the transformed interpolator alone. *)
Theorem final_dates_marginal_of_none (self : ClockTree) :
  wf (tree self) ->
  final_ready (tree self) (nodes self) ->
  exists self', _set_final_dates self = Ok self' /\
    forall v p, In v (find_clades Preorder (tree self)) -> v_up v = Some p ->
      msg_to_parent (nodes self (v_node v)) = Has None ->
      exists tp,
        time_before_present (nodes self' p) = Has tp /\
        marginal_lh (nodes self' (v_node v)) =
          Has (Some (multiply [the_value (msg_from_parent (nodes self (v_node v)));
                               None])) /\
        joint_lh (nodes self' (v_node v)) =
          Has (Some (transformed_interpolator (nodes self (v_node v)) tp)).
Proof.
  intros W R. destruct (final_dates_spec self W R) as [self' (E & _ & _ & _ & P)].
  exists self'; split; [exact E|].
  intros v p Iv Ep Em. specialize (P v Iv). unfold final_rule in P. rewrite Ep in P.
  destruct P as (tp & H1 & H2 & H3 & _). exists tp.
  unfold joint_posterior in H3. rewrite Em in H2, H3. simpl in H2.
  repeat split; assumption.
Qed.

End Claims.

(** * The claims on the reference interpretation *)

Module Examples.

Import Reference.

Ltac enumerate H :=
  vm_compute in H;
  repeat (destruct H as [H|H]; [try subst|]);
  try contradiction.

Lemma topology_wf : wf topology.
Proof.
  unfold wf; simpl. repeat constructor; simpl; intuition discriminate.
Qed.

Lemma dated_children_ready c :
  children_ready (tree (dated c)) (nodes (dated c)).
Proof.
  intros v k Iv Ik. enumerate Iv; enumerate Ik; split; vm_compute; reflexivity.
Qed.

Lemma upward_parents_ready c :
  parents_ready (tree (upward c)) (nodes (upward c)).
Proof.
  intros v p Iv Ep. enumerate Iv; vm_compute in Ep; try discriminate;
    injection Ep as <-; split; vm_compute; reflexivity.
Qed.

Lemma downward_final_ready c :
  final_ready (tree (downward c)) (nodes (downward c)).
Proof.
  intros v Iv. enumerate Iv; cbv beta iota delta [v_up v_node];
    first [eexists; vm_compute; reflexivity
          | split; [|split]; vm_compute; reflexivity].
Qed.

Lemma finalised_convert_ready c :
  c = fit \/ c = late ->
  convert_ready (V := services c) c (tree (finalised c)) (nodes (finalised c)).
Proof.
  intros [->| ->] v Iv; enumerate Iv;
    (eexists; split; [vm_compute; reflexivity|split; vm_compute; reflexivity]).
Qed.

Lemma ok_force (r : res ClockTree) (otherwise : ClockTree) :
  succeeded r = true -> r = Ok (force r otherwise).
Proof. destruct r; simpl; intros H; [reflexivity|discriminate H]. Qed.

Lemma force_ok (r : res ClockTree) (otherwise e : ClockTree) :
  r = Ok e -> e = force r otherwise.
Proof. intros ->; reflexivity. Qed.

(** C1, refuted as stated: on the reference tree the message sent down to
    node 1 is a convolution with inverse_time False, not True. *)
Lemma downward_pass_flag_is_not_true :
  exists self', _ml_t_root_leaves (upward fit) = Ok self' /\
    ~ downward_messages true (tree (upward fit)) (nodes self').
Proof.
  exists (downward fit). split; [apply ok_force; vm_compute; reflexivity|].
  intros H.
  assert (I1 : In (Visit 1 (Some 0) []) (find_clades Preorder (tree (upward fit))))
    by (vm_compute; tauto).
  destruct (H _ I1) as (d & pm & _ & _ & Hm).
  vm_compute in Hm. discriminate Hm.
Qed.

Lemma downward_pass_inverse_time_false_witness :
  exists self', _ml_t_root_leaves (upward fit) = Ok self' /\
    downward_messages false (tree (upward fit)) (nodes self').
Proof.
  apply (downward_pass_inverse_time_false (upward fit)).
  - exact topology_wf.
  - exact (upward_parents_ready fit).
Defined.

(** C2: make_time_tree never looks at the object it is called on.  It
    raises NameError when the global name is unbound; when the name is bound
    to another object, the object it is called on comes back as it was.  On
    the reference heap, called on object 1 with the name bound to object 0,
    it dates the tree of object 0 (root time 4) and leaves the root of object
    1 without a time. *)
Theorem make_time_tree_runs_on_the_global :
  (forall self h,
      make_time_tree (V := services fit) None self h = Raise NameError) /\
  (forall g self h h',
      make_time_tree (V := services fit) (Some g) self h = Ok h' ->
      self <> g -> h' self = h self) /\
  exists h', make_time_tree (V := services fit) (Some 0) 1 objects = Ok h' /\
    time_before_present (nodes (h' 1) 0) = Missing /\
    time_before_present (nodes (h' 0) 0) = Has 4%float.
Proof.
  split; [reflexivity|].
  assert (G : forall g self h h',
             make_time_tree (V := services fit) (Some g) self h = Ok h' ->
             self <> g -> h' self = h self).
  { intros g self h h' E D.
    exact (make_time_tree_frame (V := services fit) g self h h' E self D). }
  split; [exact G|].
  destruct (make_time_tree (V := services fit) (Some 0) 1 objects) as [h'|e] eqn:E.
  - exists h'. split; [reflexivity|]. split.
    + rewrite (G 0 1 objects h' E) by discriminate. vm_compute. reflexivity.
    + assert (K : match make_time_tree (V := services fit) (Some 0) 1 objects with
                  | Ok h => time_before_present (nodes (h 0) 0)
                  | Raise _ => Missing
                  end = Has 4%float) by (vm_compute; reflexivity).
      rewrite E in K. exact K.
  - assert (K : succeeded (make_time_tree (V := services fit) (Some 0) 1 objects)
                = true) by (vm_compute; reflexivity).
    rewrite E in K. discriminate K.
Qed.

Lemma upward_pass_internal_nodes_witness :
  exists self', _ml_t_leaves_root (dated fit) = Ok self' /\
    forall v, In v (find_clades Postorder (tree (dated fit))) ->
      is_terminal v = false ->
      upward_rule (nodes (dated fit)) (nodes self') v.
Proof.
  apply (upward_pass_internal_nodes (dated fit)).
  - exact topology_wf.
  - exact (dated_children_ready fit).
Defined.

Lemma final_dates_joint_posterior_witness :
  exists self', _set_final_dates (downward fit) = Ok self' /\
    time_before_present (nodes self' 2) =
      Has (peak_pos (joint_posterior (nodes (downward fit) 2) 4%float)).
Proof.
  destruct (final_dates_joint_posterior (downward fit) topology_wf
              (downward_final_ready fit)) as [self' [E P]].
  exists self'. split; [exact E|].
  destruct (P (Visit 2 (Some 0) [3; 4]) 0) as (tp & Hp & _ & Hn);
    [vm_compute; tauto|reflexivity|].
  cbv beta iota delta [v_node] in Hn. rewrite Hn.
  rewrite (force_ok _ (downward fit) _ E) in Hp.
  vm_compute in Hp. injection Hp as <-. reflexivity.
Defined.

Lemma init_date_constraints_seeds_dated_nodes_witness :
  exists self',
    init_date_constraints (V := services fit) false None tt engine = Ok self' /\
    abs_t (nodes self' 1) = Has (Some 3%float) /\
    msg_to_parent (nodes self' 1) = Has (Some (Delta 3 1)) /\
    abs_t (nodes self' 4) = Has None /\
    msg_to_parent (nodes self' 4) = Has None.
Proof.
  destruct (init_date_constraints_seeds_dated_nodes (V := services fit)
              false None tt engine topology_wf) as (self' & dc & E & Hd & P).
  exists self'. split; [exact E|].
  pose proof (P (Visit 1 (Some 0) [])) as P1.
  pose proof (P (Visit 4 (Some 2) [])) as P4.
  rewrite (force_ok _ engine _ E) in Hd.
  vm_compute in Hd. injection Hd as <-.
  vm_compute in P1, P4.
  destruct P1 as [A1 M1]; [tauto|]. destruct P4 as [A4 M4]; [tauto|].
  repeat split; assumption.
Defined.

(** C6, refuted as stated: on the reference tree node 2 ends with branch
    length -2 and is not marked bad, yet nothing is logged with the warn
    flag, neither by finalization nor by the calendar conversion after it. *)
Lemma negative_branch_is_not_reported :
  exists self' self'',
    _set_final_dates (downward fit) = Ok self' /\
    ~ negative_branch_reported self' /\
    convert_dates (V := services fit) self' = Ok self'' /\
    ~ negative_branch_reported self''.
Proof.
  exists (finalised fit), (converted fit).
  split; [apply ok_force; vm_compute; reflexivity|].
  split; [|split; [apply ok_force; vm_compute; reflexivity|]].
  - intros H. apply (H (Visit 2 (Some 0) [3; 4]) 0 (-2)%float).
    + vm_compute; tauto.
    + reflexivity.
    + vm_compute; reflexivity.
    + vm_compute; reflexivity.
    + vm_compute; reflexivity.
    + vm_compute; reflexivity.
  - intros H. apply (H (Visit 2 (Some 0) [3; 4]) 0 (-2)%float).
    + vm_compute; tauto.
    + reflexivity.
    + vm_compute; reflexivity.
    + vm_compute; reflexivity.
    + vm_compute; reflexivity.
    + vm_compute; reflexivity.
Qed.

Lemma final_dates_branch_length_witness :
  exists self', _set_final_dates (downward fit) = Ok self' /\
    out self' = out (downward fit) ++ [Logged SettingDates 2 false] /\
    branch_length (nodes self' 2) = Some (-2)%float.
Proof.
  destruct (final_dates_branch_length (downward fit) topology_wf
              (downward_final_ready fit)) as [self' (E & Ho & P)].
  exists self'. split; [exact E|]. split; [exact Ho|].
  destruct (P (Visit 2 (Some 0) [3; 4]) 0) as (tp & tn & Hp & Hn & Hb);
    [vm_compute; tauto|reflexivity|].
  cbv beta iota delta [v_node] in Hn, Hb. rewrite Hb.
  rewrite (force_ok _ (downward fit) _ E) in Hp, Hn.
  vm_compute in Hp, Hn. injection Hp as <-. injection Hn as <-.
  vm_compute. reflexivity.
Defined.

(** C7, refuted as stated: under the calibration [late] node 2 lies 1.5
    years after today; its numdate becomes 2021.5, not today's 2020. *)
Lemma future_date_is_not_clamped :
  exists self',
    convert_dates (V := services late) (finalised late) = Ok self' /\
    ~ future_dates_clamped (V := services late) late (finalised late) self'.
Proof.
  exists (converted late).
  split; [apply ok_force; vm_compute; reflexivity|].
  intros H.
  destruct (H (Visit 2 (Some 0) [3; 4]) 6%float) as [_ Hc].
  - vm_compute; tauto.
  - vm_compute; reflexivity.
  - vm_compute; reflexivity.
  - vm_compute; reflexivity.
  - apply (f_equal (before 2021%float)) in Hc.
    vm_compute in Hc. discriminate Hc.
Qed.

Lemma convert_dates_future_date_witness :
  exists self',
    convert_dates (V := services late) (finalised late) = Ok self' /\
    numdate (nodes self' 2) = Has 2021.5%float /\
    In (Logged LaterThanTodayError 4 true) (out self').
Proof.
  destruct (convert_dates_future_date (V := services late) (finalised late) late
              topology_wf eq_refl (finalised_convert_ready late (or_intror eq_refl)))
    as [self' [E P]].
  exists self'. split; [exact E|].
  destruct (P (Visit 2 (Some 0) [3; 4]) 6%float) as [Hn Hl];
    [vm_compute; tauto|vm_compute; reflexivity|].
  cbv beta iota delta [v_node] in Hn.
  split.
  - rewrite Hn. vm_compute. reflexivity.
  - apply Hl; vm_compute; reflexivity.
Defined.

Lemma init_date_constraints_demotes_bad_branches_witness :
  exists self',
    init_date_constraints (V := services fit) false None tt engine = Ok self' /\
    numdate_given (nodes self' 5) = Has None /\
    abs_t (nodes self' 5) = Has None /\
    msg_to_parent (nodes self' 5) = Has None /\
    In (Printed BadBranchExcluded) (out self').
Proof.
  destruct (init_date_constraints_demotes_bad_branches (V := services fit)
              false None tt engine topology_wf) as (self' & E & P).
  exists self'. split; [exact E|].
  apply (P (Visit 5 (Some 0) []) 2016%float).
  - vm_compute; tauto.
  - vm_compute; reflexivity.
  - vm_compute; reflexivity.
Defined.

Lemma final_dates_marginal_of_none_witness :
  exists self' tp, _set_final_dates (downward fit) = Ok self' /\
    marginal_lh (nodes self' 4) =
      Has (Some (multiply [the_value (msg_from_parent (nodes (downward fit) 4));
                           None])) /\
    joint_lh (nodes self' 4) =
      Has (Some (transformed_interpolator (nodes (downward fit) 4) tp)).
Proof.
  destruct (final_dates_marginal_of_none (downward fit) topology_wf
              (downward_final_ready fit)) as [self' [E P]].
  destruct (P (Visit 4 (Some 2) []) 2) as (tp & _ & Hm & Hj);
    [vm_compute; tauto|reflexivity|vm_compute; reflexivity|].
  exists self', tp. split; [exact E|]. split; [exact Hm|exact Hj].
Defined.

End Examples.

(** * Beyond the claims: what each operation leaves alone *)

Ltac frame_step :=
  split; [repeat split|];
  (split;
   [let n := fresh "n" in
    intros n; simpl; unfold update;
    repeat match goal with
           | |- context [Nat.eqb ?x ?y] => destruct (Nat.eqb x y)
           end; reflexivity
   |let n := fresh "n" in
    let D := fresh "D" in
    intros n D; simpl; rewrite ?update_other by exact D; reflexivity]).

Section Frames.

Context {L : Library} {V : Services}.

Lemma same_object_refl (s : ClockTree) : same_object s s.
Proof. repeat split. Qed.

Lemma same_object_trans (s1 s2 s3 : ClockTree) :
  same_object s1 s2 -> same_object s2 s3 -> same_object s1 s3.
Proof.
  intros (A1 & A2 & A3 & A4 & A5) (B1 & B2 & B3 & B4 & B5).
  repeat split; congruence.
Qed.

(** A loop whose body assigns only to the node it visits, and only the
    attributes [forget] takes away. *)
Lemma for_each_frame (body : ClockTree -> visit -> res ClockTree)
    (forget : Node -> Node) :
  (forall s a s', body s a = Ok s' ->
     same_object s s' /\
     (forall n, forget (nodes s' n) = forget (nodes s n)) /\
     (forall n, n <> v_node a -> nodes s' n = nodes s n)) ->
  forall l s s', for_each body l s = Ok s' ->
     same_object s s' /\
     (forall n, forget (nodes s' n) = forget (nodes s n)) /\
     (forall n, ~ In n (ids l) -> nodes s' n = nodes s n).
Proof.
  intros H. induction l as [|a l IH]; intros s s' E; simpl in E.
  - injection E as <-. split; [apply same_object_refl|]. split; reflexivity.
  - destruct (body s a) as [s1|e] eqn:B; simpl in E; [|discriminate].
    destruct (H _ _ _ B) as (O1 & F1 & U1).
    destruct (IH _ _ E) as (O2 & F2 & U2).
    split; [eapply same_object_trans; eassumption|]. split.
    + intros n. rewrite F2. apply F1.
    + intros n Hn. simpl in Hn. rewrite U2, U1; [reflexivity| |]; intuition.
Qed.

Lemma for_each_out (body : ClockTree -> visit -> res ClockTree) :
  (forall s a s', body s a = Ok s' -> out s' = out s) ->
  forall l s s', for_each body l s = Ok s' -> out s' = out s.
Proof.
  intros H.
  apply (for_each_preserves _ _ body (fun s s' => out s' = out s)).
  - reflexivity.
  - intros; congruence.
  - exact H.
Qed.

(** A run that returns has run its body at every element. *)
Lemma for_each_reached (body : ClockTree -> visit -> res ClockTree) :
  forall l1 a l2 s s',
    for_each body (l1 ++ a :: l2) s = Ok s' ->
    exists s1 s2, for_each body l1 s = Ok s1 /\ body s1 a = Ok s2 /\
                  for_each body l2 s2 = Ok s'.
Proof.
  induction l1 as [|b l1 IH]; intros a l2 s s' E; simpl in E.
  - destruct (body s a) as [s2|] eqn:B; simpl in E; [|discriminate].
    exists s, s2. repeat split; assumption.
  - destruct (body s b) as [s0|] eqn:B; simpl in E; [|discriminate].
    destruct (IH _ _ _ _ E) as (s1 & s2 & E1 & E2 & E3).
    exists s1, s2. simpl. rewrite B. simpl. repeat split; assumption.
Qed.

(** The exception of a loop is the exception of one run of its body. *)
Lemma for_each_raises (body : ClockTree -> visit -> res ClockTree)
    (P : exn -> Prop) :
  (forall s a e, body s a = Raise e -> P e) ->
  forall l s e, for_each body l s = Raise e -> P e.
Proof.
  intros H. induction l as [|a l IH]; intros s e E; simpl in E; [discriminate|].
  destruct (body s a) as [s1|e1] eqn:B; simpl in E.
  - eapply IH; exact E.
  - injection E as <-. eapply H; exact B.
Qed.

Lemma leaves_root_node_frame s a s' :
  leaves_root_node s a = Ok s' ->
  same_object s s' /\
  (forall n, forget_upward (nodes s' n) = forget_upward (nodes s n)) /\
  (forall n, n <> v_node a -> nodes s' n = nodes s n).
Proof.
  unfold leaves_root_node. intros H.
  destruct (is_terminal a); [injection H as <-; frame_step|].
  destruct (collect_messages (nodes s) (v_clades a) []) as [d|]; [|discriminate].
  simpl in H. rewrite update_same in H. simpl in H.
  destruct (length d <? 1); simpl in H; injection H as <-; frame_step.
Qed.

Lemma leaves_root_node_out s a s' :
  leaves_root_node s a = Ok s' -> out s' = out s.
Proof.
  unfold leaves_root_node. intros H.
  destruct (is_terminal a); [injection H as <-; reflexivity|].
  destruct (collect_messages (nodes s) (v_clades a) []) as [d|]; [|discriminate].
  simpl in H. rewrite update_same in H. simpl in H.
  destruct (length d <? 1); simpl in H; injection H as <-; reflexivity.
Qed.

Lemma root_leaves_node_frame s a s' :
  root_leaves_node s a = Ok s' ->
  same_object s s' /\
  (forall n, forget_downward (nodes s' n) = forget_downward (nodes s n)) /\
  (forall n, n <> v_node a -> nodes s' n = nodes s n).
Proof.
  unfold root_leaves_node. intros H. step_cases H; frame_step.
Qed.

Lemma root_leaves_node_out s a s' :
  root_leaves_node s a = Ok s' -> out s' = out s.
Proof.
  unfold root_leaves_node. intros H. step_cases H; reflexivity.
Qed.

Lemma final_dates_node_frame s a s' :
  final_dates_node s a = Ok s' ->
  same_object s s' /\
  (forall n, forget_final (nodes s' n) = forget_final (nodes s n)) /\
  (forall n, n <> v_node a -> nodes s' n = nodes s n).
Proof.
  unfold final_dates_node. cbv zeta. intros H.
  match type of H with
  | bind ?X _ = _ => destruct X as [s2|] eqn:E2; [|discriminate]
  end.
  simpl in H.
  match type of H with
  | bind ?X _ = _ => destruct X as [s3|] eqn:E3; [|discriminate]
  end.
  simpl in H. injection H as <-.
  assert (F2 : same_object s s2 /\
               (forall n, forget_final (nodes s2 n) = forget_final (nodes s n)) /\
               (forall n, n <> v_node a -> nodes s2 n = nodes s n)).
  { step_cases E2; frame_step. }
  assert (F3 : same_object s2 s3 /\
               (forall n, forget_final (nodes s3 n) = forget_final (nodes s2 n)) /\
               (forall n, n <> v_node a -> nodes s3 n = nodes s2 n)).
  { step_cases E3; frame_step. }
  destruct F2 as (O2 & G2 & U2). destruct F3 as (O3 & G3 & U3).
  split; [eapply same_object_trans; [exact O2|]; eapply same_object_trans;
          [exact O3|repeat split]|].
  split.
  - intros n. rewrite <- G2, <- G3. simpl. unfold update.
    destruct (Nat.eqb n (v_node a)); reflexivity.
  - intros n D. simpl. rewrite update_other by exact D.
    rewrite U3, U2 by exact D. reflexivity.
Qed.

Lemma final_dates_node_out s a s' :
  final_dates_node s a = Ok s' -> out s' = out s.
Proof.
  unfold final_dates_node. cbv zeta. intros H.
  match type of H with
  | bind ?X _ = _ => destruct X as [s2|] eqn:E2; [|discriminate]
  end.
  simpl in H.
  match type of H with
  | bind ?X _ = _ => destruct X as [s3|] eqn:E3; [|discriminate]
  end.
  simpl in H. injection H as <-. simpl.
  assert (O2 : out s2 = out s) by (step_cases E2; reflexivity).
  assert (O3 : out s3 = out s2) by (step_cases E3; reflexivity).
  congruence.
Qed.

End Frames.

(** * Beyond the claims: the upward pass *)

Section UpwardMore.

Context {L : Library}.

Lemma upward_pass_touches (self self' : ClockTree) :
  _ml_t_leaves_root self = Ok self' ->
  touches forget_upward self self' /\
  out self' = out self ++ [Logged MLOptimization 1 false;
                           Logged PropagatingLeavesRoot 2 false].
Proof.
  unfold _ml_t_leaves_root. intros E. split.
  - destruct (for_each_frame _ _ leaves_root_node_frame _ _ _ E) as (O & F & U).
    split; [exact O|]. split; [exact F|].
    intros n Hn. rewrite U; [reflexivity|].
    intros K; apply Hn. unfold ids in *.
    eapply Permutation_in; [|exact K].
    apply Permutation_map, postorder_preorder.
  - rewrite (for_each_out _ leaves_root_node_out _ _ _ E). simpl.
    rewrite <- app_assoc. reflexivity.
Qed.

(** X1: the upward pass returns on a tree whose children carry what it reads;
    it assigns nothing but msgs_from_leaves and msg_to_parent, and only at
    nodes of the tree; it logs its two progress lines; and every terminal
    ends with an empty dict and the message it had. *)
Theorem upward_pass_keeps_the_rest (self : ClockTree) :
  wf (tree self) ->
  children_ready (tree self) (nodes self) ->
  exists self', _ml_t_leaves_root self = Ok self' /\
    touches forget_upward self self' /\
    out self' = out self ++ [Logged MLOptimization 1 false;
                             Logged PropagatingLeavesRoot 2 false] /\
    forall v, In v (find_clades Preorder (tree self)) ->
      is_terminal v = true ->
      msgs_from_leaves (nodes self' (v_node v)) = Has [] /\
      msg_to_parent (nodes self' (v_node v)) = msg_to_parent (nodes self (v_node v)).
Proof.
  intros W R. destruct (upward_pass_spec self W R) as [self' (E & _ & P)].
  exists self'. split; [exact E|].
  destruct (upward_pass_touches _ _ E) as [T O].
  split; [exact T|]. split; [exact O|].
  intros v Iv Tv. apply in_postorder in Iv. specialize (P v Iv).
  unfold upward_post in P. rewrite Tv in P. exact P.
Qed.

Lemma existsb_agree (A : Type) (f g : A -> bool) (l : list A) :
  (forall x, In x l -> f x = g x) -> existsb f l = existsb g l.
Proof.
  induction l as [|a l IH]; intros H; simpl; [reflexivity|].
  rewrite (H a (or_introl eq_refl)), IH; [reflexivity|].
  intros x Hx; apply H; right; exact Hx.
Qed.

Lemma existsb_mapped (A B : Type) (f : B -> bool) (g : A -> B) (l : list A) :
  existsb f (map g l) = existsb (fun x => f (g x)) l.
Proof. induction l as [|a l IH]; simpl; [reflexivity|rewrite IH; reflexivity]. Qed.

Lemma child_message_nil s c :
  child_message s c = [] <-> has_message (s c) = false.
Proof.
  unfold child_message, has_message.
  destruct (msg_to_parent (s c)) as [|[m|]]; split; intros H;
    try reflexivity; discriminate H.
Qed.

Lemma child_messages_nil s cs :
  child_messages s cs = [] <-> existsb (fun c => has_message (s c)) cs = false.
Proof.
  unfold child_messages. induction cs as [|c cs IH]; simpl; [tauto|].
  rewrite orb_false_iff, <- IH, <- child_message_nil.
  split.
  - intros H. apply app_eq_nil in H. exact H.
  - intros [H1 H2]. rewrite H1, H2. reflexivity.
Qed.

Lemma message_below_exists s t : forall up,
  message_below s t = true <->
  exists v, In v (preorder_from up t) /\ has_message (s (v_node v)) = true.
Proof.
  induction t as [n cs IH] using clade_ind; intros up; simpl.
  rewrite orb_true_iff, existsb_exists. rewrite Forall_forall in IH. split.
  - intros [H|[c [Ic H]]].
    + eexists; split; [left; reflexivity|exact H].
    + apply (IH c Ic (Some n)) in H as [v [Iv H]].
      exists v; split; [right; apply in_flat_map; exists c; split; assumption|exact H].
  - intros [v [[<-|Iv] H]]; [left; exact H|].
    apply in_flat_map in Iv as [c [Ic Iv]].
    right. exists c; split; [exact Ic|].
    apply (IH c Ic (Some n)). exists v; split; assumption.
Qed.

Lemma upward_message_below (T : clade) (before after : store) :
  (forall v, In v (find_clades Postorder T) -> upward_post before after v) ->
  forall t up, incl (postorder_from up t) (find_clades Postorder T) ->
    has_message (after (clade_id t)) = message_below before t.
Proof.
  intros P. induction t as [n cs IH] using clade_ind; intros up I.
  simpl in I. simpl clade_id. simpl message_below.
  rewrite Forall_forall in IH.
  assert (Iv : In (Visit n up (map clade_id cs)) (find_clades Postorder T)).
  { apply I. apply in_or_app; right; left; reflexivity. }
  assert (Ec : existsb (message_below before) cs =
               existsb (fun c => has_message (after c)) (map clade_id cs)).
  { rewrite existsb_mapped. apply existsb_agree. intros c Ic. symmetry.
    apply (IH c Ic (Some n)). intros w Iw. apply I.
    apply in_or_app; left. apply in_flat_map. exists c; split; assumption. }
  specialize (P _ Iv).
  unfold upward_post, upward_leaf_rule, upward_rule, is_terminal in P.
  cbn [v_node v_clades] in P.
  destruct (map clade_id cs) as [|c0 ids0] eqn:Em.
  - destruct P as [_ P]. unfold has_message. rewrite P.
    rewrite Ec. simpl. rewrite orb_false_r. reflexivity.
  - rewrite Ec. destruct P as (_ & P1 & P2).
    destruct (existsb (fun c => has_message (after c)) (c0 :: ids0)) eqn:Ex.
    + rewrite orb_true_r. unfold has_message. rewrite P2; [reflexivity|].
      intros K. apply child_messages_nil in K. congruence.
    + rewrite orb_false_r. unfold has_message. rewrite P1; [reflexivity|].
      apply child_messages_nil. exact Ex.
Qed.

(** X2: after the upward pass the root has a message exactly when some
    node of the tree had one before it. *)
Theorem upward_pass_root_message (self : ClockTree) :
  wf (tree self) ->
  children_ready (tree self) (nodes self) ->
  exists self', _ml_t_leaves_root self = Ok self' /\
    (has_message (nodes self' (clade_id (tree self))) = true <->
     some_message (tree self) (nodes self)).
Proof.
  intros W R. destruct (upward_pass_spec self W R) as [self' (E & _ & P)].
  exists self'. split; [exact E|].
  rewrite (upward_message_below (tree self) (nodes self) (nodes self') P
             (tree self) None (incl_refl _)).
  apply message_below_exists.
Qed.

End UpwardMore.

(** * Beyond the claims: the downward pass *)

Section DownwardMore.

Context {L : Library}.

Lemma downward_pass_touches (self self' : ClockTree) :
  _ml_t_root_leaves self = Ok self' ->
  touches forget_downward self self' /\
  out self' = out self ++ [Logged PropagatingRootLeaves 2 false].
Proof.
  unfold _ml_t_root_leaves. intros E. split.
  - destruct (for_each_frame _ _ root_leaves_node_frame _ _ _ E) as (O & F & U).
    split; [exact O|]. split; [exact F|exact U].
  - rewrite (for_each_out _ root_leaves_node_out _ _ _ E). reflexivity.
Qed.

Lemma root_leaves_node_needs s a s' p :
  root_leaves_node s a = Ok s' -> v_up a = Some p ->
  hasattr (msgs_from_leaves (nodes s p)) = true /\
  hasattr (branch_length_interpolator (nodes s (v_node a))) = true.
Proof.
  unfold root_leaves_node. intros H Ep. rewrite Ep in H.
  unfold bind, getattr in H.
  destruct (msgs_from_leaves (nodes s p)); [discriminate|].
  destruct (msg_from_parent (nodes s p)); [discriminate|].
  destruct (branch_length_interpolator (nodes s (v_node a))); [discriminate|].
  split; reflexivity.
Qed.

Lemma root_leaves_node_raises s a e :
  root_leaves_node s a = Raise e -> e = AttributeError.
Proof.
  unfold root_leaves_node, bind, getattr. intros H.
  destruct (v_up a) as [p|]; [|discriminate].
  destruct (msgs_from_leaves (nodes s p)); [injection H as <-; reflexivity|].
  destruct (msg_from_parent (nodes s p)); [injection H as <-; reflexivity|].
  destruct (branch_length_interpolator (nodes s (v_node a)));
    [injection H as <-; reflexivity|discriminate].
Qed.

Lemma downward_pass_needs (self self' : ClockTree) :
  _ml_t_root_leaves self = Ok self' ->
  parents_ready (tree self) (nodes self).
Proof.
  unfold _ml_t_root_leaves. intros E v p Iv Ep.
  apply in_split in Iv as [l1 [l2 El]].
  change (tree (logger self PropagatingRootLeaves 2 false)) with (tree self) in E.
  rewrite El in E.
  destruct (for_each_reached _ _ _ _ _ _ E) as (s1 & s2 & E1 & B & _).
  destruct (for_each_frame _ _ root_leaves_node_frame _ _ _ E1) as (_ & F & _).
  destruct (root_leaves_node_needs _ _ _ _ B Ep) as [H1 H2].
  pose proof (f_equal msgs_from_leaves (F p)) as K1; simpl in K1.
  pose proof (f_equal branch_length_interpolator (F (v_node v))) as K2; simpl in K2.
  rewrite K1 in H1. rewrite K2 in H2. split; assumption.
Qed.

(** X3: on a well-formed tree the downward pass returns exactly when every
    parent has its dict and every node with a parent its interpolator; it then
    assigns nothing but msg_from_parent, only at nodes of the tree, and logs
    its progress line.  Otherwise it raises AttributeError. *)
Theorem downward_pass_returns_iff (self : ClockTree) :
  wf (tree self) ->
  (parents_ready (tree self) (nodes self) ->
   exists self', _ml_t_root_leaves self = Ok self' /\
     touches forget_downward self self' /\
     out self' = out self ++ [Logged PropagatingRootLeaves 2 false]) /\
  (~ parents_ready (tree self) (nodes self) ->
   _ml_t_root_leaves self = Raise AttributeError).
Proof.
  intros W. split.
  - intros R. destruct (downward_pass_spec self W R) as [self' (E & _)].
    exists self'. split; [exact E|]. apply downward_pass_touches; exact E.
  - intros N. destruct (_ml_t_root_leaves self) as [self'|e] eqn:E.
    + exfalso. apply N. eapply downward_pass_needs; exact E.
    + f_equal. unfold _ml_t_root_leaves in E.
      exact (for_each_raises _ (fun e => e = AttributeError)
               root_leaves_node_raises _ _ _ E).
Qed.

Lemma child_is_node t v c :
  In v (find_clades Preorder t) -> In c (v_clades v) ->
  exists w, In w (find_clades Preorder t) /\ v_node w = c.
Proof.
  intros Iv Ic. apply in_postorder in Iv.
  apply in_split in Iv as [l1 [l2 E]].
  pose proof (children_before t l1 v l2 E c Ic) as K.
  unfold ids in K. apply in_map_iff in K as [w [Ew Iw]].
  exists w. split; [|exact Ew].
  apply in_postorder. rewrite E. apply in_or_app; left; exact Iw.
Qed.

Lemma parent_is_node t v p :
  In v (find_clades Preorder t) -> v_up v = Some p ->
  exists w, In w (find_clades Preorder t) /\ v_node w = p.
Proof.
  intros Iv Ep. apply in_split in Iv as [l1 [l2 E]].
  pose proof (parent_before t l1 v l2 p E Ep) as K.
  unfold ids in K. apply in_map_iff in K as [w [Ew Iw]].
  exists w. split; [|exact Ew].
  rewrite E. apply in_or_app; left; exact Iw.
Qed.

Lemma nodes_ready_children t s : nodes_ready t s -> children_ready t s.
Proof.
  intros R v c Iv Ic. destruct (child_is_node t v c Iv Ic) as [w [Iw <-]].
  apply R; exact Iw.
Qed.

Lemma upward_post_has_dict before after v :
  upward_post before after v ->
  hasattr (msgs_from_leaves (after (v_node v))) = true.
Proof.
  unfold upward_post, upward_leaf_rule, upward_rule.
  destruct (is_terminal v); intros [-> _]; reflexivity.
Qed.

(** After the upward pass the downward pass finds what it reads. *)
Lemma upward_pass_parents_ready (self self' : ClockTree) :
  wf (tree self) ->
  nodes_ready (tree self) (nodes self) ->
  _ml_t_leaves_root self = Ok self' ->
  parents_ready (tree self') (nodes self').
Proof.
  intros W R E.
  destruct (upward_pass_spec self W (nodes_ready_children _ _ R))
    as [s (E' & _ & P)].
  rewrite E in E'. injection E' as <-.
  destruct (upward_pass_touches _ _ E) as [((Ht & _) & F & _) _].
  rewrite Ht. intros v p Iv Ep. split.
  - destruct (parent_is_node _ v p Iv Ep) as [w [Iw <-]].
    eapply upward_post_has_dict. apply P. apply in_postorder; exact Iw.
  - pose proof (f_equal branch_length_interpolator (F (v_node v))) as K; simpl in K.
    rewrite K. apply R; exact Iv.
Qed.

Lemma complementary_child_messages s n cs :
  complementary (child_messages s cs) n =
  map Some (values (child_messages s (siblings n cs))).
Proof.
  unfold complementary, values, child_messages, siblings.
  rewrite map_map.
  induction cs as [|c cs IH]; simpl; [reflexivity|].
  rewrite filter_app, map_app.
  etransitivity; [apply (f_equal (fun l => _ ++ l)); exact IH|].
  unfold child_message at 1.
  destruct (Nat.eqb c n) eqn:K; simpl.
  - destruct (msg_to_parent (s c)) as [|[m|]]; simpl; rewrite ?K; reflexivity.
  - rewrite map_app. unfold child_message at 2.
    destruct (msg_to_parent (s c)) as [|[m|]]; simpl; rewrite ?K; reflexivity.
Qed.

Lemma child_messages_kept s s' cs :
  (forall c, forget_downward (s' c) = forget_downward (s c)) ->
  child_messages s' cs = child_messages s cs.
Proof.
  intros F. unfold child_messages.
  induction cs as [|c cs IH]; simpl; [reflexivity|].
  rewrite IH. f_equal. unfold child_message, the_interpolator.
  pose proof (f_equal msg_to_parent (F c)) as K1; simpl in K1.
  pose proof (f_equal branch_length_interpolator (F c)) as K2; simpl in K2.
  rewrite K1, K2. reflexivity.
Qed.

(** The two passes one after the other. *)
Lemma both_passes_spec (self : ClockTree) :
  wf (tree self) ->
  nodes_ready (tree self) (nodes self) ->
  exists up down,
    _ml_t_leaves_root self = Ok up /\ _ml_t_root_leaves up = Ok down /\
    tree down = tree self /\
    (forall n, forget_downward (nodes down n) = forget_downward (nodes up n)) /\
    (forall v, In v (find_clades Preorder (tree self)) ->
       upward_post (nodes self) (nodes up) v) /\
    forall pv v,
      In pv (find_clades Preorder (tree self)) ->
      In v (find_clades Preorder (tree self)) ->
      v_up v = Some (v_node pv) -> v_clades pv <> [] ->
      exists pm,
        msg_from_parent (nodes down (v_node pv)) = Has pm /\
        msg_from_parent (nodes down (v_node v)) =
        Has (Some (convolve
                     (multiply
                        (map Some (values (child_messages (nodes down)
                                             (siblings (v_node v) (v_clades pv))))
                         ++ match pm with Some m => [Some m] | None => [] end))
                     (the_interpolator (nodes down (v_node v))) (Some false))).
Proof.
  intros W R.
  destruct (upward_pass_spec self W (nodes_ready_children _ _ R))
    as [up (E1 & Ht1 & P1)].
  pose proof (upward_pass_parents_ready self up W R E1) as R2.
  assert (W2 : wf (tree up)) by (rewrite Ht1; exact W).
  destruct (downward_pass_spec up W2 R2) as [down (E2 & Ht2 & _ & F2 & P2)].
  exists up, down. split; [exact E1|]. split; [exact E2|].
  split; [congruence|]. split; [exact F2|].
  split; [intros v Iv; apply P1; apply in_postorder; exact Iv|].
  intros pv v Ipv Iv Ep Hc.
  rewrite Ht1 in P2. specialize (P2 v Iv). unfold downward_rule in P2.
  rewrite Ep in P2. destruct P2 as (d & pm & Hd & Hm & Hv).
  exists pm. split; [exact Hm|]. rewrite Hv. f_equal. f_equal. f_equal. f_equal.
  unfold complementary_messages. f_equal.
  assert (Pp : upward_post (nodes self) (nodes up) pv)
    by (apply P1; apply in_postorder; exact Ipv).
  assert (Tp : is_terminal pv = false)
    by (unfold is_terminal; destruct (v_clades pv); [contradiction|reflexivity]).
  unfold upward_post in Pp. rewrite Tp in Pp. destruct Pp as [Pd _].
  pose proof (f_equal msgs_from_leaves (F2 (v_node pv))) as K; simpl in K.
  rewrite K, Pd in Hd. injection Hd as <-.
  rewrite complementary_child_messages.
  rewrite (child_messages_kept (nodes up) (nodes down) _ F2). reflexivity.
Qed.

(** X4: run one after the other on a tree whose nodes all have a message
    attribute and an interpolator, the two passes return, and the message a
    node gets from its parent is the convolution, with inverse_time False, of
    its interpolator with the product of the messages of its siblings (those
    that have one, in the order of the children) followed by the parent's own
    incoming message if it has one. *)
Theorem passes_multiply_sibling_messages (self : ClockTree) :
  wf (tree self) ->
  nodes_ready (tree self) (nodes self) ->
  exists up down,
    _ml_t_leaves_root self = Ok up /\ _ml_t_root_leaves up = Ok down /\
    forall pv v,
      In pv (find_clades Preorder (tree self)) ->
      In v (find_clades Preorder (tree self)) ->
      v_up v = Some (v_node pv) -> v_clades pv <> [] ->
      exists pm,
        msg_from_parent (nodes down (v_node pv)) = Has pm /\
        msg_from_parent (nodes down (v_node v)) =
        Has (Some (convolve
                     (multiply
                        (map Some (values (child_messages (nodes down)
                                             (siblings (v_node v) (v_clades pv))))
                         ++ match pm with Some m => [Some m] | None => [] end))
                     (the_interpolator (nodes down (v_node v))) (Some false))).
Proof.
  intros W R.
  destruct (both_passes_spec self W R) as (up & down & E1 & E2 & _ & _ & _ & P).
  exists up, down. split; [exact E1|]. split; [exact E2|exact P].
Qed.

(** X5: the only child of the root gets the convolution of its interpolator
    with the product of no message at all: multiply is called on an empty
    list. *)
Theorem only_child_of_the_root (self : ClockTree) :
  wf (tree self) ->
  nodes_ready (tree self) (nodes self) ->
  exists up down,
    _ml_t_leaves_root self = Ok up /\ _ml_t_root_leaves up = Ok down /\
    forall pv v,
      In pv (find_clades Preorder (tree self)) ->
      In v (find_clades Preorder (tree self)) ->
      v_up pv = None -> v_up v = Some (v_node pv) ->
      v_clades pv = [v_node v] ->
      msg_from_parent (nodes down (v_node v)) =
      Has (Some (convolve (multiply [])
                          (the_interpolator (nodes down (v_node v))) (Some false))).
Proof.
  intros W R.
  destruct (both_passes_spec self W R)
    as (up & down & E1 & E2 & Ht & _ & _ & P).
  exists up, down. split; [exact E1|]. split; [exact E2|].
  intros pv v Ipv Iv Er Ep Ec.
  destruct (P pv v Ipv Iv Ep) as (pm & Hm & Hv); [rewrite Ec; discriminate|].
  rewrite Hv, Ec. unfold siblings. simpl. rewrite Nat.eqb_refl. simpl.
  assert (Em : pm = None).
  { destruct (downward_pass_spec up) as [d (E2' & _ & _ & _ & P2)].
    - rewrite (proj1 (proj1 (proj1 (upward_pass_touches _ _ E1)))). exact W.
    - eapply downward_pass_needs; exact E2.
    - rewrite E2 in E2'. injection E2' as <-.
      assert (Ipv' : In pv (find_clades Preorder (tree up))).
      { rewrite (proj1 (proj1 (proj1 (upward_pass_touches _ _ E1)))). exact Ipv. }
      specialize (P2 pv Ipv'). unfold downward_rule in P2. rewrite Er in P2.
      rewrite P2 in Hm. injection Hm as <-. reflexivity. }
  rewrite Em. reflexivity.
Qed.

End DownwardMore.

(** * Beyond the claims: finalization *)

Ltac raise_cases H :=
  unfold bind, getattr, collapse_func, date2dist, int_check in H;
  repeat match type of H with
         | context [match ?x with _ => _ end] =>
             lazymatch x with
             | context [match _ with _ => _ end] => fail
             | _ => destruct x eqn:?; simpl in H
             end
         end;
  first [discriminate H | injection H as <-; reflexivity].

Section FinalMore.

Context {L : Library}.

Lemma final_pass_touches (self self' : ClockTree) :
  _set_final_dates self = Ok self' ->
  touches forget_final self self' /\
  out self' = out self ++ [Logged SettingDates 2 false].
Proof.
  unfold _set_final_dates. intros E. split.
  - destruct (for_each_frame _ _ final_dates_node_frame _ _ _ E) as (O & F & U).
    split; [exact O|]. split; [exact F|exact U].
  - rewrite (for_each_out _ final_dates_node_out _ _ _ E). reflexivity.
Qed.

Lemma final_dates_node_needs s a s' :
  final_dates_node s a = Ok s' ->
  match v_up a with
  | None => exists m, msg_to_parent (nodes s (v_node a)) = Has (Some m)
  | Some _ =>
      hasattr (msg_from_parent (nodes s (v_node a))) = true /\
      hasattr (msg_to_parent (nodes s (v_node a))) = true /\
      hasattr (branch_length_interpolator (nodes s (v_node a))) = true
  end.
Proof.
  unfold final_dates_node. cbv zeta. intros H.
  destruct (v_up a) as [p|].
  - unfold bind, getattr in H.
    destruct (msg_from_parent (nodes s (v_node a))); [discriminate|].
    destruct (msg_to_parent (nodes s (v_node a))); [discriminate|].
    simpl in H. rewrite update_same in H. simpl in H.
    destruct (branch_length_interpolator (nodes s (v_node a))); [discriminate|].
    repeat split.
  - unfold bind, getattr in H.
    destruct (msg_to_parent (nodes s (v_node a))) as [|[m|]] eqn:Em;
      [discriminate|exists m; reflexivity|].
    simpl in H. rewrite update_same in H. simpl in H. rewrite Em in H.
    simpl in H. rewrite update_same in H. simpl in H. discriminate H.
Qed.

Lemma final_dates_node_raises s a e :
  final_dates_node s a = Raise e -> e = AttributeError.
Proof.
  unfold final_dates_node. cbv zeta. intros H.
  match type of H with
  | bind ?X _ = _ => destruct X as [s2|e2] eqn:E2
  end.
  - simpl in H.
    match type of H with
    | bind ?X _ = _ => destruct X as [s3|e3] eqn:E3
    end.
    + simpl in H. discriminate H.
    + simpl in H. injection H as <-. raise_cases E3.
  - simpl in H. injection H as <-. raise_cases E2.
Qed.

Lemma final_pass_needs (self self' : ClockTree) :
  _set_final_dates self = Ok self' ->
  final_ready (tree self) (nodes self).
Proof.
  unfold _set_final_dates. intros E v Iv.
  apply in_split in Iv as [l1 [l2 El]].
  change (tree (logger self SettingDates 2 false)) with (tree self) in E.
  rewrite El in E.
  destruct (for_each_reached _ _ _ _ _ _ E) as (s1 & s2 & E1 & B & _).
  destruct (for_each_frame _ _ final_dates_node_frame _ _ _ E1) as (_ & F & _).
  pose proof (final_dates_node_needs _ _ _ B) as N.
  pose proof (f_equal msg_from_parent (F (v_node v))) as K1; simpl in K1.
  pose proof (f_equal msg_to_parent (F (v_node v))) as K2; simpl in K2.
  pose proof (f_equal branch_length_interpolator (F (v_node v))) as K3; simpl in K3.
  rewrite K1, K2, K3 in N. exact N.
Qed.

(** X6: on a well-formed tree finalization returns exactly when the root
    has a message and every other node has msg_from_parent, msg_to_parent and
    its interpolator; it then assigns nothing but marginal_lh, joint_lh,
    time_before_present, branch_length and clock_length, only at nodes of
    the tree, and logs its progress line.  Otherwise it raises
    AttributeError: so it does on a tree whose root got no message. *)
Theorem final_dates_returns_iff (self : ClockTree) :
  wf (tree self) ->
  (final_ready (tree self) (nodes self) ->
   exists self', _set_final_dates self = Ok self' /\
     touches forget_final self self' /\
     out self' = out self ++ [Logged SettingDates 2 false]) /\
  (~ final_ready (tree self) (nodes self) ->
   _set_final_dates self = Raise AttributeError).
Proof.
  intros W. split.
  - intros R. destruct (final_dates_spec self W R) as [self' (E & _)].
    exists self'. split; [exact E|]. apply final_pass_touches; exact E.
  - intros N. destruct (_set_final_dates self) as [self'|e] eqn:E.
    + exfalso. apply N. eapply final_pass_needs; exact E.
    + f_equal. unfold _set_final_dates in E.
      exact (for_each_raises _ (fun e => e = AttributeError)
               final_dates_node_raises _ _ _ E).
Qed.

(** X7: finalization at the root and the marginal of the other nodes.  The
    root's marginal_lh and joint_lh are its msg_to_parent, its time the peak
    position of that message, its branch_length and clock_length the
    engine's one_mutation; every other node's marginal_lh is the product of
    the pair (msg_from_parent, msg_to_parent). *)
Theorem final_dates_root_and_marginals (self : ClockTree) :
  wf (tree self) ->
  final_ready (tree self) (nodes self) ->
  exists self', _set_final_dates self = Ok self' /\
    forall v, In v (find_clades Preorder (tree self)) ->
      match v_up v with
      | None =>
          exists m,
            msg_to_parent (nodes self (v_node v)) = Has (Some m) /\
            marginal_lh (nodes self' (v_node v)) = Has (Some m) /\
            joint_lh (nodes self' (v_node v)) = Has (Some m) /\
            time_before_present (nodes self' (v_node v)) = Has (peak_pos m) /\
            branch_length (nodes self' (v_node v)) = Some (one_mutation self) /\
            clock_length (nodes self' (v_node v)) = Has (Some (one_mutation self))
      | Some _ =>
          marginal_lh (nodes self' (v_node v)) =
          Has (Some (multiply
                       [the_value (msg_from_parent (nodes self (v_node v)));
                        the_value (msg_to_parent (nodes self (v_node v)))]))
      end.
Proof.
  intros W R. destruct (final_dates_spec self W R) as [self' (E & _ & _ & _ & P)].
  exists self'. split; [exact E|].
  intros v Iv. specialize (P v Iv). unfold final_rule in P.
  destruct (v_up v); [|exact P].
  destruct P as (tp & _ & H & _). exact H.
Qed.

Lemma joint_posterior_kept (nd nd' : Node) tp :
  forget_final nd' = forget_final nd ->
  joint_posterior nd' tp = joint_posterior nd tp.
Proof.
  intros F. unfold joint_posterior, transformed_interpolator, the_interpolator.
  pose proof (f_equal msg_to_parent F) as K1; simpl in K1.
  pose proof (f_equal branch_length_interpolator F) as K2; simpl in K2.
  rewrite K1, K2. reflexivity.
Qed.

Lemma node_ext_final (a b : Node) :
  forget_final a = forget_final b ->
  marginal_lh a = marginal_lh b -> joint_lh a = joint_lh b ->
  time_before_present a = time_before_present b ->
  branch_length a = branch_length b -> clock_length a = clock_length b ->
  a = b.
Proof.
  destruct a, b. unfold forget_final, set_marginal_lh, set_joint_lh,
    set_time_before_present, set_branch_length, set_clock_length. simpl.
  intros F -> -> -> -> ->. injection F as -> -> -> -> -> -> -> -> -> ->.
  reflexivity.
Qed.

(** X8: finalization run a second time returns and leaves every node as
    the first run left it; only the progress line is logged again. *)
Theorem final_dates_twice (self : ClockTree) :
  wf (tree self) ->
  final_ready (tree self) (nodes self) ->
  exists once twice,
    _set_final_dates self = Ok once /\ _set_final_dates once = Ok twice /\
    (forall n, nodes twice n = nodes once n) /\
    out twice = out once ++ [Logged SettingDates 2 false].
Proof.
  intros W R.
  destruct (final_dates_spec self W R) as [s1 (E1 & Ht1 & _ & F1 & P1)].
  destruct (final_pass_touches _ _ E1) as [((_ & _ & Om & _) & _ & _) _].
  assert (W1 : wf (tree s1)) by (rewrite Ht1; exact W).
  assert (R1 : final_ready (tree s1) (nodes s1)).
  { rewrite Ht1. intros v Iv. specialize (R v Iv).
    pose proof (f_equal msg_from_parent (F1 (v_node v))) as K1; simpl in K1.
    pose proof (f_equal msg_to_parent (F1 (v_node v))) as K2; simpl in K2.
    pose proof (f_equal branch_length_interpolator (F1 (v_node v))) as K3;
      simpl in K3.
    rewrite K1, K2, K3. exact R. }
  destruct (final_dates_spec s1 W1 R1) as [s2 (E2 & _ & Ho2 & F2 & P2)].
  destruct (final_pass_touches _ _ E2) as [(_ & _ & U2) _].
  rewrite Ht1, Om in *.
  exists s1, s2. split; [exact E1|]. split; [exact E2|]. split; [|exact Ho2].
  assert (Q : forall l1 l2, find_clades Preorder (tree self) = l1 ++ l2 ->
              forall v, In v l1 -> nodes s2 (v_node v) = nodes s1 (v_node v)).
  { induction l1 as [|a l1 IH] using rev_ind; intros l2 El v Iv; [destruct Iv|].
    rewrite <- app_assoc in El. change ([a] ++ l2) with (a :: l2) in El.
    apply in_app_or in Iv as [Iv|[<-|[]]]; [exact (IH _ El v Iv)|].
    assert (Ia : In a (find_clades Preorder (tree self))).
    { rewrite El. apply in_or_app; right; left; reflexivity. }
    specialize (P1 a Ia). specialize (P2 a Ia). unfold final_rule in P1, P2.
    pose proof (F1 (v_node a)) as Fa.
    pose proof (f_equal msg_from_parent Fa) as K1; simpl in K1.
    pose proof (f_equal msg_to_parent Fa) as K2; simpl in K2.
    apply node_ext_final; [apply F2| | | | |].
    all: destruct (v_up a) as [p|] eqn:Ep.
    all: try (destruct P1 as (m1 & A0 & A1 & A2 & A3 & A4 & A5);
              destruct P2 as (m2 & B0 & B1 & B2 & B3 & B4 & B5);
              rewrite K2, A0 in B0; injection B0 as <-; congruence).
    all: destruct P1 as (tp1 & A0 & A1 & A2 & A3 & A4 & A5);
         destruct P2 as (tp2 & B0 & B1 & B2 & B3 & B4 & B5).
    all: assert (Et : tp2 = tp1);
         [pose proof (parent_before _ _ _ _ p El Ep) as Ip;
          unfold ids in Ip; apply in_map_iff in Ip as [w [Ew Iw]];
          pose proof (IH _ El w Iw) as Kw; rewrite Ew in Kw;
          rewrite Kw, A0 in B0; injection B0 as <-; reflexivity|].
    all: rewrite (joint_posterior_kept _ _ tp2 Fa), Et in *.
    all: rewrite ?K1, ?K2 in *; congruence. }
  intros n.
  destruct (in_dec Nat.eq_dec n (ids (find_clades Preorder (tree self)))) as [I|N].
  - unfold ids in I. apply in_map_iff in I as [v [<- Iv]].
    exact (Q _ [] (eq_sym (app_nil_r _)) v Iv).
  - apply U2. exact N.
Qed.

End FinalMore.

(** * Beyond the claims: calendar dates *)

Section ConvertMore.

Context {L : Library} {V : Services}.

Lemma convert_node_frame now s a s' :
  convert_node now s a = Ok s' ->
  same_object s s' /\
  (forall n, forget_convert (nodes s' n) = forget_convert (nodes s n)) /\
  (forall n, n <> v_node a -> nodes s' n = nodes s n).
Proof.
  unfold convert_node. intros H.
  unfold bind, getattr, date2dist in H.
  destruct (_date2dist s); [|discriminate].
  destruct (time_before_present (nodes s (v_node a))); [discriminate|].
  simpl in H. rewrite update_same in H. simpl in H.
  unfold int_check in H.
  destruct (is_nan _); [discriminate|].
  destruct (is_infinity _); [discriminate|].
  injection H as <-.
  destruct (_ <? _)%float; [destruct (_ || _)|]; frame_step.
Qed.

Lemma convert_pass_touches (self self' : ClockTree) :
  convert_dates self = Ok self' -> touches forget_convert self self'.
Proof.
  unfold convert_dates. intros E.
  destruct (for_each_frame _ _ (convert_node_frame numeric_date) _ _ _ E)
    as (O & F & U).
  split; [exact O|]. split; [exact F|exact U].
Qed.

Lemma convert_node_outcome s a dc :
  _date2dist s = Some dc ->
  match conversion_failure dc (nodes s (v_node a)) with
  | Some e => convert_node numeric_date s a = Raise e
  | None => exists s', convert_node numeric_date s a = Ok s'
  end.
Proof.
  intros Ed. unfold conversion_failure, year, convert_node, date2dist.
  rewrite Ed. simpl.
  destruct (time_before_present (nodes s (v_node a))) as [|x]; [reflexivity|].
  simpl. rewrite update_same. simpl. unfold int_check.
  destruct (is_nan _); [reflexivity|].
  destruct (is_infinity _); [reflexivity|].
  simpl. eexists; reflexivity.
Qed.

Lemma conversion_ready dc t s :
  convert_ready dc t s <->
  forall v, In v (find_clades Preorder t) ->
    conversion_failure dc (s (v_node v)) = None.
Proof.
  unfold convert_ready, conversion_failure, year. split; intros H v Iv.
  - destruct (H v Iv) as (x & -> & -> & ->). reflexivity.
  - specialize (H v Iv).
    destruct (time_before_present (s (v_node v))) as [|x]; [discriminate|].
    exists x. split; [reflexivity|].
    destruct (is_nan _); [discriminate|].
    destruct (is_infinity _); [discriminate|]. split; reflexivity.
Qed.

Lemma conversion_failure_kept dc (nd nd' : Node) :
  forget_convert nd' = forget_convert nd ->
  conversion_failure dc nd' = conversion_failure dc nd.
Proof.
  intros F. unfold conversion_failure.
  pose proof (f_equal time_before_present F) as K; simpl in K.
  rewrite K. reflexivity.
Qed.

Lemma convert_pass_needs (self self' : ClockTree) :
  convert_dates self = Ok self' ->
  exists dc, _date2dist self = Some dc /\
             convert_ready dc (tree self) (nodes self).
Proof.
  unfold convert_dates. intros E.
  destruct (_date2dist self) as [dc|] eqn:Ed.
  - exists dc. split; [reflexivity|]. apply conversion_ready. intros v Iv.
    apply in_split in Iv as [l1 [l2 El]]. rewrite El in E.
    destruct (for_each_reached _ _ _ _ _ _ E) as (s1 & s2 & E1 & B & _).
    destruct (for_each_frame _ _ (convert_node_frame numeric_date) _ _ _ E1)
      as ((_ & _ & _ & Hd & _) & F & _).
    rewrite Ed in Hd.
    pose proof (convert_node_outcome s1 v dc Hd) as K.
    rewrite (conversion_failure_kept dc _ _ (F (v_node v))) in K.
    destruct (conversion_failure dc (nodes self (v_node v))); [|reflexivity].
    rewrite B in K. discriminate K.
  - exfalso. destruct (tree self) as [n cs]. simpl in E.
    unfold convert_node at 1 in E. unfold date2dist in E. rewrite Ed in E.
    simpl in E. discriminate E.
Qed.

(** X9: convert_dates returns exactly when the engine has a calibration and
    every node of the tree has a time whose decimal year is a finite number.
    It then assigns nothing but numdate and date, only at nodes of the tree,
    and logs one warning for every node that comes out after today, in
    preorder, and nothing else.  Without a calibration it raises
    AttributeError. *)
Theorem convert_dates_returns_iff (self : ClockTree) :
  wf (tree self) ->
  ((exists self', convert_dates self = Ok self') <->
   (exists dc, _date2dist self = Some dc /\
               convert_ready dc (tree self) (nodes self))) /\
  (forall self', convert_dates self = Ok self' ->
     touches forget_convert self self' /\
     exists dc, _date2dist self = Some dc /\
       out self' = out self ++
         flat_map (date_events dc (nodes self)) (find_clades Preorder (tree self))) /\
  (_date2dist self = None -> convert_dates self = Raise AttributeError).
Proof.
  intros W. split; [|split].
  - split.
    + intros [self' E]. eapply convert_pass_needs; exact E.
    + intros (dc & Ed & R).
      destruct (convert_dates_spec self dc W Ed R) as [self' (E & _)].
      exists self'; exact E.
  - intros self' E. split; [apply convert_pass_touches; exact E|].
    destruct (convert_pass_needs _ _ E) as (dc & Ed & R).
    destruct (convert_dates_spec self dc W Ed R) as [s (E' & _ & Ho & _)].
    rewrite E in E'. injection E' as <-.
    exists dc. split; [exact Ed|exact Ho].
  - intros Ed. unfold convert_dates. destruct (tree self) as [n cs]. simpl.
    unfold convert_node at 1. unfold date2dist. rewrite Ed. reflexivity.
Qed.

Lemma for_each_stops (body : ClockTree -> visit -> res ClockTree) :
  forall l1 a l2 s s1 e,
    for_each body l1 s = Ok s1 -> body s1 a = Raise e ->
    for_each body (l1 ++ a :: l2) s = Raise e.
Proof.
  induction l1 as [|b l1 IH]; intros a l2 s s1 e E B; simpl in *.
  - injection E as <-. rewrite B. reflexivity.
  - destruct (body s b) as [s0|]; simpl in *; [|discriminate].
    eapply IH; eassumption.
Qed.

Lemma convert_prefix dc : forall l s,
  _date2dist s = Some dc ->
  (forall w, In w l -> conversion_failure dc (nodes s (v_node w)) = None) ->
  exists s', for_each (convert_node numeric_date) l s = Ok s' /\
    _date2dist s' = Some dc /\
    forall n, forget_convert (nodes s' n) = forget_convert (nodes s n).
Proof.
  induction l as [|a l IH]; intros s Ed H.
  - exists s. split; [reflexivity|]. split; [exact Ed|reflexivity].
  - pose proof (convert_node_outcome s a dc Ed) as K.
    rewrite (H a (or_introl eq_refl)) in K. destruct K as [s1 B].
    destruct (convert_node_frame _ _ _ _ B) as ((_ & _ & _ & Hd & _) & F & _).
    rewrite Ed in Hd.
    destruct (IH s1 Hd) as [s' (E & Hd' & F')].
    + intros w Iw. rewrite (conversion_failure_kept dc _ _ (F (v_node w))).
      apply H; right; exact Iw.
    + exists s'. simpl. rewrite B. simpl. split; [exact E|]. split; [exact Hd'|].
      intros n. rewrite F'. apply F.
Qed.

(** X10: what convert_dates raises.  With a calibration, the first node in
    preorder that cannot be converted decides: AttributeError when it has no
    time, ValueError when its year is not a number, OverflowError when its
    year is infinite. *)
Theorem convert_dates_first_failure (self : ClockTree) (dc : DateConversion)
    (l1 l2 : list visit) (v : visit) (e : exn) :
  _date2dist self = Some dc ->
  find_clades Preorder (tree self) = l1 ++ v :: l2 ->
  (forall w, In w l1 -> conversion_failure dc (nodes self (v_node w)) = None) ->
  conversion_failure dc (nodes self (v_node v)) = Some e ->
  convert_dates self = Raise e.
Proof.
  intros Ed El H1 Hv. unfold convert_dates. rewrite El.
  destruct (convert_prefix dc l1 self Ed H1) as [s1 (E1 & Hd & F)].
  apply (for_each_stops _ l1 v l2 self s1 e E1).
  pose proof (convert_node_outcome s1 v dc Hd) as K.
  rewrite (conversion_failure_kept dc _ _ (F (v_node v))), Hv in K. exact K.
Qed.

Lemma date_events_future dc s l :
  flat_map (date_events dc s) l =
  map (fun v => Logged (if marked_bad (s (v_node v))
                        then LaterThanTodayBad else LaterThanTodayError) 4 true)
      (filter (fun v => match time_before_present (s (v_node v)) with
                        | Has x => (get_date dc x <? 0)%float
                        | Missing => false
                        end) l).
Proof.
  induction l as [|a l IH]; simpl; [reflexivity|].
  rewrite IH. unfold date_events at 1.
  destruct (time_before_present (s (v_node a))) as [|x]; [reflexivity|].
  destruct (get_date dc x <? 0)%float; reflexivity.
Qed.

(** X11: the log of convert_dates.  It grows by one warning (level 4) per
    node of the tree dated after today, in preorder: the message for bad
    branches when the node is marked bad, the error message otherwise.  When
    no node is after today nothing is logged. *)
Theorem convert_dates_log (self : ClockTree) (dc : DateConversion) :
  wf (tree self) ->
  _date2dist self = Some dc ->
  convert_ready dc (tree self) (nodes self) ->
  exists self', convert_dates self = Ok self' /\
    out self' = out self ++
      map (fun v => Logged (if marked_bad (nodes self (v_node v))
                            then LaterThanTodayBad else LaterThanTodayError) 4 true)
          (future_nodes dc (tree self) (nodes self)) /\
    (future_nodes dc (tree self) (nodes self) = [] -> out self' = out self).
Proof.
  intros W Ed R.
  destruct (convert_dates_spec self dc W Ed R) as [self' (E & _ & Ho & _)].
  exists self'. split; [exact E|].
  rewrite date_events_future in Ho. fold (future_nodes dc (tree self) (nodes self)) in Ho.
  split; [exact Ho|].
  intros N. rewrite Ho, N. apply app_nil_r.
Qed.

Lemma node_ext_convert (a b : Node) :
  forget_convert a = forget_convert b ->
  numdate a = numdate b -> date a = date b -> a = b.
Proof.
  destruct a, b. unfold forget_convert, set_numdate, set_date. simpl.
  intros F -> ->. injection F as -> -> -> -> -> -> -> -> -> -> -> -> ->.
  reflexivity.
Qed.

(** X12: convert_dates run a second time returns and leaves every node as
    the first run left it; the warnings of the first run are logged again. *)
Theorem convert_dates_twice (self : ClockTree) (dc : DateConversion) :
  wf (tree self) ->
  _date2dist self = Some dc ->
  convert_ready dc (tree self) (nodes self) ->
  exists once twice,
    convert_dates self = Ok once /\ convert_dates once = Ok twice /\
    (forall n, nodes twice n = nodes once n) /\
    out twice = out once ++
      flat_map (date_events dc (nodes self)) (find_clades Preorder (tree self)).
Proof.
  intros W Ed R.
  destruct (convert_dates_spec self dc W Ed R) as [s1 (E1 & Ht1 & _ & F1 & P1)].
  destruct (convert_pass_touches _ _ E1) as ((_ & _ & _ & Hd & _) & _ & _).
  rewrite Ed in Hd.
  assert (W1 : wf (tree s1)) by (rewrite Ht1; exact W).
  assert (R1 : convert_ready dc (tree s1) (nodes s1)).
  { rewrite Ht1. apply conversion_ready. intros v Iv.
    rewrite (conversion_failure_kept dc _ _ (F1 (v_node v))).
    revert v Iv. apply conversion_ready. exact R. }
  destruct (convert_dates_spec s1 dc W1 Hd R1) as [s2 (E2 & _ & Ho2 & F2 & P2)].
  destruct (convert_pass_touches _ _ E2) as (_ & _ & U2).
  rewrite Ht1 in *.
  exists s1, s2. split; [exact E1|]. split; [exact E2|]. split.
  - intros n.
    destruct (in_dec Nat.eq_dec n (ids (find_clades Preorder (tree self)))) as [I|N];
      [|apply U2; exact N].
    unfold ids in I. apply in_map_iff in I as [v [<- Iv]].
    destruct (P1 v Iv) as (t1 & A0 & A1 & A2).
    destruct (P2 v Iv) as (t2 & B0 & B1 & B2).
    pose proof (f_equal time_before_present (F1 (v_node v))) as K; simpl in K.
    rewrite K, A0 in B0. injection B0 as <-.
    apply node_ext_convert; [apply F2|congruence|congruence].
  - rewrite Ho2. f_equal. apply flat_map_ext. intros v.
    apply date_events_ext. apply F1.
Qed.

End ConvertMore.

(** * Beyond the claims: init_date_constraints *)

Section InitMore.

Context {L : Library} {V : Services}.

Lemma init_interpolator_frame s a s' :
  init_interpolator s a = Ok s' ->
  same_object s s' /\
  (forall n, forget_interpolator (nodes s' n) = forget_interpolator (nodes s n)) /\
  (forall n, n <> v_node a -> nodes s' n = nodes s n).
Proof.
  unfold init_interpolator. intros H.
  destruct (v_up a); injection H as <-; frame_step.
Qed.

Lemma init_interpolator_out s a s' :
  init_interpolator s a = Ok s' -> out s' = out s.
Proof.
  unfold init_interpolator. intros H.
  destruct (v_up a); injection H as <-; reflexivity.
Qed.

Lemma init_constraint_frame s a s' :
  init_constraint s a = Ok s' ->
  same_object s s' /\
  (forall n, forget_constraints (nodes s' n) = forget_constraints (nodes s n)) /\
  (forall n, n <> v_node a -> nodes s' n = nodes s n).
Proof.
  unfold init_constraint. intros H. step_cases H; frame_step.
Qed.

Lemma in_ids_test n (l : list visit) :
  existsb (Nat.eqb n) (ids l) = true <-> In n (ids l).
Proof.
  rewrite existsb_exists. split.
  - intros (x & Ix & E). apply Nat.eqb_eq in E. subst x. exact Ix.
  - intros I. exists n. split; [exact I|apply Nat.eqb_refl].
Qed.

Lemma seen_before_ext entry after after' done :
  (forall n, In n (ids done) ->
     branch_length_interpolator (after' n) = branch_length_interpolator (after n)) ->
  forall n, seen_before entry after' done n = seen_before entry after done n.
Proof.
  intros H n. unfold seen_before.
  destruct (existsb (Nat.eqb n) (ids done)) eqn:T; [|reflexivity].
  rewrite (H n (proj1 (in_ids_test n done) T)). reflexivity.
Qed.

Lemma interpolator_rule_ext entry after after' done v :
  (forall n, In n (ids done) \/ n = v_node v ->
     branch_length_interpolator (after' n) = branch_length_interpolator (after n)) ->
  interpolator_rule entry after done v -> interpolator_rule entry after' done v.
Proof.
  intros E. unfold interpolator_rule.
  rewrite (E (v_node v) (or_intror eq_refl)).
  destruct (v_up v); [|tauto].
  intros (seen & Hs & Hv). exists seen. split; [|exact Hv].
  intros k. rewrite Hs. symmetry. apply seen_before_ext.
  intros m Im. apply E. left; exact Im.
Qed.

Lemma with_own_interpolator (a b : Node) :
  forget_interpolator a = forget_interpolator b ->
  a = set_branch_length_interpolator (branch_length_interpolator a) b.
Proof.
  destruct a, b. unfold forget_interpolator, set_branch_length_interpolator.
  simpl. intros F. injection F as -> -> -> -> -> -> -> -> -> -> -> -> -> ->.
  reflexivity.
Qed.

Lemma init_interpolators_values (self : ClockTree) :
  wf (tree self) ->
  exists self',
    for_each init_interpolator (find_clades Preorder (tree self)) self = Ok self' /\
    forall done v rest,
      find_clades Preorder (tree self) = done ++ v :: rest ->
      interpolator_rule self (nodes self') done v.
Proof.
  intros W.
  pose (I := fun (done : list visit) (s : ClockTree) =>
    same_object self s /\
    (forall n, forget_interpolator (nodes s n) = forget_interpolator (nodes self n)) /\
    (forall n, ~ In n (ids done) -> nodes s n = nodes self n) /\
    (forall d v r, done = d ++ v :: r -> interpolator_rule self (nodes s) d v)).
  assert (Step : forall done a rest s,
             find_clades Preorder (tree self) = done ++ a :: rest ->
             I done s ->
             exists s', init_interpolator s a = Ok s' /\ I (done ++ [a]) s').
  { intros done a rest s E (O & Hf & Hu & Hp).
    destruct (split_fresh _ _ _ _ W E) as [Fa _].
    destruct (init_interpolator s a) as [s'|] eqn:B;
      [|unfold init_interpolator in B; destruct (v_up a); discriminate B].
    exists s'. split; [reflexivity|].
    destruct (init_interpolator_frame _ _ _ B) as (O' & F' & U').
    split; [eapply same_object_trans; eassumption|].
    split; [intros n; rewrite F'; apply Hf|].
    split.
    { intros n Hn. rewrite ids_app in Hn.
      rewrite U', Hu; [reflexivity| |].
      - intros K. apply Hn. apply in_or_app; left; exact K.
      - intros K. apply Hn. apply in_or_app; right; left; symmetry; exact K. }
    intros d v r Ed.
    destruct r as [|x r] using rev_ind.
    - apply app_inj_tail in Ed as [<- <-].
      destruct O as (Ot & Og & Om & _).
      unfold init_interpolator in B. unfold interpolator_rule.
      destruct (v_up a); injection B as <-; simpl; rewrite update_same; simpl;
        [|reflexivity].
      exists (nodes s). split; [|rewrite Ot, Og, Om; reflexivity].
      intros k. unfold seen_before.
      destruct (existsb (Nat.eqb k) (ids done)) eqn:T.
      + apply in_ids_test in T.
        rewrite update_other by (intros K; apply Fa; rewrite <- K; exact T).
        apply with_own_interpolator. apply Hf.
      + apply Hu. intros K. apply in_ids_test in K. congruence.
    - clear IHr.
      change (d ++ v :: r ++ [x]) with (d ++ (v :: r) ++ [x]) in Ed.
      rewrite app_assoc in Ed. apply app_inj_tail in Ed as [Ed <-].
      apply (interpolator_rule_ext self (nodes s)); [|apply (Hp d v r Ed)].
      intros n Hn. rewrite U'; [reflexivity|].
      intros K. apply Fa. rewrite <- K, Ed, ids_app. apply in_or_app.
      destruct Hn as [Hn| ->]; [left; exact Hn|right; left; reflexivity]. }
  destruct (for_each_invariant _ _ _ I _ Step self) as [self' (E & _ & _ & _ & P)].
  - split; [apply same_object_refl|]. split; [reflexivity|].
    split; [reflexivity|]. intros d v r K. destruct d; discriminate K.
  - exists self'. split; [exact E|exact P].
Qed.

(** init_date_constraints in full, from the state its loops find. *)
Lemma init_date_constraints_full ancestral_inference slope_arg kwarks
    (self : ClockTree) :
  let entry := init_entry ancestral_inference kwarks self in
  wf (tree entry) ->
  exists self' seen,
    let dc := from_tree (tree entry) seen slope_arg in
    init_date_constraints ancestral_inference slope_arg kwarks self = Ok self' /\
    (forall n, forget_interpolator (seen n) = forget_interpolator (nodes entry n)) /\
    (forall n, branch_length_interpolator (seen n) =
               branch_length_interpolator (nodes self' n)) /\
    tree self' = tree entry /\ gtr self' = gtr entry /\
    one_mutation self' = one_mutation entry /\
    _date2dist self' = Some dc /\ max_diam self' = intercept dc /\
    out self' =
      out entry ++
      [Printed InitializingInterpolators;
       Logged (SettingConversion (slope dc) (r_val dc)) 2 false] ++
      flat_map (demotions (nodes entry)) (find_clades Preorder (tree entry)) /\
    (forall n, forget_init (nodes self' n) = forget_init (nodes entry n)) /\
    (forall n, ~ In n (ids (find_clades Preorder (tree entry))) ->
               nodes self' n = nodes entry n) /\
    (forall done v rest,
       find_clades Preorder (tree entry) = done ++ v :: rest ->
       interpolator_rule entry (nodes self') done v) /\
    forall v, In v (find_clades Preorder (tree entry)) ->
      constraint_rule dc (nodes entry) (nodes self') v.
Proof.
  intros entry W. unfold init_date_constraints.
  fold (init_entry ancestral_inference kwarks self). fold entry.
  unfold init_conversion.
  set (self1 := print entry InitializingInterpolators).
  assert (W1 : wf (tree self1)) by exact W.
  destruct (init_interpolators_values self1 W1) as [s2 (E2 & Hb2)].
  destruct (for_each_frame _ _ init_interpolator_frame _ _ _ E2)
    as ((Ht2 & Hg2 & Hm2 & _) & Hf2 & Hu2).
  pose proof (for_each_out _ init_interpolator_out _ _ _ E2) as Ho2.
  change (tree self1) with (tree entry) in *. rewrite E2. simpl bind.
  set (dc := from_tree (tree s2) (nodes s2) slope_arg).
  unfold date2dist. simpl.
  set (self4 := set_max_diam _ _).
  assert (Ht4 : tree self4 = tree entry) by (simpl; exact Ht2).
  assert (W4 : wf (tree self4)) by (rewrite Ht4; exact W).
  destruct (init_constraints_spec self4 dc W4 eq_refl)
    as [self' (E & Ht & Hd & Hx & Ho & Hf & P)].
  change (preorder_from None (tree s2)) with (find_clades Preorder (tree self4)).
  rewrite E.
  destruct (for_each_frame _ _ init_constraint_frame _ _ _ E)
    as ((_ & Hg & Hm & _) & _ & Hu).
  rewrite Ht4 in *.
  exists self', (nodes s2). cbv zeta.
  split; [reflexivity|].
  split; [exact Hf2|].
  split.
  { intros n. pose proof (f_equal branch_length_interpolator (Hf n)) as K.
    simpl in K. symmetry; exact K. }
  split; [exact Ht|].
  split; [rewrite Hg; exact Hg2|].
  split; [rewrite Hm; exact Hm2|].
  assert (Edc : from_tree (tree entry) (nodes s2) slope_arg = dc)
    by (unfold dc; rewrite Ht2; reflexivity).
  rewrite Edc.
  split; [exact Hd|]. split; [exact Hx|].
  split.
  { rewrite Ho. simpl. rewrite Ho2. simpl. rewrite <- !app_assoc. simpl.
    do 3 f_equal. apply flat_map_ext. intros v.
    apply demotions_ext. apply (Hf2 (v_node v)). }
  split.
  { intros n. unfold forget_init.
    pose proof (Hf n) as K1. pose proof (Hf2 n) as K2.
    change (nodes self4 n) with (nodes s2 n) in K1.
    change (nodes self1 n) with (nodes entry n) in K2.
    rewrite K1, forget_init_commutes, K2, <- forget_init_commutes. reflexivity. }
  split.
  { intros n Hn. rewrite (Hu n Hn). apply (Hu2 n Hn). }
  split.
  - intros done v rest El.
    change (interpolator_rule self1 (nodes self') done v).
    apply (interpolator_rule_ext self1 (nodes s2)); [|apply (Hb2 done v rest El)].
    intros n _.
    pose proof (f_equal branch_length_interpolator (Hf n)) as K; simpl in K.
    exact K.
  - intros v Iv.
    apply (constraint_rule_ext dc (nodes self4) (nodes entry) (nodes self') (nodes self'));
      [symmetry; apply (Hf2 (v_node v))|reflexivity|apply P; exact Iv].
Qed.


(** X13: the calibration of init_date_constraints.  It is fitted by
    from_tree on the tree once every interpolator is in place, stored through
    the date2dist setter, which logs its slope and r_val, and max_diam becomes
    its intercept; tree, gtr and one_mutation stay.  The output grows by
    exactly the interpolator banner, the setter's line and one warning per
    demoted node, in this order. *)
Theorem init_date_constraints_calibration ancestral_inference slope_arg kwarks
    (self : ClockTree) :
  let entry := init_entry ancestral_inference kwarks self in
  wf (tree entry) ->
  exists self' seen,
    let dc := from_tree (tree entry) seen slope_arg in
    init_date_constraints ancestral_inference slope_arg kwarks self = Ok self' /\
    (forall n, forget_interpolator (seen n) = forget_interpolator (nodes entry n)) /\
    (forall n, branch_length_interpolator (seen n) =
               branch_length_interpolator (nodes self' n)) /\
    _date2dist self' = Some dc /\ max_diam self' = intercept dc /\
    tree self' = tree entry /\ gtr self' = gtr entry /\
    one_mutation self' = one_mutation entry /\
    out self' =
      out entry ++
      [Printed InitializingInterpolators;
       Logged (SettingConversion (slope dc) (r_val dc)) 2 false] ++
      flat_map (demotions (nodes entry)) (find_clades Preorder (tree entry)).
Proof.
  intros entry W.
  destruct (init_date_constraints_full ancestral_inference slope_arg kwarks self W)
    as (self' & seen & E & Hs & Hb & Ht & Hg & Hm & Hd & Hx & Ho & _).
  exists self', seen. cbv zeta. fold entry in Hs, Ht, Hg, Hm, Hd, Hx, Ho.
  repeat (split; [assumption|]). exact Ho.
Qed.

(** X14: the interpolators of init_date_constraints.  The root gets None;
    every other node of the tree gets what BranchLenInterpolator returns for
    it with the engine's gtr and one_mutation, and the store the constructor
    is handed is, node by node, the nodes as init_date_constraints found
    them with, at the nodes that come before in preorder and only there, the
    interpolator they end with.  Nothing but numdate_given, abs_t,
    msg_to_parent and the interpolator is assigned, and only at nodes of the
    tree. *)
Theorem init_date_constraints_interpolators ancestral_inference slope_arg kwarks
    (self : ClockTree) :
  let entry := init_entry ancestral_inference kwarks self in
  wf (tree entry) ->
  exists self',
    init_date_constraints ancestral_inference slope_arg kwarks self = Ok self' /\
    (forall done v rest,
       find_clades Preorder (tree entry) = done ++ v :: rest ->
       interpolator_rule entry (nodes self') done v) /\
    (forall n, forget_init (nodes self' n) = forget_init (nodes entry n)) /\
    (forall n, ~ In n (ids (find_clades Preorder (tree entry))) ->
               nodes self' n = nodes entry n).
Proof.
  intros entry W.
  destruct (init_date_constraints_full ancestral_inference slope_arg kwarks self W)
    as (self' & seen & E & _ & _ & _ & _ & _ & _ & _ & _ & Hf & Hu & Pi & _).
  exists self'. split; [exact E|]. split; [exact Pi|]. split; assumption.
Qed.

Lemma constraint_rule_agree dc before after v :
  constraint_rule dc before after v -> dates_agree dc (after (v_node v)).
Proof.
  unfold constraint_rule, dates_agree. cbv zeta.
  destruct (constrained (before (v_node v))) as [given|].
  - intros (-> & H). exact H.
  - intros (-> & H). exact H.
Qed.

Lemma constraint_rule_message dc before after v :
  constraint_rule dc before after v ->
  has_message (after (v_node v)) = true <-> constrained (before (v_node v)) <> None.
Proof.
  unfold constraint_rule, has_message. cbv zeta.
  destruct (constrained (before (v_node v))) as [given|].
  - intros (_ & _ & ->). split; [discriminate|reflexivity].
  - intros (_ & _ & ->). split; [discriminate|intros K; contradiction K; reflexivity].
Qed.

(** X15: what init_date_constraints hands to the passes.  At every node of
    the tree the three date attributes agree (a sampling date with its time
    and the delta there, or None three times) and the node has its message
    attribute and its interpolator; some node has a message exactly when some
    node had a usable sampling date; and the upward pass, run next, returns. *)
Theorem init_date_constraints_then_upward ancestral_inference slope_arg kwarks
    (self : ClockTree) :
  let entry := init_entry ancestral_inference kwarks self in
  wf (tree entry) ->
  exists self' dc,
    init_date_constraints ancestral_inference slope_arg kwarks self = Ok self' /\
    _date2dist self' = Some dc /\
    (forall v, In v (find_clades Preorder (tree self')) ->
       dates_agree dc (nodes self' (v_node v))) /\
    nodes_ready (tree self') (nodes self') /\
    (some_message (tree self') (nodes self') <->
     exists v, In v (find_clades Preorder (tree entry)) /\
               constrained (nodes entry (v_node v)) <> None) /\
    exists up, _ml_t_leaves_root self' = Ok up.
Proof.
  intros entry W.
  destruct (init_date_constraints_full ancestral_inference slope_arg kwarks self W)
    as (self' & seen & E & _ & _ & Ht & _ & _ & Hd & _ & _ & _ & _ & Q & P).
  fold entry in Ht, Hd, Q, P. cbv zeta in P.
  exists self', (from_tree (tree entry) seen slope_arg).
  split; [exact E|]. split; [exact Hd|]. rewrite Ht.
  assert (R : nodes_ready (tree entry) (nodes self')).
  { intros v Iv. pose proof (P v Iv) as Pc. split.
    - unfold constraint_rule in Pc. cbv zeta in Pc.
      destruct (constrained (nodes entry (v_node v)));
        destruct Pc as (_ & _ & ->); reflexivity.
    - destruct (in_split _ _ Iv) as (done & rest & El).
      pose proof (Q done v rest El) as Pi. unfold interpolator_rule in Pi.
      destruct (v_up v); [destruct Pi as (s0 & _ & ->)|rewrite Pi]; reflexivity. }
  split; [intros v Iv; eapply constraint_rule_agree; apply P; exact Iv|].
  split; [exact R|]. split.
  - split; intros (v & Iv & H); exists v; (split; [exact Iv|]);
      eapply constraint_rule_message; try (apply P; exact Iv); exact H.
  - assert (W' : wf (tree self')) by (rewrite Ht; exact W).
    rewrite <- Ht in R.
    destruct (upward_pass_spec self' W' (nodes_ready_children _ _ R)) as [up (Eu & _)].
    exists up; exact Eu.
Qed.

End InitMore.

(** * Beyond the claims: the passes one after the other *)

Section Pipeline.

Context {L : Library}.

Lemma preorder_up_some t : forall p v,
  In v (preorder_from (Some p) t) -> v_up v <> None.
Proof.
  induction t as [n cs IH] using clade_ind; intros p v Iv. simpl in Iv.
  destruct Iv as [<-|Iv]; [discriminate|].
  apply in_flat_map in Iv as [c [Ic Iv]].
  rewrite Forall_forall in IH. exact (IH c Ic n v Iv).
Qed.

Lemma root_visit t v :
  In v (find_clades Preorder t) -> v_up v = None -> v_node v = clade_id t.
Proof.
  destruct t as [n cs]. simpl. intros [<-|Iv] E; [reflexivity|].
  apply in_flat_map in Iv as [c [Ic Iv]].
  exfalso. exact (preorder_up_some c n v Iv E).
Qed.

Lemma root_first t :
  exists v, In v (find_clades Preorder t) /\ v_up v = None /\
            v_node v = clade_id t.
Proof.
  destruct t as [n cs]. eexists. split; [left; reflexivity|]. split; reflexivity.
Qed.

Lemma upward_post_has_message before after v :
  hasattr (msg_to_parent (before (v_node v))) = true ->
  upward_post before after v ->
  hasattr (msg_to_parent (after (v_node v))) = true.
Proof.
  unfold upward_post, upward_leaf_rule, upward_rule. cbv zeta. intros H.
  destruct (is_terminal v).
  - intros [_ ->]. exact H.
  - intros (_ & P1 & P2).
    destruct (child_messages after (v_clades v)) as [|x l].
    + rewrite P1; [exact H|reflexivity].
    + rewrite P2; [reflexivity|discriminate].
Qed.

(** After the two passes finalization finds what it reads exactly when some
    node had a message to begin with. *)
Lemma passes_final_ready (self up down : ClockTree) :
  wf (tree self) ->
  nodes_ready (tree self) (nodes self) ->
  _ml_t_leaves_root self = Ok up -> _ml_t_root_leaves up = Ok down ->
  tree down = tree self /\
  (final_ready (tree down) (nodes down) <->
   some_message (tree self) (nodes self)).
Proof.
  intros W R E1 E2.
  destruct (upward_pass_spec self W (nodes_ready_children _ _ R))
    as [up' (E1' & Ht1 & P1)].
  rewrite E1 in E1'. injection E1' as <-.
  destruct (upward_pass_touches _ _ E1) as [(_ & F1 & _) _].
  assert (W2 : wf (tree up)) by (rewrite Ht1; exact W).
  destruct (downward_pass_spec up W2 (downward_pass_needs _ _ E2))
    as [down' (E2' & Ht2 & _ & F2 & P2)].
  rewrite E2 in E2'. injection E2' as <-.
  rewrite Ht1 in Ht2, P2.
  split; [exact Ht2|]. rewrite Ht2.
  assert (M : forall n, msg_to_parent (nodes down n) = msg_to_parent (nodes up n)).
  { intros n. pose proof (f_equal msg_to_parent (F2 n)) as K. exact K. }
  assert (Root : has_message (nodes up (clade_id (tree self))) = true <->
                 some_message (tree self) (nodes self)).
  { rewrite (upward_message_below (tree self) (nodes self) (nodes up) P1
               (tree self) None (incl_refl _)).
    apply message_below_exists. }
  split.
  - intros Rf. apply Root.
    destruct (root_first (tree self)) as (v0 & I0 & U0 & N0).
    specialize (Rf v0 I0). rewrite U0 in Rf. destruct Rf as [m Hm].
    unfold has_message. rewrite <- N0, <- M, Hm. reflexivity.
  - intros S v Iv. destruct (v_up v) as [p|] eqn:Ep.
    + split; [apply (downward_rule_has false); apply P2; exact Iv|].
      split.
      * rewrite M. apply (upward_post_has_message (nodes self));
          [apply R; exact Iv|apply P1; apply in_postorder; exact Iv].
      * pose proof (f_equal branch_length_interpolator (F2 (v_node v))) as K2.
        pose proof (f_equal branch_length_interpolator (F1 (v_node v))) as K1.
        simpl in K1, K2. rewrite K2, K1. apply R; exact Iv.
    + apply Root in S. rewrite <- (root_visit _ _ Iv Ep) in S.
      unfold has_message in S. rewrite <- M in S.
      destruct (msg_to_parent (nodes down (v_node v))) as [|[m|]];
        try discriminate S. exists m; reflexivity.
Qed.

(** X16: the three passes in a row, on a tree whose nodes all have a
    message attribute and an interpolator.  The upward and the downward pass
    return.  When some node has a message, finalization returns as well and
    every node of the tree ends with a time, a branch_length, the same value
    as clock_length, and both likelihoods.  When no node has one,
    finalization raises AttributeError: a tree without any date is not
    dated. *)
Theorem passes_date_every_node (self : ClockTree) :
  wf (tree self) ->
  nodes_ready (tree self) (nodes self) ->
  exists up down,
    _ml_t_leaves_root self = Ok up /\ _ml_t_root_leaves up = Ok down /\
    (some_message (tree self) (nodes self) ->
     exists final, _set_final_dates down = Ok final /\
       forall v, In v (find_clades Preorder (tree self)) ->
         exists t bl,
           time_before_present (nodes final (v_node v)) = Has t /\
           branch_length (nodes final (v_node v)) = Some bl /\
           clock_length (nodes final (v_node v)) = Has (Some bl) /\
           hasattr (marginal_lh (nodes final (v_node v))) = true /\
           hasattr (joint_lh (nodes final (v_node v))) = true) /\
    (~ some_message (tree self) (nodes self) ->
     _set_final_dates down = Raise AttributeError).
Proof.
  intros W R.
  destruct (both_passes_spec self W R) as (up & down & E1 & E2 & _).
  exists up, down. split; [exact E1|]. split; [exact E2|].
  destruct (passes_final_ready self up down W R E1 E2) as [Ht Rf].
  assert (W3 : wf (tree down)) by (rewrite Ht; exact W).
  split.
  - intros S. apply Rf in S.
    destruct (final_dates_spec down W3 S) as [final (E3 & _ & _ & _ & P)].
    exists final. split; [exact E3|]. rewrite Ht in P.
    intros v Iv. specialize (P v Iv). unfold final_rule in P. cbv zeta in P.
    destruct (v_up v).
    + destruct P as (tp & _ & H1 & H2 & H3 & H4 & H5).
      do 2 eexists. rewrite H1, H2. repeat split; eassumption.
    + destruct P as (m & _ & H1 & H2 & H3 & H4 & H5).
      do 2 eexists. rewrite H1, H2. repeat split; eassumption.
  - intros N. destruct (_set_final_dates down) as [final|e] eqn:E3.
    + exfalso. apply N, Rf. eapply final_pass_needs; exact E3.
    + f_equal. unfold _set_final_dates in E3.
      exact (for_each_raises _ (fun e => e = AttributeError)
               final_dates_node_raises _ _ _ E3).
Qed.

End Pipeline.

(** * Beyond the claims: the constructor *)

Section Construction.

Context {L : Library} {V : Services}.

Lemma init_node_frame dates name s a :
  same_object s (init_node dates name s a) /\
  out (init_node dates name s a) = out s /\
  (forall n, forget_given (nodes (init_node dates name s a) n) =
             forget_given (nodes s n)) /\
  (forall n, n <> v_node a -> nodes (init_node dates name s a) n = nodes s n) /\
  numdate_given (nodes (init_node dates name s a) (v_node a)) =
    Has (date_of dates (name (v_node a))).
Proof.
  unfold init_node, date_of.
  destruct (dates (name (v_node a))) as [d|].
  all: split; [repeat split|]; (split; [reflexivity|]).
  all: split; [intros n; simpl; unfold update;
               destruct (Nat.eqb n (v_node a)); reflexivity|].
  all: split; [intros n D; simpl; rewrite update_other by exact D; reflexivity|].
  all: simpl; rewrite update_same; reflexivity.
Qed.

Lemma init_nodes_spec dates name : forall l s,
  same_object s (fold_left (init_node dates name) l s) /\
  out (fold_left (init_node dates name) l s) = out s /\
  (forall n, forget_given (nodes (fold_left (init_node dates name) l s) n) =
             forget_given (nodes s n)) /\
  (forall n, ~ In n (ids l) ->
             nodes (fold_left (init_node dates name) l s) n = nodes s n) /\
  (forall n, In n (ids l) ->
             numdate_given (nodes (fold_left (init_node dates name) l s) n) =
             Has (date_of dates (name n))).
Proof.
  induction l as [|a l IH]; intros s; simpl.
  - split; [apply same_object_refl|]. split; [reflexivity|].
    split; [reflexivity|]. split; [reflexivity|]. intros n [].
  - destruct (init_node_frame dates name s a) as (O1 & Ho1 & F1 & U1 & G1).
    destruct (IH (init_node dates name s a)) as (O2 & Ho2 & F2 & U2 & G2).
    split; [eapply same_object_trans; eassumption|].
    split; [congruence|].
    split; [intros n; rewrite F2; apply F1|].
    split.
    + intros n Hn. rewrite U2, U1; [reflexivity| |]; intuition.
    + intros n Hn.
      destruct (in_dec Nat.eq_dec n (ids l)) as [I|N]; [apply G2; exact I|].
      destruct Hn as [<-|Hn]; [|contradiction].
      rewrite U2 by exact N. exact G1.
Qed.

(** X17: the constructor.  Without dates it raises TypeError (a string is
    raised); otherwise it returns, keeps the dates and sets debug to False,
    leaves the engine without a calibration, max_diam 0.0 and nothing logged,
    and gives every node of the tree a numdate_given: the entry of the dates
    for the node's name, None when there is none.  No other attribute of a
    node changes, and no node outside the tree. *)
Theorem constructor_sets_numdate_given (name : NodeId -> Name) (self : ClockTree) :
  __init__ None name self = Raises TypeError /\
  forall dates, exists o,
    __init__ (Some dates) name self = Returns o /\
    date_dict o = dates /\ debug o = false /\
    _date2dist (fields o) = None /\ max_diam (fields o) = 0%float /\
    tree (fields o) = tree self /\ gtr (fields o) = gtr self /\
    one_mutation (fields o) = one_mutation self /\
    out (fields o) = out self /\
    (forall v, In v (find_clades Preorder (tree self)) ->
       numdate_given (nodes (fields o) (v_node v)) =
       Has (date_of dates (name (v_node v)))) /\
    (forall n, forget_given (nodes (fields o) n) = forget_given (nodes self n)) /\
    (forall n, ~ In n (ids (find_clades Preorder (tree self))) ->
               nodes (fields o) n = nodes self n).
Proof.
  split; [reflexivity|]. intros dates. unfold __init__. cbv zeta.
  eexists. split; [reflexivity|]. cbn [date_dict debug fields].
  set (s0 := set_max_diam (set_date2dist self None) 0%float).
  change (tree s0) with (tree self).
  destruct (init_nodes_spec dates name (find_clades Preorder (tree self)) s0)
    as ((Ot & Og & Om & Od & Ox) & Ho & F & U & G).
  repeat (split; [first [reflexivity | assumption]|]).
  split; [intros v Iv; apply G; apply in_ids; exact Iv|].
  split; assumption.
Qed.

(** X18: from the dates to the messages.  On an engine whose root has a
    sequence, the constructor followed by init_date_constraints without
    ancestral inference returns, and a node of the tree ends with the delta at
    (today - date) * |slope| as its message exactly when the dates have a date
    for its name and it is not marked bad; every other node ends with None. *)
Theorem constructor_then_init_date_constraints (dates : Dates)
    (name : NodeId -> Name) slope_arg kwarks (self : ClockTree) :
  wf (tree self) ->
  hasattr (sequence (nodes self (clade_id (tree self)))) = true ->
  exists o self' dc,
    __init__ (Some dates) name self = Returns o /\
    init_date_constraints false slope_arg kwarks (fields o) = Ok self' /\
    _date2dist self' = Some dc /\
    forall v, In v (find_clades Preorder (tree self)) ->
      msg_to_parent (nodes self' (v_node v)) =
      Has (match date_of dates (name (v_node v)) with
           | Some d =>
               if marked_bad (nodes self (v_node v)) then None
               else Some (delta_function
                            ((numeric_date - d) * abs (slope dc))%float 1%float)
           | None => None
           end).
Proof.
  intros W Hs. unfold __init__. cbv zeta.
  set (s0 := set_max_diam (set_date2dist self None) 0%float).
  change (tree s0) with (tree self).
  destruct (init_nodes_spec dates name (find_clades Preorder (tree self)) s0)
    as ((Ot & _) & _ & F & _ & G).
  set (built := fold_left (init_node dates name) (find_clades Preorder (tree self)) s0)
    in *.
  change (tree s0) with (tree self) in Ot.
  assert (Entry : init_entry false kwarks built = logger built InitDateConstraints 2 false).
  { unfold init_entry, init_sequences. simpl.
    pose proof (f_equal sequence (F (clade_id (tree built)))) as K. simpl in K.
    rewrite K, Ot. change (nodes s0) with (nodes self). rewrite Hs. reflexivity. }
  assert (W' : wf (tree (init_entry false kwarks built))).
  { rewrite Entry. simpl. rewrite Ot. exact W. }
  destruct (init_date_constraints_full false slope_arg kwarks built W')
    as (self' & seen & E & _ & _ & _ & _ & _ & Hd & _ & _ & _ & _ & _ & P).
  rewrite Entry in Hd, P. simpl in Hd, P. rewrite Ot in Hd, P.
  eexists. exists self'. eexists.
  split; [reflexivity|]. cbn [fields]. split; [exact E|]. split; [exact Hd|].
  intros v Iv. pose proof (P v Iv) as Pc.
  unfold constraint_rule, constrained, marked_bad in *. cbv zeta in Pc.
  rewrite (G (v_node v) (in_ids _ _ Iv)) in Pc.
  pose proof (f_equal bad_branch (F (v_node v))) as K. simpl in K.
  change (nodes s0) with (nodes self) in K. rewrite K in Pc.
  destruct (date_of dates (name (v_node v))) as [d|].
  - destruct (bad_branch (nodes self (v_node v))) as [|[|]];
      destruct Pc as (_ & _ & ->); reflexivity.
  - destruct Pc as (_ & _ & ->). reflexivity.
Qed.

End Construction.

(** * Beyond the claims: running a pass again *)

Section Again.

Context {L : Library}.

Lemma node_ext_downward (a b : Node) :
  forget_downward a = forget_downward b ->
  msg_from_parent a = msg_from_parent b -> a = b.
Proof.
  destruct a, b. unfold forget_downward, set_msg_from_parent. simpl.
  intros F ->. injection F as -> -> -> -> -> -> -> -> -> -> -> -> -> ->.
  reflexivity.
Qed.

Lemma node_ext_upward (a b : Node) :
  forget_upward a = forget_upward b ->
  msgs_from_leaves a = msgs_from_leaves b ->
  msg_to_parent a = msg_to_parent b -> a = b.
Proof.
  destruct a, b. unfold forget_upward, set_msgs_from_leaves, set_msg_to_parent.
  simpl. intros F -> ->. injection F as -> -> -> -> -> -> -> -> -> -> -> -> ->.
  reflexivity.
Qed.

(** X19: the upward pass run a second time returns and leaves every node
    as the first run left it; its two progress lines are logged again. *)
Theorem upward_pass_twice (self : ClockTree) :
  wf (tree self) ->
  children_ready (tree self) (nodes self) ->
  exists once twice,
    _ml_t_leaves_root self = Ok once /\ _ml_t_leaves_root once = Ok twice /\
    (forall n, nodes twice n = nodes once n) /\
    out twice = out once ++ [Logged MLOptimization 1 false;
                             Logged PropagatingLeavesRoot 2 false].
Proof.
  intros W R.
  destruct (upward_pass_spec self W R) as [s1 (E1 & Ht1 & P1)].
  destruct (upward_pass_touches _ _ E1) as [(_ & F1 & _) _].
  assert (W1 : wf (tree s1)) by (rewrite Ht1; exact W).
  assert (R1 : children_ready (tree s1) (nodes s1)).
  { rewrite Ht1. intros v c Iv Ic. destruct (R v c Iv Ic) as [Hm Hb].
    destruct (child_is_node _ v c Iv Ic) as [w [Iw <-]]. split.
    - apply (upward_post_has_message (nodes self)); [exact Hm|].
      apply P1. apply in_postorder; exact Iw.
    - pose proof (f_equal branch_length_interpolator (F1 (v_node w))) as K.
      simpl in K. rewrite K. exact Hb. }
  destruct (upward_pass_spec s1 W1 R1) as [s2 (E2 & _ & P2)].
  destruct (upward_pass_touches _ _ E2) as [(_ & F2 & U2) Ho2].
  rewrite Ht1 in *.
  exists s1, s2. split; [exact E1|]. split; [exact E2|]. split; [|exact Ho2].
  assert (Q : forall l1 l2, find_clades Postorder (tree self) = l1 ++ l2 ->
              forall v, In v l1 -> nodes s2 (v_node v) = nodes s1 (v_node v)).
  { induction l1 as [|a l1 IH] using rev_ind; intros l2 El v Iv; [destruct Iv|].
    rewrite <- app_assoc in El. change ([a] ++ l2) with (a :: l2) in El.
    apply in_app_or in Iv as [Iv|[<-|[]]]; [exact (IH _ El v Iv)|].
    assert (Ia : In a (find_clades Postorder (tree self))).
    { rewrite El. apply in_or_app; right; left; reflexivity. }
    specialize (P1 a Ia). specialize (P2 a Ia).
    assert (Ec : child_messages (nodes s2) (v_clades a) =
                 child_messages (nodes s1) (v_clades a)).
    { apply child_messages_ext. intros c Ic.
      pose proof (children_before _ _ _ _ El c Ic) as K.
      unfold ids in K. apply in_map_iff in K as [w [<- Iw]].
      exact (IH _ El w Iw). }
    unfold upward_post, upward_leaf_rule, upward_rule in P1, P2.
    cbv zeta in P1, P2. rewrite Ec in P2.
    apply node_ext_upward; [apply F2| |].
    - destruct (is_terminal a);
        [destruct P1 as [-> _]; destruct P2 as [-> _]
        |destruct P1 as (-> & _); destruct P2 as (-> & _)]; reflexivity.
    - destruct (is_terminal a); [apply P2|].
      destruct P1 as (_ & _ & A2). destruct P2 as (_ & B1 & B2).
      destruct (child_messages (nodes s1) (v_clades a)) as [|x l].
      + apply B1; reflexivity.
      + rewrite A2, B2 by discriminate. reflexivity. }
  intros n.
  destruct (in_dec Nat.eq_dec n (ids (find_clades Preorder (tree self)))) as [I|N].
  - unfold ids in I. apply in_map_iff in I as [v [<- Iv]].
    apply in_postorder in Iv.
    exact (Q _ [] (eq_sym (app_nil_r _)) v Iv).
  - apply U2. exact N.
Qed.

(** X20: the downward pass run a second time returns and leaves every node
    as the first run left it; its progress line is logged again. *)
Theorem downward_pass_twice (self : ClockTree) :
  wf (tree self) ->
  parents_ready (tree self) (nodes self) ->
  exists once twice,
    _ml_t_root_leaves self = Ok once /\ _ml_t_root_leaves once = Ok twice /\
    (forall n, nodes twice n = nodes once n) /\
    out twice = out once ++ [Logged PropagatingRootLeaves 2 false].
Proof.
  intros W R.
  destruct (downward_pass_spec self W R) as [s1 (E1 & Ht1 & _ & F1 & P1)].
  assert (W1 : wf (tree s1)) by (rewrite Ht1; exact W).
  assert (R1 : parents_ready (tree s1) (nodes s1)).
  { rewrite Ht1. intros v p Iv Ep. destruct (R v p Iv Ep) as [Hd Hb].
    pose proof (f_equal msgs_from_leaves (F1 p)) as K1.
    pose proof (f_equal branch_length_interpolator (F1 (v_node v))) as K2.
    simpl in K1, K2. rewrite K1, K2. split; assumption. }
  destruct (downward_pass_spec s1 W1 R1) as [s2 (E2 & _ & Ho2 & F2 & P2)].
  destruct (downward_pass_touches _ _ E2) as [(_ & _ & U2) _].
  rewrite Ht1 in *.
  exists s1, s2. split; [exact E1|]. split; [exact E2|]. split; [|exact Ho2].
  assert (Q : forall l1 l2, find_clades Preorder (tree self) = l1 ++ l2 ->
              forall v, In v l1 -> nodes s2 (v_node v) = nodes s1 (v_node v)).
  { induction l1 as [|a l1 IH] using rev_ind; intros l2 El v Iv; [destruct Iv|].
    rewrite <- app_assoc in El. change ([a] ++ l2) with (a :: l2) in El.
    apply in_app_or in Iv as [Iv|[<-|[]]]; [exact (IH _ El v Iv)|].
    assert (Ia : In a (find_clades Preorder (tree self))).
    { rewrite El. apply in_or_app; right; left; reflexivity. }
    specialize (P1 a Ia). specialize (P2 a Ia). unfold downward_rule in P1, P2.
    apply node_ext_downward; [apply F2|].
    destruct (v_up a) as [p|] eqn:Ep; [|congruence].
    destruct P1 as (d1 & pm1 & A0 & A1 & A2).
    destruct P2 as (d2 & pm2 & B0 & B1 & B2).
    pose proof (parent_before _ _ _ _ p El Ep) as Ip.
    unfold ids in Ip. apply in_map_iff in Ip as [w [Ew Iw]].
    pose proof (IH _ El w Iw) as Kw. rewrite Ew in Kw.
    rewrite Kw, A0 in B0. injection B0 as <-.
    rewrite Kw, A1 in B1. injection B1 as <-.
    pose proof (f_equal branch_length_interpolator (F2 (v_node a))) as K.
    simpl in K. unfold the_interpolator in *. rewrite A2, B2, K. reflexivity. }
  intros n.
  destruct (in_dec Nat.eq_dec n (ids (find_clades Preorder (tree self)))) as [I|N].
  - unfold ids in I. apply in_map_iff in I as [v [<- Iv]].
    exact (Q _ [] (eq_sym (app_nil_r _)) v Iv).
  - apply U2. exact N.
Qed.

End Again.

(** * Beyond the claims: make_time_tree on the object the global names *)

Section Heap.

Context {L : Library} {V : Services}.

Lemma make_time_tree_steps g self (h : heap) o1 o2 o3 :
  _ml_t_leaves_root (h g) = Ok o1 -> _ml_t_root_leaves o1 = Ok o2 ->
  _set_final_dates o2 = Ok o3 ->
  match convert_dates o3 with
  | Ok o =>
      exists h', make_time_tree (Some g) self h = Ok h' /\ h' g = o /\
                 forall r, r <> g -> h' r = h r
  | Raise e => make_time_tree (Some g) self h = Raise e
  end.
Proof.
  intros E1 E2 E3. unfold make_time_tree, call, lookup_global. simpl.
  rewrite E1. simpl. rewrite Nat.eqb_refl, E2. simpl.
  rewrite Nat.eqb_refl, E3. simpl. rewrite Nat.eqb_refl.
  destruct (convert_dates o3) as [o|e]; simpl; [|reflexivity].
  eexists. split; [reflexivity|]. simpl. rewrite Nat.eqb_refl.
  split; [reflexivity|].
  intros r D. destruct (Nat.eqb_spec r g); [contradiction|reflexivity].
Qed.

Lemma make_time_tree_stops g self (h : heap) o1 o2 e :
  _ml_t_leaves_root (h g) = Ok o1 -> _ml_t_root_leaves o1 = Ok o2 ->
  _set_final_dates o2 = Raise e ->
  make_time_tree (Some g) self h = Raise e.
Proof.
  intros E1 E2 E3. unfold make_time_tree, call, lookup_global. simpl.
  rewrite E1. simpl. rewrite Nat.eqb_refl, E2. simpl.
  rewrite Nat.eqb_refl, E3. reflexivity.
Qed.

(** X21: make_time_tree with the global name bound to object [g], whose
    nodes all have a message attribute and an interpolator.  When no node of
    [g] has a message it raises AttributeError.  Otherwise the upward pass,
    the downward pass and finalization return one after the other on [g], and
    make_time_tree does what convert_dates then does: it raises what
    convert_dates raises, or returns with [g] replaced by the converted
    engine and every other object as it was. *)
Theorem make_time_tree_on_the_global g self (h : heap) :
  wf (tree (h g)) ->
  nodes_ready (tree (h g)) (nodes (h g)) ->
  (~ some_message (tree (h g)) (nodes (h g)) ->
   make_time_tree (Some g) self h = Raise AttributeError) /\
  (some_message (tree (h g)) (nodes (h g)) ->
   exists up down final,
     _ml_t_leaves_root (h g) = Ok up /\ _ml_t_root_leaves up = Ok down /\
     _set_final_dates down = Ok final /\
     match convert_dates final with
     | Ok o =>
         exists h', make_time_tree (Some g) self h = Ok h' /\ h' g = o /\
                    forall r, r <> g -> h' r = h r
     | Raise e => make_time_tree (Some g) self h = Raise e
     end).
Proof.
  intros W R.
  destruct (both_passes_spec (h g) W R) as (up & down & E1 & E2 & _).
  destruct (passes_final_ready (h g) up down W R E1 E2) as [Ht Rf].
  assert (W3 : wf (tree down)) by (rewrite Ht; exact W).
  split.
  - intros N. apply (make_time_tree_stops g self h up down _ E1 E2).
    destruct (_set_final_dates down) as [final|e] eqn:E3.
    + exfalso. apply N, Rf. eapply final_pass_needs; exact E3.
    + f_equal. unfold _set_final_dates in E3.
      exact (for_each_raises _ (fun e => e = AttributeError)
               final_dates_node_raises _ _ _ E3).
  - intros S. apply Rf in S.
    destruct (final_dates_spec down W3 S) as [final (E3 & _)].
    exists up, down, final. split; [exact E1|]. split; [exact E2|].
    split; [exact E3|].
    exact (make_time_tree_steps g self h up down final E1 E2 E3).
Qed.

End Heap.

(** * The two lengths, over every operation *)

Section LengthsOverall.

Context {L : Library} {V : Services}.

Lemma constructor_lengths dates name s o :
  __init__ dates name s = Returns o ->
  lengths_consistent (nodes s) (nodes (fields o)).
Proof.
  unfold __init__. destruct dates as [d|]; [|discriminate]. cbv zeta.
  intros H. injection H as <-. cbn [fields].
  set (s0 := set_max_diam (set_date2dist s None) 0%float).
  destruct (init_nodes_spec d name (find_clades Preorder (tree s0)) s0)
    as (_ & _ & F & _).
  intros n. left. pose proof (F n) as K.
  split; [exact (f_equal branch_length K)|exact (f_equal clock_length K)].
Qed.

Lemma make_time_tree_lengths myTree self (h h' : heap) :
  make_time_tree myTree self h = Ok h' ->
  forall r, lengths_consistent (nodes (h r)) (nodes (h' r)).
Proof.
  intros E r. destruct myTree as [g|]; [|discriminate E].
  unfold make_time_tree, call, lookup_global in E. simpl in E.
  destruct (_ml_t_leaves_root (h g)) as [o1|] eqn:E1; [|discriminate]. simpl in E.
  rewrite Nat.eqb_refl in E.
  destruct (_ml_t_root_leaves o1) as [o2|] eqn:E2; [|discriminate]. simpl in E.
  rewrite Nat.eqb_refl in E.
  destruct (_set_final_dates o2) as [o3|] eqn:E3; [|discriminate]. simpl in E.
  rewrite Nat.eqb_refl in E.
  destruct (convert_dates o3) as [o4|] eqn:E4; [|discriminate]. simpl in E.
  injection E as <-.
  destruct (Nat.eqb_spec r g) as [->|D]; [|apply lengths_consistent_refl].
  eapply lengths_consistent_trans; [apply ml_t_leaves_root_lengths; exact E1|].
  eapply lengths_consistent_trans; [apply ml_t_root_leaves_lengths; exact E2|].
  eapply lengths_consistent_trans; [apply set_final_dates_lengths; exact E3|].
  apply convert_dates_lengths; exact E4.
Qed.

(** C10, amended: finalization returns and leaves every node of the tree, the
    root included, with clock_length holding what branch_length holds; and
    the statements of clock_tree.py never give a node two different lengths:
    the constructor, init_date_constraints from after its call to
    optimize_seq_and_branch_len, the two passes, finalization, convert_dates
    and make_time_tree (at every object of the heap) leave both attributes as
    they were or leave them equal. *)
Theorem clock_length_is_branch_length (self : ClockTree) :
  wf (tree self) ->
  final_ready (tree self) (nodes self) ->
  (exists self', _set_final_dates self = Ok self' /\
     forall v, In v (find_clades Preorder (tree self)) ->
       lengths_agree (nodes self' (v_node v))) /\
  (forall s s', own_operation s s' -> lengths_consistent (nodes s) (nodes s')).
Proof.
  intros W R. split.
  - destruct (final_dates_spec self W R) as [self' (E & _ & _ & _ & P)].
    exists self'; split; [exact E|].
    intros v Iv. specialize (P v Iv). unfold final_rule, lengths_agree in *.
    destruct (v_up v).
    + destruct P as (tp & _ & _ & _ & _ & -> & ->); reflexivity.
    + destruct P as (m & _ & _ & _ & _ & -> & ->); reflexivity.
  - intros s s'
      [(d & nm & o & H & ->)
      |[(ai & sl & kw & s0 & -> & H)
       |[H|[H|[H|[H|(g & me & h & h' & r & H & -> & ->)]]]]]].
    + eapply constructor_lengths; exact H.
    + eapply init_date_constraints_lengths; exact H.
    + apply ml_t_leaves_root_lengths; exact H.
    + apply ml_t_root_leaves_lengths; exact H.
    + apply set_final_dates_lengths; exact H.
    + apply convert_dates_lengths; exact H.
    + eapply make_time_tree_lengths; exact H.
Qed.

End LengthsOverall.

(** * Beyond the claims: the properties on the reference engine *)

Module FurtherExamples.

Import Reference.

Lemma dated_nodes_ready c : nodes_ready (tree (dated c)) (nodes (dated c)).
Proof.
  intros v Iv. Examples.enumerate Iv; split; vm_compute; reflexivity.
Qed.

Lemma lone_wf : wf (tree (objects 1)).
Proof.
  unfold wf; simpl. repeat constructor; simpl; intuition discriminate.
Qed.

Lemma lone_nodes_ready : nodes_ready (tree (objects 1)) (nodes (objects 1)).
Proof.
  intros v Iv. Examples.enumerate Iv; split; vm_compute; reflexivity.
Qed.

Lemma dated_some_message c : some_message (tree (dated c)) (nodes (dated c)).
Proof.
  exists (Visit 1 (Some 0) []). split; [vm_compute; tauto|vm_compute; reflexivity].
Qed.

Lemma upward_pass_keeps_the_rest_witness :
  exists self', _ml_t_leaves_root (dated fit) = Ok self' /\
    out self' = out (dated fit) ++ [Logged MLOptimization 1 false;
                                    Logged PropagatingLeavesRoot 2 false] /\
    msgs_from_leaves (nodes self' 1) = Has [] /\
    msg_to_parent (nodes self' 1) = msg_to_parent (nodes (dated fit) 1).
Proof.
  destruct (upward_pass_keeps_the_rest (dated fit) Examples.topology_wf
              (Examples.dated_children_ready fit)) as [self' (E & _ & O & P)].
  exists self'. split; [exact E|]. split; [exact O|].
  apply (P (Visit 1 (Some 0) [])); [vm_compute; tauto|reflexivity].
Defined.

Lemma upward_pass_root_message_witness :
  exists self', _ml_t_leaves_root (dated fit) = Ok self' /\
    has_message (nodes self' 0) = true.
Proof.
  destruct (upward_pass_root_message (dated fit) Examples.topology_wf
              (Examples.dated_children_ready fit)) as [self' [E H]].
  exists self'. split; [exact E|].
  apply H. exact (dated_some_message fit).
Defined.

Lemma downward_pass_returns_iff_witness :
  (exists self', _ml_t_root_leaves (upward fit) = Ok self' /\
     out self' = out (upward fit) ++ [Logged PropagatingRootLeaves 2 false]) /\
  _ml_t_root_leaves (dated fit) = Raise AttributeError.
Proof.
  split.
  - destruct (proj1 (downward_pass_returns_iff (upward fit) Examples.topology_wf)
                (Examples.upward_parents_ready fit)) as [self' (E & _ & O)].
    exists self'. split; assumption.
  - apply (proj2 (downward_pass_returns_iff (dated fit) Examples.topology_wf)).
    intros H.
    destruct (H (Visit 1 (Some 0) []) 0) as [K _]; [vm_compute; tauto|reflexivity|].
    vm_compute in K. discriminate K.
Defined.

Lemma passes_multiply_sibling_messages_witness :
  exists up down,
    _ml_t_leaves_root (dated fit) = Ok up /\ _ml_t_root_leaves up = Ok down /\
    exists pm,
      msg_from_parent (nodes down 0) = Has pm /\
      msg_from_parent (nodes down 1) =
      Has (Some (Convolved
                   (Product (map Some (values (child_messages (nodes down) [2; 5]))
                             ++ match pm with Some m => [Some m] | None => [] end))
                   (the_interpolator (nodes down 1)) (Some false))).
Proof.
  destruct (passes_multiply_sibling_messages (dated fit) Examples.topology_wf
              (dated_nodes_ready fit)) as (up & down & E1 & E2 & P).
  exists up, down. split; [exact E1|]. split; [exact E2|].
  apply (P (Visit 0 None [1; 2; 5]) (Visit 1 (Some 0) []));
    [vm_compute; tauto|vm_compute; tauto|reflexivity|discriminate].
Defined.

Lemma only_child_of_the_root_witness :
  exists up down,
    _ml_t_leaves_root (objects 1) = Ok up /\ _ml_t_root_leaves up = Ok down /\
    msg_from_parent (nodes down 1) =
    Has (Some (Convolved (Product []) (the_interpolator (nodes down 1))
                 (Some false))).
Proof.
  destruct (only_child_of_the_root (objects 1) lone_wf lone_nodes_ready)
    as (up & down & E1 & E2 & P).
  exists up, down. split; [exact E1|]. split; [exact E2|].
  apply (P (Visit 0 None [1]) (Visit 1 (Some 0) []));
    [vm_compute; tauto|vm_compute; tauto|reflexivity|reflexivity|reflexivity].
Defined.

Lemma final_dates_returns_iff_witness :
  (exists self', _set_final_dates (downward fit) = Ok self' /\
     out self' = out (downward fit) ++ [Logged SettingDates 2 false]) /\
  _set_final_dates (dated fit) = Raise AttributeError.
Proof.
  split.
  - destruct (proj1 (final_dates_returns_iff (downward fit) Examples.topology_wf)
                (Examples.downward_final_ready fit)) as [self' (E & _ & O)].
    exists self'. split; assumption.
  - apply (proj2 (final_dates_returns_iff (dated fit) Examples.topology_wf)).
    intros H.
    destruct (H (Visit 0 None [1; 2; 5])) as [m K]; [vm_compute; tauto|].
    vm_compute in K. discriminate K.
Defined.

Lemma final_dates_root_and_marginals_witness :
  exists self', _set_final_dates (downward fit) = Ok self' /\
    time_before_present (nodes self' 0) = Has 4%float /\
    branch_length (nodes self' 0) = Some 0.0009765625%float.
Proof.
  destruct (final_dates_root_and_marginals (downward fit) Examples.topology_wf
              (Examples.downward_final_ready fit)) as [self' (E & P)].
  exists self'. split; [exact E|].
  destruct (P (Visit 0 None [1; 2; 5])) as (m & Hm & _ & _ & Ht & Hb & _);
    [vm_compute; tauto|].
  cbv beta iota delta [v_node] in Hm, Ht, Hb.
  vm_compute in Hm. injection Hm as <-.
  split; [rewrite Ht; vm_compute; reflexivity|].
  rewrite Hb. vm_compute. reflexivity.
Defined.

Lemma final_dates_twice_witness :
  exists once twice,
    _set_final_dates (downward fit) = Ok once /\
    _set_final_dates once = Ok twice /\
    (forall n, nodes twice n = nodes once n) /\
    out twice = out once ++ [Logged SettingDates 2 false].
Proof.
  exact (final_dates_twice (downward fit) Examples.topology_wf
           (Examples.downward_final_ready fit)).
Defined.

Lemma convert_dates_returns_iff_witness :
  (exists self', convert_dates (V := services fit) (finalised fit) = Ok self') /\
  convert_dates (V := services fit) engine = Raise AttributeError.
Proof.
  split.
  - apply (proj2 (proj1 (convert_dates_returns_iff (V := services fit)
                           (finalised fit) Examples.topology_wf))).
    exists fit. split; [reflexivity|].
    exact (Examples.finalised_convert_ready fit (or_introl eq_refl)).
  - apply (proj2 (proj2 (convert_dates_returns_iff (V := services fit)
                           engine Examples.topology_wf))).
    reflexivity.
Defined.

Lemma convert_dates_first_failure_witness :
  convert_dates (V := services fit) unbounded = Raise OverflowError.
Proof.
  apply (convert_dates_first_failure (V := services fit) unbounded fit
           [Visit 0 None [1; 2; 5]]
           [Visit 2 (Some 0) [3; 4]; Visit 3 (Some 2) []; Visit 4 (Some 2) [];
            Visit 5 (Some 0) []]
           (Visit 1 (Some 0) []) OverflowError).
  - reflexivity.
  - reflexivity.
  - intros w [<-|[]]. vm_compute. reflexivity.
  - vm_compute. reflexivity.
Defined.

Lemma convert_dates_log_witness :
  exists self', convert_dates (V := services late) (finalised late) = Ok self' /\
    out self' = out (finalised late) ++
      map (fun v => Logged (if marked_bad (nodes (finalised late) (v_node v))
                            then LaterThanTodayBad else LaterThanTodayError) 4 true)
          (future_nodes late (tree (finalised late)) (nodes (finalised late))).
Proof.
  destruct (convert_dates_log (V := services late) (finalised late) late
              Examples.topology_wf eq_refl
              (Examples.finalised_convert_ready late (or_intror eq_refl)))
    as [self' (E & O & _)].
  exists self'. split; assumption.
Defined.

Lemma convert_dates_twice_witness :
  exists once twice,
    convert_dates (V := services fit) (finalised fit) = Ok once /\
    convert_dates (V := services fit) once = Ok twice /\
    forall n, nodes twice n = nodes once n.
Proof.
  destruct (convert_dates_twice (V := services fit) (finalised fit) fit
              Examples.topology_wf eq_refl
              (Examples.finalised_convert_ready fit (or_introl eq_refl)))
    as (once & twice & E1 & E2 & H & _).
  exists once, twice. split; [exact E1|]. split; [exact E2|exact H].
Defined.

Lemma init_date_constraints_calibration_witness :
  exists self',
    init_date_constraints (V := services fit) false None tt engine = Ok self' /\
    _date2dist self' = Some fit /\ max_diam self' = 10%float /\
    out self' = [Logged InitDateConstraints 2 false;
                 Printed InitializingInterpolators;
                 Logged (SettingConversion 1 1) 2 false;
                 Printed BadBranchExcluded].
Proof.
  destruct (init_date_constraints_calibration (V := services fit)
              false None tt engine Examples.topology_wf)
    as (self' & seen & E & _ & _ & Hd & Hx & _ & _ & _ & Ho).
  exists self'. split; [exact E|]. split; [exact Hd|]. split; [exact Hx|].
  rewrite Ho. vm_compute. reflexivity.
Defined.

Lemma init_date_constraints_interpolators_witness :
  exists self',
    init_date_constraints (V := counting fit) false None tt engine = Ok self' /\
    branch_length_interpolator (nodes self' 0) = Has None /\
    branch_length_interpolator (nodes self' 3) = Has (Some (BranchLen 103)).
Proof.
  destruct (init_date_constraints_interpolators (V := counting fit)
              false None tt engine Examples.topology_wf)
    as (self' & E & P & _).
  exists self'. split; [exact E|].
  pose proof (P [] (Visit 0 None [1; 2; 5])
                [Visit 1 (Some 0) []; Visit 2 (Some 0) [3; 4];
                 Visit 3 (Some 2) []; Visit 4 (Some 2) []; Visit 5 (Some 0) []]
                eq_refl) as P0.
  pose proof (P [Visit 0 None [1; 2; 5]] (Visit 1 (Some 0) [])
                [Visit 2 (Some 0) [3; 4]; Visit 3 (Some 2) [];
                 Visit 4 (Some 2) []; Visit 5 (Some 0) []]
                eq_refl) as P1.
  pose proof (P [Visit 0 None [1; 2; 5]; Visit 1 (Some 0) []]
                (Visit 2 (Some 0) [3; 4])
                [Visit 3 (Some 2) []; Visit 4 (Some 2) []; Visit 5 (Some 0) []]
                eq_refl) as P2.
  pose proof (P [Visit 0 None [1; 2; 5]; Visit 1 (Some 0) [];
                 Visit 2 (Some 0) [3; 4]]
                (Visit 3 (Some 2) [])
                [Visit 4 (Some 2) []; Visit 5 (Some 0) []]
                eq_refl) as P3.
  unfold interpolator_rule in P0, P1, P2, P3.
  cbv beta iota delta [v_up v_node] in P0, P1, P2, P3.
  destruct P1 as (s1 & _ & H1). destruct P2 as (s2 & _ & H2).
  destruct P3 as (s3 & Hs & H3).
  split; [exact P0|]. rewrite H3.
  change (Has (Some (BranchLen
            (100 + length
               (filter (fun v => hasattr (branch_length_interpolator (s3 (v_node v))))
                  [Visit 0 None [1; 2; 5]; Visit 1 (Some 0) [];
                   Visit 2 (Some 0) [3; 4]; Visit 3 (Some 2) [];
                   Visit 4 (Some 2) []; Visit 5 (Some 0) []])))) =
          Has (Some (BranchLen 103))).
  cbn [filter v_node]. rewrite !Hs. unfold seen_before.
  cbn [ids map v_node existsb Nat.eqb orb].
  cbn [branch_length_interpolator set_branch_length_interpolator].
  rewrite P0, H1, H2. vm_compute. reflexivity.
Defined.

Lemma init_date_constraints_then_upward_witness :
  exists self',
    init_date_constraints (V := services fit) false None tt engine = Ok self' /\
    nodes_ready (tree self') (nodes self') /\
    exists up, _ml_t_leaves_root self' = Ok up.
Proof.
  destruct (init_date_constraints_then_upward (V := services fit)
              false None tt engine Examples.topology_wf)
    as (self' & dc & E & _ & _ & R & _ & U).
  exists self'. split; [exact E|]. split; [exact R|exact U].
Defined.

Lemma passes_date_every_node_witness :
  exists up down final,
    _ml_t_leaves_root (dated fit) = Ok up /\ _ml_t_root_leaves up = Ok down /\
    _set_final_dates down = Ok final /\
    hasattr (time_before_present (nodes final 4)) = true.
Proof.
  destruct (passes_date_every_node (dated fit) Examples.topology_wf
              (dated_nodes_ready fit)) as (up & down & E1 & E2 & D & _).
  destruct (D (dated_some_message fit)) as (final & E3 & P).
  exists up, down, final. split; [exact E1|]. split; [exact E2|].
  split; [exact E3|].
  destruct (P (Visit 4 (Some 2) [])) as (t & bl & Ht & _); [vm_compute; tauto|].
  cbv beta iota delta [v_node] in Ht. rewrite Ht. reflexivity.
Defined.

Lemma constructor_then_init_date_constraints_witness :
  exists o self',
    __init__ (Some sampling) names aligned = Returns o /\
    init_date_constraints (V := services fit) false None tt (fields o) = Ok self' /\
    msg_to_parent (nodes self' 1) = Has (Some (Delta 3 1)) /\
    msg_to_parent (nodes self' 4) = Has None /\
    msg_to_parent (nodes self' 5) = Has None.
Proof.
  destruct (constructor_then_init_date_constraints (V := services fit)
              sampling names None tt aligned Examples.topology_wf eq_refl)
    as (o & self' & dc & Eo & E & Hd & P).
  exists o, self'. split; [exact Eo|]. split; [exact E|].
  unfold __init__ in Eo. cbv zeta in Eo. injection Eo as <-.
  rewrite (Examples.force_ok _ aligned _ E) in Hd.
  vm_compute in Hd. injection Hd as <-.
  pose proof (P (Visit 1 (Some 0) [])) as P1.
  pose proof (P (Visit 4 (Some 2) [])) as P4.
  pose proof (P (Visit 5 (Some 0) [])) as P5.
  cbv beta iota delta [v_node] in P1, P4, P5.
  rewrite P1, P4, P5 by (vm_compute; tauto).
  vm_compute. repeat split; reflexivity.
Defined.

Lemma upward_pass_twice_witness :
  exists once twice,
    _ml_t_leaves_root (dated fit) = Ok once /\
    _ml_t_leaves_root once = Ok twice /\
    forall n, nodes twice n = nodes once n.
Proof.
  destruct (upward_pass_twice (dated fit) Examples.topology_wf
              (Examples.dated_children_ready fit))
    as (once & twice & E1 & E2 & H & _).
  exists once, twice. split; [exact E1|]. split; [exact E2|exact H].
Defined.

Lemma downward_pass_twice_witness :
  exists once twice,
    _ml_t_root_leaves (upward fit) = Ok once /\
    _ml_t_root_leaves once = Ok twice /\
    forall n, nodes twice n = nodes once n.
Proof.
  destruct (downward_pass_twice (upward fit) Examples.topology_wf
              (Examples.upward_parents_ready fit))
    as (once & twice & E1 & E2 & H & _).
  exists once, twice. split; [exact E1|]. split; [exact E2|exact H].
Defined.

Lemma undated_wf : wf (tree undated).
Proof.
  unfold wf; simpl. repeat constructor; simpl; intuition discriminate.
Qed.

Lemma undated_nodes_ready : nodes_ready (tree undated) (nodes undated).
Proof.
  intros v Iv. Examples.enumerate Iv; split; vm_compute; reflexivity.
Qed.

Lemma undated_no_message : ~ some_message (tree undated) (nodes undated).
Proof.
  intros (v & Iv & H). Examples.enumerate Iv; vm_compute in H; discriminate H.
Qed.

Lemma make_time_tree_on_the_global_witness :
  make_time_tree (V := services fit) (Some 0) 1 (fun _ => undated) =
    Raise AttributeError /\
  exists up down final,
    _ml_t_leaves_root (objects 0) = Ok up /\ _ml_t_root_leaves up = Ok down /\
    _set_final_dates down = Ok final /\
    match convert_dates (V := services fit) final with
    | Ok o =>
        exists h', make_time_tree (V := services fit) (Some 0) 1 objects = Ok h' /\
                   h' 0 = o /\ forall r, r <> 0 -> h' r = objects r
    | Raise e => make_time_tree (V := services fit) (Some 0) 1 objects = Raise e
    end.
Proof.
  split.
  - exact (proj1 (make_time_tree_on_the_global (V := services fit) 0 1
                    (fun _ => undated) undated_wf undated_nodes_ready)
                 undated_no_message).
  - exact (proj2 (make_time_tree_on_the_global (V := services fit) 0 1
                    objects Examples.topology_wf (dated_nodes_ready fit))
                 (dated_some_message fit)).
Defined.

Lemma clock_length_is_branch_length_witness :
  (exists self', _set_final_dates (downward fit) = Ok self' /\
     forall v, In v (find_clades Preorder (tree (downward fit))) ->
       lengths_agree (nodes self' (v_node v))) /\
  (forall s s', own_operation (V := services fit) s s' ->
     lengths_consistent (nodes s) (nodes s')).
Proof.
  apply (clock_length_is_branch_length (V := services fit) (downward fit)).
  - exact Examples.topology_wf.
  - exact (Examples.downward_final_ready fit).
Defined.

(** C10, refuted as stated: init_date_constraints is an operation of the
    engine and calls optimize_seq_and_branch_len first.  Run on the finalised
    reference engine with an optimizer that gives node 1 the branch length 9,
    it returns with branch_length 9 and clock_length 1 at node 1. *)
Lemma reoptimized_lengths_differ :
  (exists s',
     init_date_constraints (V := reoptimizing fit) true None tt (finalised fit)
       = Ok s' /\
     branch_length (nodes s' 1) = Some 9%float /\
     clock_length (nodes s' 1) = Has (Some 1%float)) /\
  ~ lengths_never_differ (V := reoptimizing fit).
Proof.
  assert (E : init_date_constraints (V := reoptimizing fit) true None tt
                (finalised fit) =
              Ok (force (init_date_constraints (V := reoptimizing fit) true None tt
                           (finalised fit)) engine))
    by (apply Examples.ok_force; vm_compute; reflexivity).
  assert (B : branch_length
                (nodes (force (init_date_constraints (V := reoptimizing fit) true
                                 None tt (finalised fit)) engine) 1) =
              Some 9%float) by (vm_compute; reflexivity).
  assert (C : clock_length
                (nodes (force (init_date_constraints (V := reoptimizing fit) true
                                 None tt (finalised fit)) engine) 1) =
              Has (Some 1%float)) by (vm_compute; reflexivity).
  split.
  - eexists. split; [exact E|]. split; [exact B|exact C].
  - intros H.
    assert (O : any_operation (V := reoptimizing fit) (finalised fit)
                  (force (init_date_constraints (V := reoptimizing fit) true
                            None tt (finalised fit)) engine)).
    { right; left. exists true, None, tt. exact E. }
    destruct (H _ _ O 1) as [[K _]|K].
    + rewrite B in K.
      apply (f_equal (fun o => match o with
                               | Some x => (x <? 5)%float
                               | None => false
                               end)) in K.
      vm_compute in K. discriminate K.
    + unfold lengths_agree in K. rewrite B, C in K.
      apply (f_equal (fun a => match a with
                               | Has (Some x) => (x <? 5)%float
                               | _ => false
                               end)) in K.
      vm_compute in K. discriminate K.
Qed.

End FurtherExamples.
